(** * The audio mixer of the assignment client

    A shallow embedding of [assignment-client/src/audio/AudioMixer.cpp]:
    the per-listener mix ([addBufferToMixForListeningNodeWithBuffer],
    [prepareMixForListeningNode], the listener loop of [run]), the
    throttle and the stream statistics of the frame loop of
    [AudioMixer::run], the dispatch of [readPendingDatagrams] and the jitter
    statistics of [sendStatsPacket].

    - The C++ [float] is IEEE binary32: the Standard Library's [SpecFloat]
      at precision 24, every operation rounded to nearest even.
    - [int16_t] and [int] are integers of [Z]; narrowing, the saturation of
      [_mm_adds_pi16] and the clamp of [glm::clamp] are written out.  A
      [float] converts to an integer as [cvttss2si] does (the file is built
      for x86: it uses MMX intrinsics).
    - [_clientSamples] and the ring buffers are lists indexed from 0; an
      access outside the array, undefined in C++, reads 0 and writes nothing.
    - libm ([logf], [powf], [sinf]), the angle and quaternion functions of
      glm and [AABox::contains] are the fields of a record, [External]; the
      model and its theorems are stated for every such record.
    - The node hash is a list of nodes, each with its ring buffers; a node
      is identified by its uuid and a ring buffer by its address.
    - A [QJsonObject] is a finite map from strings to strings, and what
      [readPendingDatagrams] does is the list of its calls on the node
      list. *)

From Stdlib Require Import ZArith Bool Lia.
From Stdlib Require Import Floats.SpecFloat.
From stdpp Require Import base list gmap strings pretty.

Local Open Scope Z_scope.

(** ** binary32 arithmetic *)

Module F32.

Definition prec : Z := 24.
Definition emax : Z := 128.

Definition float : Type := spec_float.

Definition add : float -> float -> float := SFadd prec emax.
Definition sub : float -> float -> float := SFsub prec emax.
Definition mul : float -> float -> float := SFmul prec emax.
Definition div : float -> float -> float := SFdiv prec emax.
Definition sqrt : float -> float := SFsqrt prec emax.
Definition fabsf : float -> float := SFabs.

(** The comparison operators of C++; every one of them but [!=] is false
    on a NaN. *)
Definition lt (x y : float) : bool := SFltb x y.
Definition le (x y : float) : bool := SFleb x y.
Definition gt (x y : float) : bool := SFltb y x.
Definition ge (x y : float) : bool := SFleb y x.
Definition eq (x y : float) : bool := SFeqb x y.
Definition ne (x y : float) : bool := negb (SFeqb x y).

(** Conversion of an integer to [float] (round to nearest even). *)
Definition of_int (z : Z) : float := binary_normalize prec emax z 0 false.

(** A decimal literal [n/d] with both parts exactly representable: the
    correctly rounded quotient is the literal's value. *)
Definition lit (n d : Z) : float := div (of_int n) (of_int d).

Definition zero : float := S754_zero false.
Definition one : float := Eval vm_compute in of_int 1.
Definition two : float := Eval vm_compute in of_int 2.
Definition half : float := Eval vm_compute in lit 1 2.
Definition nan : float := S754_nan.
Definition pinf : float := S754_infinity false.
Definition ninf : float := S754_infinity true.

(** The integer part of a finite float, rounded toward zero. *)
Definition trunc (x : float) : option Z :=
  match x with
  | S754_zero _ => Some 0
  | S754_finite s m e =>
      let a := if 0 <=? e then Z.shiftl (Zpos m) e else Z.shiftr (Zpos m) (- e) in
      Some (if s then - a else a)
  | _ => None
  end.

(** [std::min(a, b)] is [(b < a) ? b : a]. *)
Definition std_min (a b : float) : float := if lt b a then b else a.

End F32.

Abbreviation float := F32.float.

(** ** Machine integers *)

Definition INT16_MIN : Z := -32768.
Definition INT16_MAX : Z := 32767.
Definition INT32_MIN : Z := -2147483648.
Definition INT32_MAX : Z := 2147483647.

Definition is_int16 (z : Z) : Prop := INT16_MIN <= z <= INT16_MAX.

(** Two's complement narrowing to 16 and to 32 bits. *)
Definition wrap16 (z : Z) : Z := (z + 32768) mod 65536 - 32768.
Definition wrap32 (z : Z) : Z := (z + 2147483648) mod 4294967296 - 2147483648.

(** [cvttss2si]: the truncated value, or the integer indefinite [INT32_MIN]
    for a NaN, an infinity or a value out of the range of [int]. *)
Definition cvttss2si (x : float) : Z :=
  match F32.trunc x with
  | Some z => if (INT32_MIN <=? z) && (z <=? INT32_MAX) then z else INT32_MIN
  | None => INT32_MIN
  end.

(** A [float] assigned to an [int16_t]: converted to [int], then narrowed. *)
Definition to_int16 (x : float) : Z := wrap16 (cvttss2si x).

(** One lane of [PADDSW]: signed saturating 16-bit addition. *)
Definition sat16 (z : Z) : Z :=
  if z <? INT16_MIN then INT16_MIN else if INT16_MAX <? z then INT16_MAX else z.

(** [glm::clamp(x, minVal, maxVal)] is [min(max(x, minVal), maxVal)]. *)
Definition glm_clamp (x lo hi : Z) : Z := Z.min (Z.max x lo) hi.

(** An [__m64] as four signed 16-bit lanes; [_mm_set_pi16 w3 w2 w1 w0] puts
    its first argument in the highest lane, and [shortResults[k]] reads lane
    [k] of the result. *)
Record m64 : Type := Build_m64 { w3 : Z; w2 : Z; w1 : Z; w0 : Z }.

Definition _mm_set_pi16 (a3 a2 a1 a0 : Z) : m64 := Build_m64 a3 a2 a1 a0.

Definition _mm_adds_pi16 (a b : m64) : m64 :=
  Build_m64 (sat16 (w3 a + w3 b)) (sat16 (w2 a + w2 b))
            (sat16 (w1 a + w1 b)) (sat16 (w0 a + w0 b)).

(** ** Constants *)

(** Modelled from the spec: [AudioRingBuffer.h] is not among the sources;
    a stereo frame is 480 interleaved samples and the inter-aural delay at 90
    degrees is 20 mono samples. *)
Definition NETWORK_BUFFER_LENGTH_SAMPLES_STEREO : Z := 480.
Definition SAMPLE_PHASE_DELAY_AT_90 : Z := 20.
Definition BUFFER_SEND_INTERVAL_USECS : Z := 10000.
Definition MIN_SAMPLE_VALUE : Z := INT16_MIN.
Definition MAX_SAMPLE_VALUE : Z := INT16_MAX.

(** Modelled from the spec: [SharedUtil.h] is not among the sources; epsilon
    is the literal [0.000001f] and pi/2 is half of the [float] nearest to pi. *)
Definition EPSILON : float := Eval vm_compute in F32.lit 1 1000000.
Definition PI : float := S754_finite false 13176795 (-22).
Definition PI_OVER_TWO : float := Eval vm_compute in F32.mul F32.half PI.

Definition LOUDNESS_TO_DISTANCE_RATIO : float := Eval vm_compute in F32.lit 1 100000.

(** ** The throttle of [AudioMixer::run] *)

Definition TRAILING_AVERAGE_FRAMES : Z := 100.
Definition STRUGGLE_TRIGGER_SLEEP_PERCENTAGE_THRESHOLD : float :=
  Eval vm_compute in F32.lit 10 100.
Definition BACK_OFF_TRIGGER_SLEEP_PERCENTAGE_THRESHOLD : float :=
  Eval vm_compute in F32.lit 20 100.
Definition RATIO_BACK_OFF : float := Eval vm_compute in F32.lit 2 100.
Definition CURRENT_FRAME_RATIO : float :=
  Eval vm_compute in F32.div F32.one (F32.of_int TRAILING_AVERAGE_FRAMES).
Definition PREVIOUS_FRAMES_RATIO : float :=
  Eval vm_compute in F32.sub F32.one CURRENT_FRAME_RATIO.

(** The members of [AudioMixer] that the loop reads and writes, with the
    local [framesSinceCutoffEvent] of [run]. *)
Record Throttle : Type := Build_Throttle {
  _trailingSleepRatio : float;
  _minAudibilityThreshold : float;
  _performanceThrottlingRatio : float;
  framesSinceCutoffEvent : Z
}.

(** The constructor's initialisers and the local's initial value. *)
Definition initialThrottle : Throttle :=
  {| _trailingSleepRatio := F32.one;
     _minAudibilityThreshold := F32.div LOUDNESS_TO_DISTANCE_RATIO F32.two;
     _performanceThrottlingRatio := F32.zero;
     framesSinceCutoffEvent := TRAILING_AVERAGE_FRAMES |}.

(** The struggle branch: [ratio + (0.5f * (1.0f - ratio))]. *)
Definition raiseRatio (r : float) : float :=
  F32.add r (F32.mul F32.half (F32.sub F32.one r)).

(** The recovery branch: [ratio - RATIO_BACK_OFF], floored at zero. *)
Definition lowerRatio (r : float) : float :=
  let r' := F32.sub r RATIO_BACK_OFF in
  if F32.lt r' F32.zero then F32.zero else r'.

Definition thresholdFor (r : float) : float :=
  F32.div LOUDNESS_TO_DISTANCE_RATIO (F32.mul F32.two (F32.sub F32.one r)).

(** Lines 549-591 of one iteration of the loop, for the [usecToSleep] left
    by the previous iteration.  The second component is [hasRatioChanged]. *)
Definition throttleFrame (t : Throttle) (usecToSleep : Z) : Throttle * bool :=
  let usecToSleep := if usecToSleep <? 0 then 0 else usecToSleep in
  let trailing :=
    F32.add (F32.mul PREVIOUS_FRAMES_RATIO (_trailingSleepRatio t))
            (F32.div (F32.mul (F32.of_int usecToSleep) CURRENT_FRAME_RATIO)
                     (F32.of_int BUFFER_SEND_INTERVAL_USECS)) in
  let ratio := _performanceThrottlingRatio t in
  let '(ratio', hasRatioChanged) :=
    if TRAILING_AVERAGE_FRAMES <=? framesSinceCutoffEvent t then
      if F32.le trailing STRUGGLE_TRIGGER_SLEEP_PERCENTAGE_THRESHOLD then
        (raiseRatio ratio, true)
      else if F32.ge trailing BACK_OFF_TRIGGER_SLEEP_PERCENTAGE_THRESHOLD
              && F32.ne ratio F32.zero then
        (lowerRatio ratio, true)
      else (ratio, false)
    else (ratio, false) in
  let threshold :=
    if hasRatioChanged then thresholdFor ratio' else _minAudibilityThreshold t in
  let frames :=
    if hasRatioChanged then 0 else wrap32 (framesSinceCutoffEvent t + 1) in
  ({| _trailingSleepRatio := trailing;
      _minAudibilityThreshold := threshold;
      _performanceThrottlingRatio := ratio';
      framesSinceCutoffEvent := frames |}, hasRatioChanged).

(** The loop over the sleep times the clock yields, frame after frame; the
    trace records [hasRatioChanged] of every frame. *)
Fixpoint throttleRun (t : Throttle) (sleeps : list Z) : Throttle * list bool :=
  match sleeps with
  | [] => (t, [])
  | u :: rest =>
      let '(t', changed) := throttleFrame t u in
      let '(t'', trace) := throttleRun t' rest in
      (t'', changed :: trace)
  end.

(** ** Sources, listeners and the registry *)

Record vec3 : Type := Build_vec3 { vx : float; vy : float; vz : float }.
Record quat : Type := Build_quat { qx : float; qy : float; qz : float; qw : float }.

Definition vsub (a b : vec3) : vec3 :=
  Build_vec3 (F32.sub (vx a) (vx b)) (F32.sub (vy a) (vy b)) (F32.sub (vz a) (vz b)).

Record AABox : Type := Build_AABox { corner : vec3; scale : vec3 }.

Inductive BufferType : Type := Microphone | Injector.

(** A [PositionalAudioRingBuffer] (an [InjectedAudioRingBuffer] when its
    type is [Injector]).  [addr] is the identity of the object, which the
    mixer compares as a pointer; [buffer] is the circular array behind
    [getBuffer()], and [nextOutput] the offset of [getNextOutput()] in it. *)
Record PositionalAudioRingBuffer : Type := Build_PositionalAudioRingBuffer {
  addr : nat;
  getType : BufferType;
  getPosition : vec3;
  getOrientation : quat;
  isStereo : bool;
  shouldLoopbackForNode : bool;
  willBeAddedToMix : bool;
  getNextOutputTrailingLoudness : float;
  getListenerUnattenuatedZone : option AABox;
  getRadius : float;
  getAttenuationRatio : float;
  buffer : list Z;
  getSampleCapacity : Z;
  nextOutput : Z
}.

Record AudioMixerClientData : Type := Build_AudioMixerClientData {
  getRingBuffers : list PositionalAudioRingBuffer
}.

Inductive NodeType : Type := Agent | OtherNode.

Record Node : Type := Build_Node {
  uuid : nat;
  nodeType : NodeType;
  getActiveSocket : bool;
  getLinkedData : option AudioMixerClientData
}.

Definition isMicrophone (b : PositionalAudioRingBuffer) : bool :=
  match getType b with Microphone => true | Injector => false end.

(** Modelled from the spec: [AudioMixerClientData.cpp] is not among the
    sources; a listener's own buffer is the Microphone source of its node. *)
Definition getAvatarAudioRingBuffer (d : AudioMixerClientData)
  : option PositionalAudioRingBuffer :=
  List.find isMicrophone (getRingBuffers d).

(** [glm::dot] and [glm::length] of a [vec3]: the sum of the products of
    the components, and the square root of a vector's product with itself. *)
Definition glm_dot (a b : vec3) : float :=
  F32.add (F32.add (F32.mul (vx a) (vx b)) (F32.mul (vy a) (vy b)))
          (F32.mul (vz a) (vz b)).

Definition glm_length (v : vec3) : float := F32.sqrt (glm_dot v v).

(** ** libm, glm and [AABox::contains]

    The functions the mixer calls and whose code lies outside this
    repository's sources.  The model is stated for every such record. *)
Record External : Type := Build_External {
  logf : float -> float;
  powf : float -> float -> float;
  sinf : float -> float;
  glm_normalize : vec3 -> vec3;
  glm_angle : vec3 -> vec3 -> float;
  glm_orientedAngle : vec3 -> vec3 -> vec3 -> float;
  glm_inverse : quat -> quat;
  glm_rotate : quat -> vec3 -> vec3;
  AABox_contains : AABox -> vec3 -> bool
}.

(** ** [addBufferToMixForListeningNodeWithBuffer]: the parameters *)

Definition MAX_OFF_AXIS_ATTENUATION : float := Eval vm_compute in F32.lit 2 10.
Definition OFF_AXIS_ATTENUATION_FORMULA_STEP : float :=
  F32.div (F32.sub (F32.of_int 1) MAX_OFF_AXIS_ATTENUATION) F32.two.

(** Lines 150-154, for the angle of delivery [glm::angle] returned. *)
Definition offAxisCoefficient (angleOfDelivery : float) : float :=
  F32.add MAX_OFF_AXIS_ATTENUATION
          (F32.mul OFF_AXIS_ATTENUATION_FORMULA_STEP
                   (F32.div angleOfDelivery PI_OVER_TWO)).

Definition DISTANCE_SCALE : float := Eval vm_compute in F32.lit 25 10.
Definition GEOMETRIC_AMPLITUDE_SCALAR : float := Eval vm_compute in F32.lit 3 10.
Definition DISTANCE_LOG_BASE : float := Eval vm_compute in F32.lit 25 10.
Definition PHASE_AMPLITUDE_RATIO_AT_90 : float := F32.half.

Definition FORWARD : vec3 := Build_vec3 F32.zero F32.zero (SFopp F32.one).
Definition UP : vec3 := Build_vec3 F32.zero F32.one F32.zero.

(** The locals that lines 91-193 leave for the accumulation. *)
Record MixParams : Type := Build_MixParams {
  bearingRelativeAngleToSource : float;
  attenuationCoefficient : float;
  numSamplesDelay : Z;
  weakChannelAmplitudeRatio : float;
  shouldAttenuate : bool
}.

Definition unattenuated : MixParams :=
  Build_MixParams F32.zero F32.one 0 F32.one false.

Section Spatializer.

Variable E : External.

(** Lines 100-106: the distance the audibility gate divides by. *)
Definition distanceBetween (relativePosition : vec3) : float :=
  let d := glm_length relativePosition in
  if F32.lt d EPSILON then EPSILON else d.

(** Line 108: true when the source is to be left out. *)
Definition belowAudibility (threshold loudness : float) (relativePosition : vec3) : bool :=
  F32.le (F32.div loudness (distanceBetween relativePosition)) threshold.

(** Lines 162-171: the raw distance coefficient, before [std::min]. *)
Definition rawDistanceCoefficient (distanceSquareToSource : float) : float :=
  let DISTANCE_SCALE_LOG := F32.div (logf E DISTANCE_SCALE) (logf E DISTANCE_LOG_BASE) in
  powf E GEOMETRIC_AMPLITUDE_SCALAR
       (F32.sub (F32.add DISTANCE_SCALE_LOG
                         (F32.div (F32.mul F32.half (logf E distanceSquareToSource))
                                  (logf E DISTANCE_LOG_BASE)))
                (F32.of_int 1)).

Definition distanceCoefficient (distanceSquareToSource : float) : float :=
  F32.std_min F32.one (rawDistanceCoefficient distanceSquareToSource).

(** Lines 145-148. *)
Definition angleOfDelivery (sourceOrientation : quat) (relativePosition : vec3) : float :=
  let rotatedListenerPosition :=
    glm_rotate E (glm_inverse E sourceOrientation) relativePosition in
  glm_angle E FORWARD (glm_normalize E rotatedListenerPosition).

(** Lines 121-191, entered with [shouldAttenuate] true. *)
Definition attenuateAndSpatialize (bufferToAdd : PositionalAudioRingBuffer)
    (listenerOrientation : quat) (relativePosition : vec3) : MixParams :=
  let inverseOrientation := glm_inverse E listenerOrientation in
  let distanceSquareToSource := glm_dot relativePosition relativePosition in
  let '(radius, attenuation) :=
    match getType bufferToAdd with
    | Injector => (getRadius bufferToAdd,
                   F32.mul F32.one (getAttenuationRatio bufferToAdd))
    | Microphone => (F32.zero, F32.one)
    end in
  if F32.eq radius F32.zero
     || F32.gt distanceSquareToSource (F32.mul radius radius) then
    let '(distanceSquareToSource, attenuation) :=
      if F32.gt radius F32.zero then
        (F32.sub distanceSquareToSource (F32.mul radius radius), attenuation)
      else
        (distanceSquareToSource,
         F32.mul attenuation
                 (offAxisCoefficient
                    (angleOfDelivery (getOrientation bufferToAdd) relativePosition))) in
    let rotatedSourcePosition := glm_rotate E inverseOrientation relativePosition in
    let attenuation :=
      F32.mul attenuation (distanceCoefficient distanceSquareToSource) in
    let rotatedSourcePosition :=
      Build_vec3 (vx rotatedSourcePosition) F32.zero (vz rotatedSourcePosition) in
    let bearing :=
      glm_orientedAngle E FORWARD (glm_normalize E rotatedSourcePosition) UP in
    let sinRatio := F32.fabsf (sinf E bearing) in
    {| bearingRelativeAngleToSource := bearing;
       attenuationCoefficient := attenuation;
       numSamplesDelay :=
         cvttss2si (F32.mul (F32.of_int SAMPLE_PHASE_DELAY_AT_90) sinRatio);
       weakChannelAmplitudeRatio :=
         F32.sub (F32.of_int 1) (F32.mul PHASE_AMPLITUDE_RATIO_AT_90 sinRatio);
       shouldAttenuate := true |}
  else
    {| bearingRelativeAngleToSource := F32.zero;
       attenuationCoefficient := attenuation;
       numSamplesDelay := 0;
       weakChannelAmplitudeRatio := F32.one;
       shouldAttenuate := true |}.

(** Lines 91-193.  [None] is the early return of the audibility gate.  Of
    the listener's buffer the code reads the identity and the pose. *)
Definition spatialize (threshold : float) (bufferToAdd : PositionalAudioRingBuffer)
    (listenerAddr : nat) (listenerPosition : vec3) (listenerOrientation : quat)
  : option MixParams :=
  if Nat.eqb (addr bufferToAdd) listenerAddr then Some unattenuated
  else
    let relativePosition := vsub (getPosition bufferToAdd) listenerPosition in
    if belowAudibility threshold (getNextOutputTrailingLoudness bufferToAdd)
                       relativePosition
    then None
    else
      let shouldAttenuate :=
        match getListenerUnattenuatedZone bufferToAdd with
        | Some zone => negb (AABox_contains E zone listenerPosition)
        | None => true
        end in
      if shouldAttenuate then
        Some (attenuateAndSpatialize bufferToAdd listenerOrientation relativePosition)
      else Some unattenuated.

End Spatializer.

(** ** [addBufferToMixForListeningNodeWithBuffer]: the accumulation *)

(** Modelled from the spec: [AudioMixer.h] is not among the sources;
    [_clientSamples] holds a stereo frame and the room the delayed channel
    needs past its end. *)
Definition CLIENT_SAMPLES_LENGTH : Z :=
  NETWORK_BUFFER_LENGTH_SAMPLES_STEREO + SAMPLE_PHASE_DELAY_AT_90 * 2.

(** Reading and writing an [int16_t] array by index.  An access outside the
    array is undefined in C++; here a read yields 0 and a write is dropped. *)
Definition rd (a : list Z) (i : Z) : Z :=
  if i <? 0 then 0 else default 0 (a !! Z.to_nat i).

Definition wr (a : list Z) (i : Z) (v : Z) : list Z :=
  if i <? 0 then a else <[Z.to_nat i := v]> a.

(** [p[k]] for a pointer [p] at offset [off] of the ring buffer's array. *)
Definition deref (b : PositionalAudioRingBuffer) (off k : Z) : Z :=
  rd (buffer b) (off + k).

(** A sample scaled by a [float] and stored as [int16_t]. *)
Definition scaled (sample : Z) (ratio : float) : Z :=
  to_int16 (F32.mul (F32.of_int sample) ratio).

(** The values [s] takes in [for (s = 0; s < 480; s += 4)]. *)
Definition frameOffsets : list Z :=
  List.map (fun k => 4 * Z.of_nat k)
           (List.seq 0 (Z.to_nat (NETWORK_BUFFER_LENGTH_SAMPLES_STEREO / 4))).

Definition SINGLE_STEREO_OFFSET : Z := 2.
Definition DOUBLE_STEREO_OFFSET : Z := 4.
Definition TRIPLE_STEREO_OFFSET : Z := 6.

Section Accumulate.

Variable bufferToAdd : PositionalAudioRingBuffer.
Variable p : MixParams.

Let nextOutputStart (k : Z) : Z := deref bufferToAdd (nextOutput bufferToAdd) k.
Let attenuation : float := attenuationCoefficient p.
Let weak : float := weakChannelAmplitudeRatio p.
Let delay : Z := numSamplesDelay p.

Definition delayedChannelOffset : Z :=
  if F32.gt (bearingRelativeAngleToSource p) F32.zero then 1 else 0.
Definition goodChannelOffset : Z :=
  if delayedChannelOffset =? 0 then 1 else 0.

(** Lines 213-238: one turn of the loop of the mono branch. *)
Definition monoStep (clientSamples : list Z) (s : Z) : list Z :=
  let correct0 := scaled (nextOutputStart (s / 2)) attenuation in
  let correct1 := scaled (nextOutputStart (s / 2 + 1)) attenuation in
  let delayedChannelIndex := s + delay * 2 + delayedChannelOffset in
  let delay0 := scaled correct0 weak in
  let delay1 := scaled correct1 weak in
  let bufferSamples :=
    _mm_set_pi16 (rd clientSamples (s + goodChannelOffset))
                 (rd clientSamples (s + goodChannelOffset + SINGLE_STEREO_OFFSET))
                 (rd clientSamples delayedChannelIndex)
                 (rd clientSamples (delayedChannelIndex + SINGLE_STEREO_OFFSET)) in
  let addedSamples := _mm_set_pi16 correct0 correct1 delay0 delay1 in
  let shortResults := _mm_adds_pi16 bufferSamples addedSamples in
  let clientSamples := wr clientSamples (s + goodChannelOffset) (w3 shortResults) in
  let clientSamples :=
    wr clientSamples (s + goodChannelOffset + SINGLE_STEREO_OFFSET) (w2 shortResults) in
  let clientSamples := wr clientSamples delayedChannelIndex (w1 shortResults) in
  wr clientSamples (delayedChannelIndex + SINGLE_STEREO_OFFSET) (w0 shortResults).

(** Lines 253-256: where the samples before [nextOutput] are read from. *)
Definition delayNextOutputStart : Z :=
  let start := nextOutput bufferToAdd - delay in
  if start <? 0 then getSampleCapacity bufferToAdd - delay else start.

Definition attenuationAndWeakChannelRatio : float := F32.mul attenuation weak.

Definition delaySample (i : Z) : Z :=
  scaled (deref bufferToAdd delayNextOutputStart i) attenuationAndWeakChannelRatio.

(** Lines 260-326 add delayed samples to the slots of the delayed channel
    in groups; [count] is the number of lanes in use (4, 3, 2 or 1), the
    other lanes of both operands being zero and their results unused. *)
Definition delayGroup (count : nat) (clientSamples : list Z) (i : Z) : list Z :=
  let parentIndex := i * 2 in
  let slot (k : Z) := parentIndex + k + delayedChannelOffset in
  let lane (n : nat) (v : Z) := if (n <? count)%nat then v else 0 in
  let bufferSamples :=
    _mm_set_pi16 (lane 0%nat (rd clientSamples (slot 0)))
                 (lane 1%nat (rd clientSamples (slot SINGLE_STEREO_OFFSET)))
                 (lane 2%nat (rd clientSamples (slot DOUBLE_STEREO_OFFSET)))
                 (lane 3%nat (rd clientSamples (slot TRIPLE_STEREO_OFFSET))) in
  let addSamples :=
    _mm_set_pi16 (lane 0%nat (delaySample i))
                 (lane 1%nat (delaySample (i + 1)))
                 (lane 2%nat (delaySample (i + 2)))
                 (lane 3%nat (delaySample (i + 3))) in
  let shortResults := _mm_adds_pi16 bufferSamples addSamples in
  let store (n : nat) (k v : Z) (a : list Z) :=
    if (n <? count)%nat then wr a (slot k) v else a in
  store 3%nat TRIPLE_STEREO_OFFSET (w0 shortResults)
    (store 2%nat DOUBLE_STEREO_OFFSET (w1 shortResults)
       (store 1%nat SINGLE_STEREO_OFFSET (w2 shortResults)
          (store 0%nat 0 (w3 shortResults) clientSamples))).

(** The [while (i + 3 < numSamplesDelay)] loop, from [i]. *)
Fixpoint delayQuads (fuel : nat) (clientSamples : list Z) (i : Z) : list Z * Z :=
  match fuel with
  | O => (clientSamples, i)
  | S fuel =>
      if i + 3 <? delay then delayQuads fuel (delayGroup 4 clientSamples i) (i + 4)
      else (clientSamples, i)
  end.

(** Lines 249-327. *)
Definition addDelayedSamples (clientSamples : list Z) : list Z :=
  if 0 <? delay then
    let '(clientSamples, i) := delayQuads (Z.to_nat delay) clientSamples 0 in
    if i + 2 <? delay then delayGroup 3 clientSamples i
    else if i + 1 <? delay then delayGroup 2 clientSamples i
    else if i <? delay then delayGroup 1 clientSamples i
    else clientSamples
  else clientSamples.

(** Lines 330-353: one turn of the loop of the other branch. *)
Definition stereoStep (clientSamples : list Z) (s : Z) : list Z :=
  let stereoDivider := if isStereo bufferToAdd then 1 else 2 in
  let attenuation := if shouldAttenuate p then attenuation else F32.one in
  let mixed (a : list Z) (k : Z) :=
    wr a (s + k)
       (wrap16 (glm_clamp
                  (wrap32 (rd a (s + k)
                           + cvttss2si
                               (F32.mul (F32.of_int
                                           (nextOutputStart (s / stereoDivider
                                                             + k / stereoDivider)))
                                        attenuation)))
                  MIN_SAMPLE_VALUE MAX_SAMPLE_VALUE)) in
  mixed (mixed (mixed (mixed clientSamples 0) 1) 2) 3.

(** Lines 195-354. *)
Definition accumulate (clientSamples : list Z) : list Z :=
  if negb (isStereo bufferToAdd) && shouldAttenuate p then
    addDelayedSamples (fold_left monoStep frameOffsets clientSamples)
  else
    fold_left stereoStep frameOffsets clientSamples.

End Accumulate.

(** ** The mixer *)

(** The members of [AudioMixer] the mix writes. *)
Record Mix : Type := Build_Mix {
  _clientSamples : list Z;
  _sumMixes : Z
}.

Section Mixer.

Variable E : External.
Variable threshold : float.

(** Lines 89-355.  [++_sumMixes] is on the path of a buffer that is not
    the listener's own and passes the audibility gate. *)
Definition addBufferToMixForListeningNodeWithBuffer
    (bufferToAdd listeningNodeBuffer : PositionalAudioRingBuffer) (m : Mix) : Mix :=
  match spatialize E threshold bufferToAdd (addr listeningNodeBuffer)
                   (getPosition listeningNodeBuffer)
                   (getOrientation listeningNodeBuffer) with
  | None => m
  | Some p =>
      {| _clientSamples := accumulate bufferToAdd p (_clientSamples m);
         _sumMixes :=
           if Nat.eqb (addr bufferToAdd) (addr listeningNodeBuffer)
           then _sumMixes m else wrap32 (_sumMixes m + 1) |}
  end.

(** [memset(_clientSamples, 0, NETWORK_BUFFER_LENGTH_BYTES_STEREO)]. *)
Definition zeroClientSamples (a : list Z) : list Z :=
  let n := Z.to_nat NETWORK_BUFFER_LENGTH_SAMPLES_STEREO in
  replicate (Nat.min n (length a)) 0 ++ drop n a.

(** Lines 373-378: whether a buffer of [otherNode] goes into the mix of
    [node]. *)
Definition eligible (node otherNode : Node) (b : PositionalAudioRingBuffer) : bool :=
  (negb (Nat.eqb (uuid otherNode) (uuid node)) || shouldLoopbackForNode b)
  && willBeAddedToMix b
  && F32.gt (getNextOutputTrailingLoudness b) F32.zero.

Definition mixNode (node : Node) (nodeRingBuffer : PositionalAudioRingBuffer)
    (m : Mix) (otherNode : Node) : Mix :=
  match getLinkedData otherNode with
  | Some otherNodeClientData =>
      fold_left
        (fun m otherNodeBuffer =>
           if eligible node otherNode otherNodeBuffer
           then addBufferToMixForListeningNodeWithBuffer otherNodeBuffer nodeRingBuffer m
           else m)
        (getRingBuffers otherNodeClientData) m
  | None => m
  end.

(** Lines 357-382.  [None] when the node has no avatar ring buffer, which
    the C++ dereferences unchecked; [run] calls it for nodes that have one. *)
Definition prepareMixForListeningNode (nodeHash : list Node) (node : Node) (m : Mix)
  : option Mix :=
  match getLinkedData node with
  | Some data =>
      match getAvatarAudioRingBuffer data with
      | Some nodeRingBuffer =>
          Some (fold_left (mixNode node nodeRingBuffer) nodeHash
                          {| _clientSamples := zeroClientSamples (_clientSamples m);
                             _sumMixes := _sumMixes m |})
      | None => None
      end
  | None => None
  end.

(** The block [run] copies into the packet of a listener. *)
Definition outputBlock (m : Mix) : list Z :=
  take (Z.to_nat NETWORK_BUFFER_LENGTH_SAMPLES_STEREO) (_clientSamples m).

(** Lines 604-638 of [run]: the mix of every listener of the frame, in
    the order of the node hash; each listener's uuid with its block. *)
Definition isListener (node : Node) : bool :=
  match nodeType node, getLinkedData node with
  | Agent, Some data =>
      getActiveSocket node && bool_decide (is_Some (getAvatarAudioRingBuffer data))
  | _, _ => false
  end.

Fixpoint mixListeners (nodeHash listeners : list Node) (m : Mix)
  : Mix * list (nat * list Z) :=
  match listeners with
  | [] => (m, [])
  | node :: rest =>
      if isListener node then
        match prepareMixForListeningNode nodeHash node m with
        | Some m' =>
            let '(m'', packets) := mixListeners nodeHash rest m' in
            (m'', (uuid node, outputBlock m') :: packets)
        | None => mixListeners nodeHash rest m
        end
      else mixListeners nodeHash rest m
  end.

End Mixer.

(** ** A reference instance of the externals

    For evaluating the model on concrete inputs: glm by its textbook
    formulas in binary32, [AABox::contains] as the closed box, and libm at
    the arguments where its result is fixed exactly (Annex F of C99, and the
    correctly rounded logarithm of 2.5), NaN elsewhere. *)
Module Reference.

Definition neg_one : float := SFopp F32.one.

Definition logf (x : float) : float :=
  match x with
  | S754_zero _ => F32.ninf
  | S754_infinity false => F32.pinf
  | S754_finite false _ _ =>
      if F32.eq x F32.one then F32.zero
      else if F32.eq x DISTANCE_LOG_BASE then S754_finite false 15372808 (-24)
      else F32.nan
  | _ => F32.nan
  end.

Definition powf (x y : float) : float :=
  match y with
  | S754_zero _ => F32.one
  | S754_infinity s =>
      if F32.lt (F32.fabsf x) F32.one then (if s then F32.pinf else F32.zero)
      else if F32.gt (F32.fabsf x) F32.one then (if s then F32.zero else F32.pinf)
      else if F32.eq (F32.fabsf x) F32.one then F32.one
      else F32.nan
  | _ => if F32.eq x F32.one then F32.one else F32.nan
  end.

Definition sinf (x : float) : float :=
  match x with S754_zero _ => x | _ => F32.nan end.

Definition acosf (x : float) : float :=
  if F32.eq x F32.one then F32.zero else F32.nan.

Definition vscale (v : vec3) (k : float) : vec3 :=
  Build_vec3 (F32.mul (vx v) k) (F32.mul (vy v) k) (F32.mul (vz v) k).

Definition vadd (a b : vec3) : vec3 :=
  Build_vec3 (F32.add (vx a) (vx b)) (F32.add (vy a) (vy b)) (F32.add (vz a) (vz b)).

Definition cross (a b : vec3) : vec3 :=
  Build_vec3 (F32.sub (F32.mul (vy a) (vz b)) (F32.mul (vy b) (vz a)))
             (F32.sub (F32.mul (vz a) (vx b)) (F32.mul (vz b) (vx a)))
             (F32.sub (F32.mul (vx a) (vy b)) (F32.mul (vx b) (vy a))).

Definition glm_normalize (v : vec3) : vec3 :=
  vscale v (F32.div F32.one (F32.sqrt (glm_dot v v))).

Definition fmax (x y : float) : float := if F32.lt x y then y else x.
Definition fmin (x y : float) : float := if F32.lt y x then y else x.

Definition glm_angle (a b : vec3) : float :=
  acosf (fmin (fmax (glm_dot a b) neg_one) F32.one).

Definition glm_orientedAngle (a b ref : vec3) : float :=
  let angle := glm_angle a b in
  if F32.lt (glm_dot ref (cross a b)) F32.zero then SFopp angle else angle.

Definition glm_inverse (q : quat) : quat :=
  let n := F32.add (F32.add (F32.add (F32.mul (qx q) (qx q)) (F32.mul (qy q) (qy q)))
                            (F32.mul (qz q) (qz q)))
                   (F32.mul (qw q) (qw q)) in
  Build_quat (F32.div (SFopp (qx q)) n) (F32.div (SFopp (qy q)) n)
             (F32.div (SFopp (qz q)) n) (F32.div (qw q) n).

Definition glm_rotate (q : quat) (v : vec3) : vec3 :=
  let u := Build_vec3 (qx q) (qy q) (qz q) in
  let uv := cross u v in
  let uuv := cross u uv in
  vadd (vadd v (vscale uv (F32.mul F32.two (qw q)))) (vscale uuv F32.two).

Definition within (value corner size : float) : bool :=
  F32.ge value corner && F32.le value (F32.add corner size).

Definition AABox_contains (box : AABox) (point : vec3) : bool :=
  within (vx point) (vx (corner box)) (vx (scale box))
  && within (vy point) (vy (corner box)) (vy (scale box))
  && within (vz point) (vz (corner box)) (vz (scale box)).

Definition external : External :=
  Build_External logf powf sinf glm_normalize glm_angle glm_orientedAngle
                 glm_inverse glm_rotate AABox_contains.

End Reference.

(** ** Concrete sources and listeners *)

Module Scenario.

Definition origin : vec3 := Build_vec3 F32.zero F32.zero F32.zero.
Definition identity : quat := Build_quat F32.zero F32.zero F32.zero F32.one.
Definition at_x (x : float) : vec3 := Build_vec3 x F32.zero F32.zero.

(** A mono microphone at [pos] with a ring buffer of ten frames, every
    sample [level], about to output its first frame. *)
Definition microphone (a : nat) (pos : vec3) (loudness : float) (level : Z)
  : PositionalAudioRingBuffer :=
  {| addr := a; getType := Microphone; getPosition := pos;
     getOrientation := identity; isStereo := false;
     shouldLoopbackForNode := false; willBeAddedToMix := true;
     getNextOutputTrailingLoudness := loudness;
     getListenerUnattenuatedZone := None;
     getRadius := F32.zero; getAttenuationRatio := F32.one;
     buffer := replicate 2400 level; getSampleCapacity := 2400; nextOutput := 0 |}.

(** An injector at the origin that loops back to its owner. *)
Definition injector (a : nat) (stereo : bool) (radius ratio : float) (level : Z)
  : PositionalAudioRingBuffer :=
  {| addr := a; getType := Injector; getPosition := origin;
     getOrientation := identity; isStereo := stereo;
     shouldLoopbackForNode := true; willBeAddedToMix := true;
     getNextOutputTrailingLoudness := F32.one;
     getListenerUnattenuatedZone := None;
     getRadius := radius; getAttenuationRatio := ratio;
     buffer := replicate 4800 level; getSampleCapacity := 4800; nextOutput := 0 |}.

Definition agent (id : nat) (buffers : list PositionalAudioRingBuffer) : Node :=
  {| uuid := id; nodeType := Agent; getActiveSocket := true;
     getLinkedData := Some (Build_AudioMixerClientData buffers) |}.

Definition silence : Mix :=
  {| _clientSamples := replicate (Z.to_nat CLIENT_SAMPLES_LENGTH) 0; _sumMixes := 0 |}.

Definition defaultThreshold : float := _minAudibilityThreshold initialThrottle.

(** The listener of every scenario: a microphone at the origin. *)
Definition listener : PositionalAudioRingBuffer :=
  microphone 0 origin F32.one 1000.

(** The distance gate: a source 10000 away with trailing loudness 0.05. *)
Definition farSource : PositionalAudioRingBuffer :=
  microphone 1 (at_x (F32.of_int 10000)) (F32.lit 5 100) 1000.

(** A stereo spherical injector of radius 1 and attenuation ratio 0.5,
    heard from half a unit away, inside the sphere. *)
Definition stereoInjector : PositionalAudioRingBuffer :=
  injector 2 true F32.one F32.half 1000.
Definition insideListener : PositionalAudioRingBuffer :=
  microphone 0 (at_x F32.half) F32.one 1000.

(** A place one unit behind a source at the origin that faces -z. *)
Definition behind : vec3 := Build_vec3 F32.zero F32.zero F32.one.


(** A microphone at the listener's place. *)
Definition coincidentMicrophone : PositionalAudioRingBuffer :=
  microphone 4 origin F32.one 1000.

(** A ring buffer of eight samples whose next output starts at offset 1,
    mixed with a delay of two samples at full gain. *)
Definition smallRing : PositionalAudioRingBuffer :=
  {| addr := 5; getType := Microphone; getPosition := origin;
     getOrientation := identity; isStereo := false;
     shouldLoopbackForNode := false; willBeAddedToMix := true;
     getNextOutputTrailingLoudness := F32.one;
     getListenerUnattenuatedZone := None;
     getRadius := F32.zero; getAttenuationRatio := F32.one;
     buffer := [10; 11; 12; 13; 14; 15; 16; 17]; getSampleCapacity := 8;
     nextOutput := 1 |}.
Definition delayOfTwo : MixParams :=
  {| bearingRelativeAngleToSource := F32.zero; attenuationCoefficient := F32.one;
     numSamplesDelay := 2; weakChannelAmplitudeRatio := F32.one;
     shouldAttenuate := true |}.

End Scenario.

(** ** Packets from the network

    [readPendingDatagrams] (lines 385-416).  A datagram is seen through the
    three functions the loop asks about it; what the loop does is the list
    of calls it makes on the node list. *)
Inductive PacketType : Type :=
| PacketTypeMicrophoneAudioNoEcho
| PacketTypeMicrophoneAudioWithEcho
| PacketTypeInjectAudio
| PacketTypeSilentAudioFrame
| PacketTypeMuteEnvironment
| PacketTypeOther.

Record Datagram : Type := Build_Datagram {
  packetVersionAndHashMatch : bool;
  packetTypeForPacket : PacketType;
  (** the uuid of [sendingNodeForPacket], if there is such a node *)
  sendingNodeForPacket : option nat;
  senderSockAddr : nat;
  payload : list Z
}.

Inductive NodeListCall : Type :=
| findNodeAndUpdateWithDataFromPacket (receivedPacket : Datagram)
| writeDatagram (packetType : PacketType) (packet : Datagram) (destination : nat)
| processNodeData (sender : nat) (receivedPacket : Datagram).

(** Line 403: the nodes a mute-environment packet is forwarded to. *)
Definition hearsMuteEnvironment (receivedPacket : Datagram) (node : Node) : bool :=
  match nodeType node with Agent => true | OtherNode => false end
  && getActiveSocket node
  && bool_decide (is_Some (getLinkedData node))
  && negb (bool_decide (sendingNodeForPacket receivedPacket = Some (uuid node))).

(** Lines 391-414: one turn of the loop. *)
Definition handleDatagram (nodeHash : list Node) (receivedPacket : Datagram)
  : list NodeListCall :=
  if packetVersionAndHashMatch receivedPacket then
    match packetTypeForPacket receivedPacket with
    | PacketTypeMicrophoneAudioNoEcho
    | PacketTypeMicrophoneAudioWithEcho
    | PacketTypeInjectAudio
    | PacketTypeSilentAudioFrame =>
        [findNodeAndUpdateWithDataFromPacket receivedPacket]
    | PacketTypeMuteEnvironment =>
        List.map (fun node => writeDatagram PacketTypeMuteEnvironment receivedPacket
                                            (uuid node))
                 (List.filter (hearsMuteEnvironment receivedPacket) nodeHash)
    | PacketTypeOther => [processNodeData (senderSockAddr receivedPacket) receivedPacket]
    end
  else [].

Definition readPendingDatagrams (nodeHash : list Node) (datagrams : list Datagram)
  : list NodeListCall :=
  List.concat (List.map (handleDatagram nodeHash) datagrams).

(** ** The statistics of the jitter buffers

    The second half of [sendStatsPacket] (lines 440-471).  A [QJsonObject]
    is a finite map from strings to values; [QUuid::toString] and
    [getJitterBufferStatsString] are not among the sources and are
    parameters. *)
Definition TOO_BIG_FOR_MTU : Z := 1200.

Record StatsLoop : Type := Build_StatsLoop {
  statsObject2 : gmap string string;
  somethingToSend : bool;
  sizeOfStats : Z;
  (** the objects passed to [sendStatsToDomainServer] so far *)
  sentStats : list (gmap string string)
}.

Definition statsLoopStart : StatsLoop :=
  {| statsObject2 := ∅; somethingToSend := false; sizeOfStats := 0; sentStats := [] |}.

Section JitterStats.

Variable uuidToString : nat -> string.
Variable getJitterBufferStatsString : AudioMixerClientData -> string.

Definition jitterStatsProperty (node : Node) : string :=
  "jitterStats." +:+ uuidToString (uuid node).

(** Lines 451-469: one turn of the loop over the node hash. *)
Definition statsStep (st : StatsLoop) (node : Node) : StatsLoop :=
  let st :=
    match getLinkedData node with
    | Some clientData =>
        let property := jitterStatsProperty node in
        let value := getJitterBufferStatsString clientData in
        {| statsObject2 := <[property := value]> (statsObject2 st);
           somethingToSend := true;
           sizeOfStats :=
             wrap32 (sizeOfStats st
                     + (Z.of_nat (String.length property)
                        + Z.of_nat (String.length value)));
           sentStats := sentStats st |}
    | None => st
    end in
  if TOO_BIG_FOR_MTU <? sizeOfStats st then
    {| statsObject2 := ∅; somethingToSend := false; sizeOfStats := 0;
       sentStats := sentStats st ++ [statsObject2 st] |}
  else st.

(** Lines 440-471: the objects sent, in order. *)
Definition sendJitterStats (nodeHash : list Node) : list (gmap string string) :=
  let st := fold_left statsStep nodeHash statsLoopStart in
  if somethingToSend st then sentStats st ++ [statsObject2 st] else sentStats st.

End JitterStats.

(** The properties the loop assigns, in the order of the node hash. *)
Definition jitterStatsProperties (uuidToString : nat -> string)
    (nodeHash : list Node) : list string :=
  List.map (jitterStatsProperty uuidToString)
           (List.filter (fun node => bool_decide (is_Some (getLinkedData node)))
                        nodeHash).

(** What holds of the loop whatever the nodes are. *)
Definition statsLoopOk (uuidToString : nat -> string)
    (getJitterBufferStatsString : AudioMixerClientData -> string)
    (nodeHash : list Node) (st : StatsLoop) : Prop :=
  (somethingToSend st = false -> statsObject2 st = ∅)
  /\ (somethingToSend st = true -> statsObject2 st <> ∅)
  /\ (statsObject2 st = ∅ -> sizeOfStats st = 0)
  /\ Forall (fun object => object <> ∅) (sentStats st)
  /\ (forall object k v,
        (object = statsObject2 st \/ In object (sentStats st)) ->
        object !! k = Some v ->
        exists node clientData,
          In node nodeHash /\ getLinkedData node = Some clientData
          /\ k = jitterStatsProperty uuidToString node /\ v = getJitterBufferStatsString clientData).

(** What holds of the loop after the nodes of [done], when no two of them
    with client data have the same property: the properties assigned so far
    are those of [done], each in one place only. *)
Definition statsLoopComplete (uuidToString : nat -> string)
    (getJitterBufferStatsString : AudioMixerClientData -> string)
    (done : list Node) (st : StatsLoop) : Prop :=
  (forall k, is_Some (statsObject2 st !! k) ->
             In k (jitterStatsProperties uuidToString done))
  /\ (forall j object k,
        sentStats st !! j = Some object -> is_Some (object !! k) ->
        In k (jitterStatsProperties uuidToString done)
        /\ statsObject2 st !! k = None
        /\ forall j' object',
             sentStats st !! j' = Some object' -> is_Some (object' !! k) -> j' = j)
  /\ (forall node clientData,
        In node done -> getLinkedData node = Some clientData ->
        statsObject2 st !! jitterStatsProperty uuidToString node
        = Some (getJitterBufferStatsString clientData)
        \/ exists j object,
             sentStats st !! j = Some object
             /\ object !! jitterStatsProperty uuidToString node
                = Some (getJitterBufferStatsString clientData)).

(** Packets and names for the examples: a mute-environment packet sent by
    node 0, a silent audio frame of node 1, and uuids printed in decimal
    between braces. *)
Module Traffic.

Definition muteFromFirst : Datagram :=
  {| packetVersionAndHashMatch := true;
     packetTypeForPacket := PacketTypeMuteEnvironment;
     sendingNodeForPacket := Some 0%nat;
     senderSockAddr := 0%nat;
     payload := [] |}.

Definition silentFrame : Datagram :=
  {| packetVersionAndHashMatch := true;
     packetTypeForPacket := PacketTypeSilentAudioFrame;
     sendingNodeForPacket := Some 1%nat;
     senderSockAddr := 1%nat;
     payload := [] |}.

Definition uuidToString (id : nat) : string := "{" +:+ pretty id +:+ "}".

Definition getJitterBufferStatsString (clientData : AudioMixerClientData) : string :=
  "buffers: " +:+ pretty (length (getRingBuffers clientData)).

Definition nodes : list Node :=
  [Scenario.agent 0 [Scenario.listener]; Scenario.agent 1 [Scenario.farSource]].

End Traffic.

(** ** The audio stream statistics of a frame

    Lines 594-602 of [run].  Times are [quint64] microseconds; the
    difference of two of them wraps around at [2 ^ 64]. *)

(** Modelled from the spec: [SharedUtil.h] is not among the sources; the
    statistics of the streams go out about once per second, a million
    microseconds. *)
Definition USECS_PER_SECOND : Z := 1000000.
Definition TOO_LONG_SINCE_LAST_SEND_AUDIO_STREAM_STATS : Z := 1 * USECS_PER_SECOND.

Definition wrap64u (z : Z) : Z := z mod 2 ^ 64.

(** One frame: the new [_lastSendAudioStreamStatsTime] and
    [sendAudioStreamStats]. *)
Definition audioStreamStatsFrame (_lastSendAudioStreamStatsTime now : Z) : Z * bool :=
  if TOO_LONG_SINCE_LAST_SEND_AUDIO_STREAM_STATS
     <? wrap64u (now - _lastSendAudioStreamStatsTime)
  then (now, true) else (_lastSendAudioStreamStatsTime, false).

(** The frames of a run, each with the value [usecTimestampNow] returns. *)
Fixpoint audioStreamStatsRun (_lastSendAudioStreamStatsTime : Z) (nows : list Z)
  : list bool :=
  match nows with
  | [] => []
  | now :: rest =>
      let '(last, sendAudioStreamStats) :=
        audioStreamStatsFrame _lastSendAudioStreamStatsTime now in
      sendAudioStreamStats :: audioStreamStatsRun last rest
  end.

(** A clock that does not go back, from the time of the constructor on. *)
Definition clockFrom (start : Z) (nows : list Z) : Prop :=
  0 <= start
  /\ (forall k t, nows !! k = Some t -> start <= t < 2 ^ 64)
  /\ (forall k k' t t', (k <= k')%nat -> nows !! k = Some t -> nows !! k' = Some t' ->
                        t <= t').

(** ** Notions used in the statements *)

(** The output block of [_clientSamples] holds 16-bit values. *)
Definition blockOk (a : list Z) : Prop :=
  Forall is_int16 (take (Z.to_nat NETWORK_BUFFER_LENGTH_SAMPLES_STEREO) a).

(** The parameters of a mix without inter-aural cues: the attenuation is
    kept, the delay is zero and the weak channel is not scaled. *)
Definition noSpatialization (p : MixParams) : MixParams :=
  {| bearingRelativeAngleToSource := F32.zero;
     attenuationCoefficient := attenuationCoefficient p;
     numSamplesDelay := 0;
     weakChannelAmplitudeRatio := F32.one;
     shouldAttenuate := shouldAttenuate p |}.

(** The attenuation a source enters lines 132-191 with. *)
Definition baseAttenuation (b : PositionalAudioRingBuffer) : float :=
  match getType b with
  | Injector => F32.mul F32.one (getAttenuationRatio b)
  | Microphone => F32.one
  end.


(** A point source: a microphone, or an injector of radius zero. *)
Definition pointSource (b : PositionalAudioRingBuffer) : bool :=
  match getType b with
  | Injector => F32.eq (getRadius b) F32.zero
  | Microphone => true
  end.

(** The sample [n - i] places before the next output in circular order. *)
Definition precedingSample (b : PositionalAudioRingBuffer) (n i : Z) : Z :=
  rd (buffer b) ((nextOutput b - n + i) mod getSampleCapacity b).

(** The same source with other samples in its ring buffer. *)
Definition withSamples (samples : list Z) (b : PositionalAudioRingBuffer)
  : PositionalAudioRingBuffer :=
  {| addr := addr b; getType := getType b; getPosition := getPosition b;
     getOrientation := getOrientation b; isStereo := isStereo b;
     shouldLoopbackForNode := shouldLoopbackForNode b;
     willBeAddedToMix := willBeAddedToMix b;
     getNextOutputTrailingLoudness := getNextOutputTrailingLoudness b;
     getListenerUnattenuatedZone := getListenerUnattenuatedZone b;
     getRadius := getRadius b; getAttenuationRatio := getAttenuationRatio b;
     buffer := samples; getSampleCapacity := getSampleCapacity b;
     nextOutput := nextOutput b |}.

(** A second run of the registry: the sources of [node] that do not loop
    back hold the samples [other] assigns them; nothing else differs. *)
Definition varyBuffer (other : PositionalAudioRingBuffer -> list Z)
    (b : PositionalAudioRingBuffer) : PositionalAudioRingBuffer :=
  if shouldLoopbackForNode b then b else withSamples (other b) b.

Definition varySelf (node : Node) (other : PositionalAudioRingBuffer -> list Z)
    (n : Node) : Node :=
  if Nat.eqb (uuid n) (uuid node) then
    {| uuid := uuid n; nodeType := nodeType n; getActiveSocket := getActiveSocket n;
       getLinkedData :=
         match getLinkedData n with
         | Some data =>
             Some (Build_AudioMixerClientData
                     (List.map (varyBuffer other) (getRingBuffers data)))
         | None => None
         end |}
  else n.

(** Lines 549-554: the trailing sleep ratio a frame computes. *)
Definition trailingAfter (t : Throttle) (usecToSleep : Z) : float :=
  let usecToSleep := if usecToSleep <? 0 then 0 else usecToSleep in
  F32.add (F32.mul PREVIOUS_FRAMES_RATIO (_trailingSleepRatio t))
          (F32.div (F32.mul (F32.of_int usecToSleep) CURRENT_FRAME_RATIO)
                   (F32.of_int BUFFER_SEND_INTERVAL_USECS)).

(** A mixer that has slept a twentieth of its recent frames. *)
Definition strugglingThrottle : Throttle :=
  {| _trailingSleepRatio := F32.lit 5 100;
     _minAudibilityThreshold := thresholdFor F32.zero;
     _performanceThrottlingRatio := F32.zero;
     framesSinceCutoffEvent := TRAILING_AVERAGE_FRAMES |}.

(** A record that stands for [M] shifted right by [k] bits: the mantissa is
    the quotient, and a set round or sticky bit tells of a lost bit. *)
Definition shifted (M k : Z) (x : shr_record) : Prop :=
  0 <= shr_m x /\ shr_m x = M / 2 ^ k
  /\ (shr_r x || shr_s x = true -> M mod 2 ^ k <> 0).

(** A float of sign [s] (or a zero) whose magnitude is at most the integer
    [X]; the magnitude [m * 2 ^ e] is compared in units of [2 ^ - K]. *)
Definition atMost (s : bool) (X : Z) (x : spec_float) : Prop :=
  match x with
  | S754_zero _ => True
  | S754_finite s' m e =>
      s' = s /\ exists K, 0 <= K /\ 0 <= e + K /\ Zpos m * 2 ^ (e + K) <= X * 2 ^ K
  | _ => False
  end.

(** A gain between 0 and 1. *)
Definition unitGain (a : float) : Prop := atMost false 1 a.

(** The sample the loop of lines 330-353 leaves at index [j] of the output
    block, where [old] was there before. *)
Definition mixedSample (b : PositionalAudioRingBuffer) (p : MixParams) (old j : Z) : Z :=
  glm_clamp
    (wrap32 (old + cvttss2si
                     (F32.mul
                        (F32.of_int
                           (deref b (nextOutput b) (j / (if isStereo b then 1 else 2))))
                        (if shouldAttenuate p then attenuationCoefficient p else F32.one))))
    MIN_SAMPLE_VALUE MAX_SAMPLE_VALUE.

(** Mono sample [k] of the frame at the attenuation of the source
    ([correctSample] of lines 215-221). *)
Definition correctSample (b : PositionalAudioRingBuffer) (p : MixParams) (k : Z) : Z :=
  scaled (deref b (nextOutput b) k) (attenuationCoefficient p).

(** The sample lines 198-327 leave at index [j] of [_clientSamples], where
    [old] was there before: on the delayed channel the samples before the
    frame (lines 249-327) and then the frame, [numSamplesDelay] slots later
    and scaled again by the weak-channel ratio; on the other channel the
    frame. *)
Definition spatializedSample (b : PositionalAudioRingBuffer) (p : MixParams)
    (old j : Z) : Z :=
  let delay := numSamplesDelay p in
  if j mod 2 =? delayedChannelOffset p then
    if j / 2 <? delay then sat16 (old + delaySample b p (j / 2))
    else if j / 2 <? NETWORK_BUFFER_LENGTH_SAMPLES_STEREO / 2 + delay then
      sat16 (old + scaled (correctSample b p (j / 2 - delay))
                          (weakChannelAmplitudeRatio p))
    else old
  else
    if j <? NETWORK_BUFFER_LENGTH_SAMPLES_STEREO
    then sat16 (old + correctSample b p (j / 2)) else old.

(** The frame after [n] turns of the loop of lines 213-238. *)
Definition monoLoopSample (b : PositionalAudioRingBuffer) (p : MixParams)
    (n old j : Z) : Z :=
  let delay := numSamplesDelay p in
  if (j mod 2 =? goodChannelOffset p) && (0 <=? j) && (j <? 4 * n) then
    sat16 (old + correctSample b p (j / 2))
  else if (j mod 2 =? delayedChannelOffset p)
          && (2 * delay <=? j) && (j <? 4 * n + 2 * delay) then
    sat16 (old + scaled (correctSample b p (j / 2 - delay))
                        (weakChannelAmplitudeRatio p))
  else old.

(** Two states of [_clientSamples] of one length that agree on the output
    block. *)
Definition sameBlock (a1 a2 : list Z) : Prop :=
  length a1 = length a2
  /\ forall j, j < NETWORK_BUFFER_LENGTH_SAMPLES_STEREO -> rd a1 j = rd a2 j.

(** What a source adds to slot [j] of [_clientSamples] before saturation:
    the operand of the saturating addition of lines 228-237 and 262-326, and
    of the clamped sum of lines 338-353; zero where no line writes. *)
Definition contribution (b : PositionalAudioRingBuffer) (p : MixParams) (j : Z) : Z :=
  if negb (isStereo b) && shouldAttenuate p then
    let delay := numSamplesDelay p in
    if j mod 2 =? delayedChannelOffset p then
      if j / 2 <? delay then delaySample b p (j / 2)
      else if j / 2 <? NETWORK_BUFFER_LENGTH_SAMPLES_STEREO / 2 + delay then
        scaled (correctSample b p (j / 2 - delay)) (weakChannelAmplitudeRatio p)
      else 0
    else
      if j <? NETWORK_BUFFER_LENGTH_SAMPLES_STEREO then correctSample b p (j / 2) else 0
  else
    if j <? NETWORK_BUFFER_LENGTH_SAMPLES_STEREO then
      cvttss2si
        (F32.mul (F32.of_int (deref b (nextOutput b) (j / (if isStereo b then 1 else 2))))
                 (if shouldAttenuate p then attenuationCoefficient p else F32.one))
    else 0.

(** The slots a source writes are slots of the array. *)
Definition fitsClientSamples (p : MixParams) (a : list Z) : Prop :=
  0 <= numSamplesDelay p
  /\ NETWORK_BUFFER_LENGTH_SAMPLES_STEREO + 2 * numSamplesDelay p <= Z.of_nat (length a).


(** A listener 2^-24 behind a source at the origin, closer than EPSILON,
    and libm at the arguments the spatializer has there: the logarithm of
    the squared distance 2^-48 and the power 0.3^x of line 168, rounded to
    binary32; elsewhere as [Reference]. *)
Module Nearby.

Definition behind : vec3 :=
  Build_vec3 F32.zero F32.zero (S754_finite false 8388608 (-47)).

Definition squaredDistance : float := S754_finite false 8388608 (-71).
Definition exponent : float := S754_finite true 9518605 (-19).

Definition logf (x : float) : float :=
  if F32.eq x squaredDistance then S754_finite true 8721810 (-18)
  else Reference.logf x.

Definition powf (x y : float) : float :=
  if F32.eq x GEOMETRIC_AMPLITUDE_SCALAR && F32.eq y exponent
  then S754_finite false 12155681 8
  else Reference.powf x y.

Definition external : External :=
  Build_External logf powf Reference.sinf Reference.glm_normalize Reference.glm_angle
                 Reference.glm_orientedAngle Reference.glm_inverse Reference.glm_rotate
                 Reference.AABox_contains.

Definition listener : PositionalAudioRingBuffer :=
  Scenario.microphone 0 behind F32.one 1000.


End Nearby.

(** Modelled from the spec: [AudioRingBuffer.cpp] is not among the sources.
    The read position of a ring buffer moves by whole frames ([advance]
    "advances read cursor by one frame"), so that the next output of a mono
    buffer starts a whole number of frames, 240 samples each, into the
    array, and the array holds at least one frame. *)
Definition NETWORK_BUFFER_LENGTH_SAMPLES_PER_CHANNEL : Z :=
  NETWORK_BUFFER_LENGTH_SAMPLES_STEREO / 2.

Definition frameAligned (b : PositionalAudioRingBuffer) : Prop :=
  0 <= nextOutput b < getSampleCapacity b
  /\ nextOutput b mod NETWORK_BUFFER_LENGTH_SAMPLES_PER_CHANNEL = 0
  /\ NETWORK_BUFFER_LENGTH_SAMPLES_PER_CHANNEL <= getSampleCapacity b.

(** A mono ring buffer of ten frames that holds the samples 0, 1, ...,
    2399, about to output its first frame. *)
Definition rampRing : PositionalAudioRingBuffer :=
  withSamples (List.map Z.of_nat (List.seq 0 2400))
              (Scenario.microphone 9 Scenario.origin F32.one 0).

(** * Properties *)

(** ** Range of the samples *)

Lemma sat16_int16 z : is_int16 (sat16 z).
Proof.
  unfold sat16, is_int16, INT16_MIN, INT16_MAX.
  destruct (Z.ltb_spec z (-32768)); [lia|].
  destruct (Z.ltb_spec 32767 z); lia.
Qed.

Lemma wrap16_int16 z : is_int16 (wrap16 z).
Proof.
  unfold wrap16, is_int16, INT16_MIN, INT16_MAX.
  pose proof (Z.mod_pos_bound (z + 32768) 65536). lia.
Qed.

Lemma wrap16_id z : is_int16 z -> wrap16 z = z.
Proof.
  unfold wrap16, is_int16, INT16_MIN, INT16_MAX. intros H.
  rewrite Z.mod_small; lia.
Qed.

Lemma wrap32_small z : INT32_MIN <= z <= INT32_MAX -> wrap32 z = z.
Proof.
  unfold wrap32, INT32_MIN, INT32_MAX. intros H. rewrite Z.mod_small; lia.
Qed.

Lemma glm_clamp_int16 z : is_int16 (glm_clamp z MIN_SAMPLE_VALUE MAX_SAMPLE_VALUE).
Proof.
  unfold glm_clamp, is_int16, MIN_SAMPLE_VALUE, MAX_SAMPLE_VALUE, INT16_MIN, INT16_MAX. lia.
Qed.

Lemma wr_blockOk a i v : blockOk a -> is_int16 v -> blockOk (wr a i v).
Proof.
  unfold blockOk, wr. intros Ha Hv.
  destruct (i <? 0); [done|].
  set (n := Z.to_nat NETWORK_BUFFER_LENGTH_SAMPLES_STEREO) in *.
  destruct (decide (Z.to_nat i < n)%nat) as [Hlt|Hge].
  - rewrite take_insert_lt by done. by apply Forall_insert.
  - rewrite take_insert_ge by lia. done.
Qed.

Lemma fold_left_preserves {A B} (P : A -> Prop) (f : A -> B -> A) l a :
  (forall a b, P a -> P (f a b)) -> P a -> P (fold_left f l a).
Proof.
  intros Hf. revert a. induction l as [|b l IH]; simpl; auto.
Qed.

Lemma monoStep_blockOk b p a s : blockOk a -> blockOk (monoStep b p a s).
Proof.
  intros Ha. unfold monoStep, _mm_adds_pi16; simpl.
  repeat apply wr_blockOk; auto using sat16_int16.
Qed.

Lemma delayGroup_blockOk b p count a i : blockOk a -> blockOk (delayGroup b p count a i).
Proof.
  intros Ha. unfold delayGroup, _mm_adds_pi16; simpl.
  repeat match goal with
         | |- blockOk (if ?c then _ else _) => destruct c
         | |- blockOk (wr _ _ _) => apply wr_blockOk
         end; auto using sat16_int16.
Qed.

Lemma delayQuads_blockOk b p fuel a i :
  blockOk a -> blockOk (fst (delayQuads b p fuel a i)).
Proof.
  revert a i. induction fuel as [|fuel IH]; intros a i Ha; simpl; [done|].
  destruct (i + 3 <? numSamplesDelay p); [|done].
  apply IH. by apply delayGroup_blockOk.
Qed.

Lemma addDelayedSamples_blockOk b p a : blockOk a -> blockOk (addDelayedSamples b p a).
Proof.
  intros Ha. unfold addDelayedSamples.
  destruct (0 <? numSamplesDelay p); [|done].
  pose proof (delayQuads_blockOk b p (Z.to_nat (numSamplesDelay p)) a 0 Ha) as Hq.
  destruct (delayQuads b p (Z.to_nat (numSamplesDelay p)) a 0) as [a' i]; simpl in Hq.
  repeat match goal with |- blockOk (if ?c then _ else _) => destruct c end;
    auto using delayGroup_blockOk.
Qed.

Lemma stereoStep_blockOk b p a s : blockOk a -> blockOk (stereoStep b p a s).
Proof.
  intros Ha. unfold stereoStep.
  repeat apply wr_blockOk; auto using wrap16_int16.
Qed.

Lemma accumulate_blockOk b p a : blockOk a -> blockOk (accumulate b p a).
Proof.
  intros Ha. unfold accumulate.
  destruct (negb (isStereo b) && shouldAttenuate p).
  - apply addDelayedSamples_blockOk, fold_left_preserves; auto using monoStep_blockOk.
  - apply fold_left_preserves; auto using stereoStep_blockOk.
Qed.

Lemma zeroClientSamples_blockOk a : blockOk (zeroClientSamples a).
Proof.
  unfold blockOk, zeroClientSamples.
  set (n := Z.to_nat NETWORK_BUFFER_LENGTH_SAMPLES_STEREO).
  assert (Hz : Forall is_int16 (replicate (n `min` length a) 0)).
  { apply Forall_replicate. unfold is_int16, INT16_MIN, INT16_MAX. lia. }
  destruct (decide (n <= length a)%nat) as [Hle|Hgt].
  - rewrite take_app_le by (rewrite length_replicate; lia).
    by apply Forall_take.
  - rewrite drop_ge by lia. rewrite app_nil_r. by apply Forall_take.
Qed.

Section MixerRange.

Variable E : External.
Variable threshold : float.

Lemma addBuffer_blockOk b l m :
  blockOk (_clientSamples m) ->
  blockOk (_clientSamples (addBufferToMixForListeningNodeWithBuffer E threshold b l m)).
Proof.
  intros Hm. unfold addBufferToMixForListeningNodeWithBuffer.
  destruct (spatialize _ _ _ _ _ _); simpl; auto using accumulate_blockOk.
Qed.

Lemma mixNode_blockOk node nrb m other :
  blockOk (_clientSamples m) ->
  blockOk (_clientSamples (mixNode E threshold node nrb m other)).
Proof.
  intros Hm. unfold mixNode. destruct (getLinkedData other); [|done].
  apply (fold_left_preserves (fun m => blockOk (_clientSamples m))); [|done].
  intros m' b Hm'. destruct (eligible node other b); auto using addBuffer_blockOk.
Qed.

Lemma prepareMix_blockOk nodeHash node m m' :
  prepareMixForListeningNode E threshold nodeHash node m = Some m' ->
  blockOk (_clientSamples m').
Proof.
  unfold prepareMixForListeningNode.
  destruct (getLinkedData node) as [data|]; [|done].
  destruct (getAvatarAudioRingBuffer data) as [nrb|]; [|done].
  intros [= <-].
  apply (fold_left_preserves (fun m => blockOk (_clientSamples m))).
  - intros. by apply mixNode_blockOk.
  - apply zeroClientSamples_blockOk.
Qed.

(** [run] calls [prepareMixForListeningNode] for listeners only, and for
    them it yields a mix. *)
Lemma prepareMix_listener nodeHash node m :
  isListener node = true ->
  is_Some (prepareMixForListeningNode E threshold nodeHash node m).
Proof.
  unfold isListener, prepareMixForListeningNode.
  destruct (nodeType node); [|done].
  destruct (getLinkedData node) as [data|]; [|done].
  intros [_ H]%andb_prop. apply bool_decide_eq_true in H.
  destruct H as [nrb ->]. eauto.
Qed.

(** For every listener of a frame, once the mixer has accumulated the
    eligible sources, every sample of the block sent to the listener lies
    in [-32768, 32767], whatever the attenuation factors are. *)
Theorem mixed_samples_in_range (nodeHash listeners : list Node) (m : Mix) :
  Forall (fun packet => Forall is_int16 (snd packet))
         (snd (mixListeners E threshold nodeHash listeners m)).
Proof.
  revert m. induction listeners as [|node rest IH]; intros m; simpl; [constructor|].
  destruct (isListener node); [|apply IH].
  destruct (prepareMixForListeningNode E threshold nodeHash node m) as [m'|] eqn:Hm;
    [|apply IH].
  specialize (IH m').
  destruct (mixListeners E threshold nodeHash rest m') as [m'' packets]; simpl in *.
  constructor; [|done].
  simpl. by apply (prepareMix_blockOk nodeHash node m).
Qed.

End MixerRange.

(** Two stereo injectors at full gain, every sample 30000, heard from inside
    their spheres: the sum 60000 is clamped to 32767, not wrapped. *)
Lemma loud_sources_saturate :
  snd (mixListeners Reference.external Scenario.defaultThreshold
         [Scenario.agent 0 [Scenario.insideListener];
          Scenario.agent 1 [Scenario.injector 7 true F32.one F32.one 30000;
                            Scenario.injector 8 true F32.one F32.one 30000]]
         [Scenario.agent 0 [Scenario.insideListener]] Scenario.silence)
  = [(0%nat, replicate 480 32767)].
Proof. vm_compute. reflexivity. Qed.

(** A listener one unit behind a mono microphone that faces -z: the mono
    branch adds 200 = 1000 * 0.2f to both channels, without delay. *)
Lemma mono_source_behind :
  option_map (fun m => take 4 (outputBlock m))
    (prepareMixForListeningNode Reference.external Scenario.defaultThreshold
       [Scenario.agent 0 [Scenario.microphone 0 Scenario.behind F32.one 0];
        Scenario.agent 1 [Scenario.microphone 6 Scenario.origin F32.one 1000]]
       (Scenario.agent 0 [Scenario.microphone 0 Scenario.behind F32.one 0])
       Scenario.silence)
  = Some [200; 200; 200; 200].
Proof. vm_compute. reflexivity. Qed.

(** ** Conversions under gains of at most 1

    With the attenuation factors in [0, 1] no product of a sample and a gain
    leaves the range of [int16_t]: every conversion of the accumulation is
    the exact truncation, and the 32-bit sum of the other branch does not
    wrap. *)

Lemma digits2_pos_bounds m :
  2 ^ (Zpos (digits2_pos m) - 1) <= Zpos m < 2 ^ Zpos (digits2_pos m).
Proof.
  induction m as [m IH|m IH|]; cbn [digits2_pos].
  - rewrite Pos2Z.inj_succ.
    replace (Z.succ (Z.pos (digits2_pos m)) - 1) with (Z.succ (Z.pos (digits2_pos m) - 1)) by lia.
    rewrite !Z.pow_succ_r by lia. lia.
  - rewrite Pos2Z.inj_succ.
    replace (Z.succ (Z.pos (digits2_pos m)) - 1) with (Z.succ (Z.pos (digits2_pos m) - 1)) by lia.
    rewrite !Z.pow_succ_r by lia. lia.
  - simpl. lia.
Qed.

(** What [shr_1] keeps of a non-negative mantissa. *)
Lemma shr_1_m m r s :
  0 <= m -> shr_m (shr_1 (Build_shr_record m r s)) = m / 2.
Proof.
  intros Hm. destruct m as [|[p|p|]|]; cbn [shr_1 shr_m]; try lia;
    Z.div_mod_to_equations; lia.
Qed.

Lemma shr_1_lost m r s :
  0 <= m ->
  shr_r (shr_1 (Build_shr_record m r s)) || shr_s (shr_1 (Build_shr_record m r s)) = true ->
  Z.odd m = true \/ r || s = true.
Proof.
  intros Hm. destruct m as [|[p|p|]|]; cbn [shr_1 shr_r shr_s]; try lia;
    rewrite ?orb_false_l; auto.
Qed.


Lemma shifted_shr_1 M k x :
  0 <= M -> 0 <= k -> shifted M k x -> shifted M (k + 1) (shr_1 x).
Proof.
  intros HM Hk (Hm & Hq & Hlost). destruct x as [m r s]; cbn [shr_m shr_r shr_s] in *.
  assert (H2k : 0 < 2 ^ k) by (apply Z.pow_pos_nonneg; lia).
  split; [rewrite shr_1_m by done; apply Z.div_pos; lia|].
  split.
  - rewrite shr_1_m by done. rewrite Hq, Z.pow_add_r, Z.pow_1_r by lia.
    rewrite Z.div_div by lia. reflexivity.
  - intros Hbits. apply shr_1_lost in Hbits; [|done].
    rewrite Z.pow_add_r, Z.pow_1_r by lia.
    intros Hdiv. apply Z.mod_divide in Hdiv; [|lia]. destruct Hdiv as [c Hc].
    destruct Hbits as [Hodd|Hold].
    + subst m. rewrite Hc in Hodd.
      replace (c * (2 ^ k * 2)) with ((2 * c) * 2 ^ k) in Hodd by lia.
      rewrite Z.div_mul in Hodd by lia.
      rewrite Z.odd_mul in Hodd. discriminate.
    + apply Hlost; [done|]. rewrite Hc.
      replace (c * (2 ^ k * 2)) with ((2 * c) * 2 ^ k) by lia.
      apply Z.mod_mul. lia.
Qed.

Lemma shifted_iter_pos p M k x :
  0 <= M -> 0 <= k -> shifted M k x -> shifted M (k + Zpos p) (SpecFloat.iter_pos shr_1 p x).
Proof.
  intros HM. revert k x. induction p as [p IH|p IH|]; intros k x Hk Hx; cbn [SpecFloat.iter_pos].
  - replace (k + Z.pos p~1) with (k + 1 + Z.pos p + Z.pos p) by lia.
    apply IH; [lia|]. apply IH; [lia|]. by apply shifted_shr_1.
  - replace (k + Z.pos p~0) with (k + Z.pos p + Z.pos p) by lia.
    apply IH; [lia|]. by apply IH.
  - by apply shifted_shr_1.
Qed.

Lemma shifted_start M : 0 <= M -> shifted M 0 (shr_record_of_loc M loc_Exact).
Proof.
  intros HM. unfold shifted. cbn. rewrite Z.div_1_r. repeat split; try done.
Qed.

(** [shr] by [n] bits, from an exact record. *)
Lemma shr_exact M e n :
  0 <= M ->
  let '(x, e') := shr (shr_record_of_loc M loc_Exact) e n in
  (n <= 0 /\ x = shr_record_of_loc M loc_Exact /\ e' = e)
  \/ (0 < n /\ shifted M n x /\ e' = e + n).
Proof.
  intros HM. unfold shr. destruct n as [|p|p]; [left; split; [lia|done]| |left; split; [lia|done]].
  right. split; [lia|]. split; [|done].
  apply (shifted_iter_pos p M 0); [done|lia|]. by apply shifted_start.
Qed.

Lemma round_nearest_even_le m l :
  round_nearest_even m l = m \/ (round_nearest_even m l = m + 1 /\ l <> loc_Exact).
Proof.
  destruct l as [|[]]; cbn; auto; try destruct (Z.even m); auto;
    right; (split; [done|discriminate]).
Qed.

Lemma loc_of_shr_record_exact x :
  loc_of_shr_record x <> loc_Exact -> shr_r x || shr_s x = true.
Proof. destruct x as [m [] []]; cbn; try done. Qed.

(** The shift [shr_fexp] makes never adds to the value: in units of
    [2 ^ - K], the mantissa it leaves times its exponent is at most what it
    got, and is what it got when nothing is shifted out. *)
Lemma shr_fexp_floor K M E :
  0 <= M -> 0 <= E + K ->
  let '(x, e') := shr_fexp F32.prec F32.emax M E loc_Exact in
  0 <= shr_m x /\ E <= e' /\ shr_m x * 2 ^ (e' + K) <= M * 2 ^ (E + K).
Proof.
  intros HM HE. unfold shr_fexp.
  pose proof (shr_exact M E (fexp F32.prec F32.emax (Zdigits2 M + E) - E) HM) as Hs.
  destruct (shr _ E _) as [x e'].
  destruct Hs as [(_ & -> & ->)|(Hn & (Hm & Hq & _) & ->)]; [cbn; lia|].
  split; [done|]. split; [lia|].
  set (n := fexp F32.prec F32.emax (Zdigits2 M + E) - E) in *.
  rewrite Hq. replace (E + n + K) with (n + (E + K)) by lia.
  rewrite Z.pow_add_r by lia.
  assert (0 < 2 ^ n) by (apply Z.pow_pos_nonneg; lia).
  assert (0 <= 2 ^ (E + K)) by (apply Z.pow_nonneg; lia).
  pose proof (Z.mul_div_le M (2 ^ n) ltac:(lia)). nia.
Qed.

Lemma pow2_lt_inv a b : 0 <= b -> 2 ^ a < 2 ^ b -> a < b.
Proof.
  intros Hb H. destruct (Z_lt_le_dec a b) as [|Hle]; [done|].
  pose proof (Z.pow_le_mono_r 2 b a ltac:(lia) Hle). lia.
Qed.

(** Rounding to nearest does not pass an integer below [2 ^ 24]: a product
    [M * 2 ^ E] that is at most the integer [X] rounds to a zero or to a
    finite number that is at most [X]. *)
Lemma binary_round_aux_le K s M E X :
  0 < M -> 0 <= K -> 0 <= E + K -> 0 <= X < 2 ^ 24 ->
  M * 2 ^ (E + K) <= X * 2 ^ K ->
  match binary_round_aux F32.prec F32.emax s M E loc_Exact with
  | S754_zero s' => s' = s
  | S754_finite s' m' e' =>
      s' = s /\ 0 <= e' + K /\ Zpos m' * 2 ^ (e' + K) <= X * 2 ^ K
  | _ => False
  end.
Proof.
  intros HM HK HE HX Hle. unfold binary_round_aux.
  assert (H2K : 0 < 2 ^ K) by (apply Z.pow_pos_nonneg; lia).
  assert (H2EK : 0 < 2 ^ (E + K)) by (apply Z.pow_pos_nonneg; lia).
  (* the first shift and the rounding *)
  assert (Hfirst :
    let '(x1, e1) := shr_fexp F32.prec F32.emax M E loc_Exact in
    let M1 := round_nearest_even (shr_m x1) (loc_of_shr_record x1) in
    0 <= M1 /\ E <= e1 /\ M1 * 2 ^ (e1 + K) <= X * 2 ^ K).
  { unfold shr_fexp.
    pose proof (shr_exact M E (fexp F32.prec F32.emax (Zdigits2 M + E) - E) ltac:(lia)) as Hs.
    destruct (shr _ E _) as [x1 e1].
    destruct Hs as [(_ & -> & ->)|(Hn & (Hm & Hq & Hlost) & ->)]; [cbn; lia|].
    set (n := fexp F32.prec F32.emax (Zdigits2 M + E) - E) in *.
    assert (He1 : E + n <= 0).
    { unfold n, fexp, emin, F32.prec, F32.emax.
      destruct M as [|m|m]; try lia. cbn [Zdigits2].
      pose proof (digits2_pos_bounds m) as [Hd _].
      assert (2 ^ (Z.pos (digits2_pos m) - 1 + (E + K)) < 2 ^ (24 + K)).
      { rewrite (Z.pow_add_r 2 (Z.pos (digits2_pos m) - 1) (E + K)) by lia.
        rewrite (Z.pow_add_r 2 24 K) by lia.
        apply Z.le_lt_trans with (Z.pos m * 2 ^ (E + K)); [nia|].
        apply Z.le_lt_trans with (X * 2 ^ K); [lia|nia]. }
      apply pow2_lt_inv in H; lia. }
    assert (H2n : 0 < 2 ^ n) by (apply Z.pow_pos_nonneg; lia).
    pose proof (Z.div_mod M (2 ^ n) ltac:(lia)) as Hdm.
    pose proof (Z.mod_pos_bound M (2 ^ n) H2n) as Hrho.
    assert (HU : 2 ^ (E + n + K) = 2 ^ n * 2 ^ (E + K)).
    { replace (E + n + K) with (n + (E + K)) by lia. apply Z.pow_add_r; lia. }
    destruct (round_nearest_even_le (shr_m x1) (loc_of_shr_record x1))
      as [->|[-> Hinexact]].
    - split; [done|]. split; [lia|]. rewrite Hq, HU. nia.
    - split; [lia|]. split; [lia|].
      apply loc_of_shr_record_exact, Hlost in Hinexact.
      assert (HX' : X * 2 ^ K = (X * 2 ^ (- (E + n))) * 2 ^ (E + n + K)).
      { rewrite <- Z.mul_assoc, <- Z.pow_add_r by lia. f_equal. f_equal. lia. }
      rewrite HX'. apply Z.mul_le_mono_nonneg_r; [rewrite HU; nia|].
      assert (shr_m x1 * 2 ^ (E + n + K) < (X * 2 ^ (- (E + n))) * 2 ^ (E + n + K)).
      { rewrite <- HX', Hq, HU. nia. }
      assert (0 < 2 ^ (E + n + K)) by (rewrite HU; nia).
      nia. }
  destruct (shr_fexp F32.prec F32.emax M E loc_Exact) as [x1 e1].
  cbv zeta in Hfirst. destruct Hfirst as (HM1 & He1 & HM1le).
  set (M1 := round_nearest_even (shr_m x1) (loc_of_shr_record x1)) in *.
  pose proof (shr_fexp_floor K M1 e1 HM1 ltac:(lia)) as Hsecond.
  destruct (shr_fexp F32.prec F32.emax M1 e1 loc_Exact) as [x2 e2].
  destruct Hsecond as (Hm2 & He2 & Hm2le).
  destruct (shr_m x2) as [|m2|m2]; [done| |lia].
  assert (Hfit : e2 <= F32.emax - F32.prec).
  { assert (2 ^ (e2 + K) < 2 ^ (24 + K)).
    { rewrite (Z.pow_add_r 2 24 K) by lia.
      assert (0 < 2 ^ (e2 + K)) by (apply Z.pow_pos_nonneg; lia). nia. }
    apply pow2_lt_inv in H; unfold F32.emax, F32.prec; lia. }
  apply Z.leb_le in Hfit. rewrite Hfit. split; [done|]. split; lia.
Qed.



Lemma binary_round_aux_atMost K s M E X :
  0 < M -> 0 <= K -> 0 <= E + K -> 0 <= X < 2 ^ 24 ->
  M * 2 ^ (E + K) <= X * 2 ^ K ->
  atMost s X (binary_round_aux F32.prec F32.emax s M E loc_Exact).
Proof.
  intros HM HK HE HX Hle.
  pose proof (binary_round_aux_le K s M E X HM HK HE HX Hle) as H.
  destruct (binary_round_aux F32.prec F32.emax s M E loc_Exact); try done.
  destruct H as (-> & He & Hm). split; [done|]. by exists K.
Qed.

Lemma Pos_iter_xO m d : Zpos (Pos.iter xO m d) = Zpos m * 2 ^ Zpos d.
Proof.
  induction d as [|d IH] using Pos.peano_ind.
  - cbn. lia.
  - rewrite Pos.iter_succ, Pos2Z.inj_xO, IH, Pos2Z.inj_succ, Z.pow_succ_r by lia. lia.
Qed.

(** An integer below [2 ^ 24] converts to a float of its sign and of at
    most its magnitude. *)
Lemma of_int_atMost x :
  Z.abs x < 2 ^ 24 ->
  atMost (x <? 0) (Z.abs x) (binary_normalize F32.prec F32.emax x 0 false).
Proof.
  intros Hx. destruct x as [|p|p]; cbn [binary_normalize]; [done| |].
  all: unfold binary_round, shl_align.
  all: set (e := fexp F32.prec F32.emax (Z.pos (digits2_pos p) + 0)).
  all: assert (He : -149 <= e) by (unfold e, fexp, emin, F32.prec, F32.emax; lia).
  all: destruct (e - 0) as [|d|d] eqn:Hd.
  all: try (apply (binary_round_aux_atMost 0); cbn [Z.abs] in *; lia).
  all: apply (binary_round_aux_atMost 149); try (cbn [Z.abs] in *; lia).
  all: rewrite Pos_iter_xO; cbn [Z.abs].
  all: rewrite <- Z.mul_assoc, <- Z.pow_add_r by lia.
  all: replace (Z.pos d + (e + 149)) with 149 by lia; lia.
Qed.

(** Scaling by a gain of at most 1 does not grow the magnitude. *)
Lemma mul_atMost s X x a :
  0 <= X < 2 ^ 24 -> atMost s X x -> atMost false 1 a ->
  atMost s X (SFmul F32.prec F32.emax x a).
Proof.
  intros HX Hx Ha.
  destruct x as [sx| | |sx mx ex], a as [sa| | |sa ma ea]; try done.
  destruct Hx as (-> & Kx & HKx & Hex & Hmx), Ha as (-> & Ka & HKa & Hea & Hma).
  cbn [SFmul]. rewrite xorb_false_r.
  apply (binary_round_aux_atMost (Kx + Ka)); try lia.
  rewrite Pos2Z.inj_mul.
  replace (ex + ea + (Kx + Ka)) with ((ex + Kx) + (ea + Ka)) by lia.
  rewrite (Z.pow_add_r 2 (ex + Kx) (ea + Ka)), (Z.pow_add_r 2 Kx Ka) by lia.
  assert (0 < 2 ^ (ex + Kx)) by (apply Z.pow_pos_nonneg; lia).
  assert (0 < 2 ^ (ea + Ka)) by (apply Z.pow_pos_nonneg; lia).
  rewrite Z.mul_1_l in Hma.
  replace (Z.pos mx * Z.pos ma * (2 ^ (ex + Kx) * 2 ^ (ea + Ka)))
    with ((Z.pos mx * 2 ^ (ex + Kx)) * (Z.pos ma * 2 ^ (ea + Ka))) by lia.
  rewrite (Z.mul_assoc X). apply Z.mul_le_mono_nonneg; lia.
Qed.

(** The integer part of a float of magnitude at most [X]. *)
Lemma trunc_atMost s X x :
  0 <= X -> atMost s X x ->
  exists z, F32.trunc x = Some z /\ Z.abs z <= X /\ (if s then z <= 0 else 0 <= z).
Proof.
  intros HX Hx. destruct x as [sx| | |sx m e]; try done.
  - exists 0. split; [done|]. destruct s; cbn; lia.
  - destruct Hx as (-> & K & HK & He & Hm). cbn [F32.trunc].
    set (a := if 0 <=? e then Z.shiftl (Z.pos m) e else Z.shiftr (Z.pos m) (- e)).
    assert (Ha : 0 <= a <= X).
    { unfold a. destruct (Z.leb_spec 0 e) as [Hpos|Hneg].
      - rewrite Z.shiftl_mul_pow2 by lia.
        rewrite Z.pow_add_r in Hm by lia.
        assert (0 < 2 ^ K) by (apply Z.pow_pos_nonneg; lia).
        assert (0 < 2 ^ e) by (apply Z.pow_pos_nonneg; lia). nia.
      - rewrite Z.shiftr_div_pow2 by lia.
        assert (0 < 2 ^ (- e)) by (apply Z.pow_pos_nonneg; lia).
        assert (0 < 2 ^ (e + K)) by (apply Z.pow_pos_nonneg; lia).
        assert (HK' : 2 ^ K = 2 ^ (- e) * 2 ^ (e + K)).
        { rewrite <- Z.pow_add_r by lia. f_equal. lia. }
        split; [apply Z.div_pos; lia|].
        apply Z.div_le_upper_bound; [lia|]. rewrite HK' in Hm. nia. }
    exists (if s then - a else a). split; [done|]. destruct s; lia.
Qed.

Lemma cvttss2si_atMost s X x :
  0 <= X <= 32768 -> atMost s X x ->
  Z.abs (cvttss2si x) <= X /\ (if s then cvttss2si x <= 0 else 0 <= cvttss2si x).
Proof.
  intros HX Hx. destruct (trunc_atMost s X x ltac:(lia) Hx) as (z & Hz & Habs & Hsign).
  unfold cvttss2si. rewrite Hz.
  assert (Hrange : (INT32_MIN <=? z) && (z <=? INT32_MAX) = true).
  { apply andb_true_intro. unfold INT32_MIN, INT32_MAX. split; apply Z.leb_le; lia. }
  by rewrite Hrange.
Qed.

(** A sample scaled by a unit gain: the conversion to [int16_t] is the
    exact truncation of the product, of the sample's sign and of at most its
    magnitude. *)
Lemma scaled_exact x a :
  is_int16 x -> unitGain a ->
  scaled x a = cvttss2si (F32.mul (F32.of_int x) a)
  /\ is_int16 (cvttss2si (F32.mul (F32.of_int x) a))
  /\ Z.abs (scaled x a) <= Z.abs x
  /\ (0 <= x -> 0 <= scaled x a) /\ (x <= 0 -> scaled x a <= 0).
Proof.
  unfold is_int16, INT16_MIN, INT16_MAX. intros Hx Ha.
  assert (Hof : atMost (x <? 0) (Z.abs x) (F32.of_int x)) by (apply of_int_atMost; lia).
  pose proof (mul_atMost (x <? 0) (Z.abs x) (F32.of_int x) a ltac:(lia) Hof Ha) as Hmul.
  apply cvttss2si_atMost in Hmul; [|lia]. fold (F32.mul (F32.of_int x) a) in Hmul.
  destruct Hmul as [Habs Hsign].
  assert (Hint : is_int16 (cvttss2si (F32.mul (F32.of_int x) a))).
  { unfold is_int16, INT16_MIN, INT16_MAX.
    destruct (Z.ltb_spec x 0); lia. }
  unfold scaled, to_int16. rewrite (wrap16_id _ Hint).
  split; [done|]. split; [done|]. split; [done|].
  destruct (Z.ltb_spec x 0); lia.
Qed.

Lemma unitGain_mul a w : unitGain a -> unitGain w -> unitGain (F32.mul a w).
Proof. intros Ha Hw. apply (mul_atMost false 1 a w); [lia | done | done]. Qed.

(** A binary32 value between 0 and 1, as the comparisons of C++ see it,
    is a unit gain. *)
Lemma unitGain_of_bounds a :
  valid_binary F32.prec F32.emax a = true ->
  F32.le F32.zero a = true -> F32.le a F32.one = true -> unitGain a.
Proof.
  destruct a as [s|[]| |[] m e]; intros Hvalid H0 H1; try done.
  cbn [valid_binary] in Hvalid. unfold bounded, canonical_mantissa in Hvalid.
  apply andb_prop in Hvalid as [Hcanon _]. apply Z.eqb_eq in Hcanon.
  unfold fexp, emin, F32.prec, F32.emax in Hcanon.
  pose proof (digits2_pos_bounds m) as [_ Hm].
  assert (Hdigits : Z.pos (digits2_pos m) <= 24) by lia.
  assert (Hm24 : Z.pos m < 2 ^ 24).
  { eapply Z.lt_le_trans; [exact Hm|]. apply Z.pow_le_mono_r; lia. }
  unfold F32.le, SFleb, SFcompare, F32.one in H1.
  split; [done|].
  destruct (Z.compare_spec e (-23)) as [->|Hlt|Hgt]; [| |discriminate].
  - exists 23. split; [lia|]. split; [lia|].
    change (2 ^ (-23 + 23)) with 1. change (2 ^ 23) with 8388608.
    assert (Hle : (m <= 8388608)%positive).
    { unfold Pos.le, Pos.compare. intros Hgt. rewrite Hgt in H1. discriminate. }
    clear - Hle. apply Pos2Z.pos_le_pos in Hle. rewrite Z.mul_1_r, Z.mul_1_l. exact Hle.
  - exists 149. split; [lia|]. split; [lia|].
    assert (Hpow : 2 ^ (e + 149) <= 2 ^ 125) by (apply Z.pow_le_mono_r; lia).
    assert (0 < 2 ^ (e + 149)) by (apply Z.pow_pos_nonneg; lia).
    assert (H149 : 2 ^ 149 = 2 ^ 24 * 2 ^ 125) by (rewrite <- Z.pow_add_r; [f_equal|..]; lia).
    rewrite Z.mul_1_l, H149.
    apply Z.mul_le_mono_nonneg; lia.
Qed.

(** X12.  The accumulation under gains of [0, 1]: the products the mono
    branch adds are exact truncations within [int16_t], for the good channel,
    the weak channel and the delayed samples, and the 32-bit sum of the
    other branch is the sum of integers. *)
Lemma conversions_exact_under_unit_gains sample old attenuation weak :
  is_int16 sample -> is_int16 old -> unitGain attenuation -> unitGain weak ->
  is_int16 (scaled sample attenuation)
  /\ is_int16 (scaled (scaled sample attenuation) weak)
  /\ is_int16 (scaled sample (F32.mul attenuation weak))
  /\ scaled sample attenuation
     = cvttss2si (F32.mul (F32.of_int sample) attenuation)
  /\ wrap32 (old + cvttss2si (F32.mul (F32.of_int sample) attenuation))
     = old + cvttss2si (F32.mul (F32.of_int sample) attenuation).
Proof.
  intros Hs Hold Ha Hw.
  destruct (scaled_exact sample attenuation Hs Ha) as (Heq & Hint & _).
  assert (Hc : is_int16 (scaled sample attenuation)) by (by rewrite Heq).
  destruct (scaled_exact _ weak Hc Hw) as (Heq' & Hint' & _).
  destruct (scaled_exact sample _ Hs (unitGain_mul _ _ Ha Hw)) as (Heq'' & Hint'' & _).
  split; [done|]. split; [by rewrite Heq'|]. split; [by rewrite Heq''|].
  split; [done|].
  apply wrap32_small. unfold is_int16, INT16_MIN, INT16_MAX, INT32_MIN, INT32_MAX in *.
  lia.
Qed.

(** ** The audibility gate *)

(** C2. A source that is not the listener's own buffer and whose trailing
    loudness divided by the distance to the listener (not less than EPSILON)
    is at most the audibility threshold contributes nothing to the mix: the
    samples and the count of mixes are left as they were.  Equality is on
    the skipping side. *)
Theorem inaudible_source_is_skipped (E : External) (threshold : float)
    (bufferToAdd listeningNodeBuffer : PositionalAudioRingBuffer) (m : Mix) :
  addr bufferToAdd <> addr listeningNodeBuffer ->
  F32.le (F32.div (getNextOutputTrailingLoudness bufferToAdd)
                  (distanceBetween (vsub (getPosition bufferToAdd)
                                         (getPosition listeningNodeBuffer))))
         threshold = true ->
  addBufferToMixForListeningNodeWithBuffer E threshold bufferToAdd listeningNodeBuffer m
  = m.
Proof.
  intros Hother Hquiet.
  unfold addBufferToMixForListeningNodeWithBuffer, spatialize.
  apply Nat.eqb_neq in Hother. rewrite Hother.
  unfold belowAudibility. by rewrite Hquiet.
Qed.

(** The distance gate of the spec: a source 10000 away with trailing
    loudness 0.05 meets the default threshold exactly, and is skipped. *)
Lemma inaudible_source_is_skipped_witness :
  F32.eq (F32.div (getNextOutputTrailingLoudness Scenario.farSource)
                  (distanceBetween (vsub (getPosition Scenario.farSource)
                                         (getPosition Scenario.listener))))
         Scenario.defaultThreshold = true
  /\ addBufferToMixForListeningNodeWithBuffer
       Reference.external Scenario.defaultThreshold
       Scenario.farSource Scenario.listener Scenario.silence
     = Scenario.silence.
Proof.
  split; [vm_compute; reflexivity|].
  apply inaudible_source_is_skipped; [vm_compute; lia | vm_compute; reflexivity].
Defined.

(** Twice the loudness is above the threshold, and the source is mixed. *)
Lemma audible_source_is_mixed :
  spatialize Reference.external Scenario.defaultThreshold
             (Scenario.microphone 1 (Scenario.at_x (F32.of_int 10000)) (F32.lit 10 100) 1000)
             0 Scenario.origin Scenario.identity
  <> None.
Proof. vm_compute. discriminate. Qed.

(** ** Stereo sources and loopback *)

Lemma accumulate_stereo b p a :
  isStereo b = true -> accumulate b p a = fold_left (stereoStep b p) frameOffsets a.
Proof. intros Hs. unfold accumulate. by rewrite Hs. Qed.

Lemma stereoStep_noSpatialization b p a s :
  stereoStep b (noSpatialization p) a s = stereoStep b p a s.
Proof. reflexivity. Qed.

Lemma fold_left_ext {A B} (f g : A -> B -> A) l a :
  (forall a b, f a b = g a b) -> fold_left f l a = fold_left g l a.
Proof.
  intros Hfg. revert a. induction l as [|b l IH]; intros a; simpl; [done|].
  by rewrite Hfg, IH.
Qed.

(** C3, as the code has it.  A source mixed into its own listener (the two
    buffers are one object) bypasses the gate and the spatializer: it is
    accumulated by the loop of lines 330-353 with attenuation 1, no delay
    and no weak-channel scaling, and is not counted as a mix.  A stereo
    source that is another buffer and passes the gate is accumulated by the
    same loop without delay and without weak-channel scaling, but with the
    attenuation coefficient lines 116-174 computed for it.  That
    coefficient is 1 when the listener is inside the unattenuated zone of
    the source: the spatializer then returns the parameters of the
    loopback. *)
Theorem loopback_and_stereo_bypass (E : External) (threshold : float)
    (bufferToAdd listeningNodeBuffer : PositionalAudioRingBuffer) (m : Mix) :
  (addr bufferToAdd = addr listeningNodeBuffer ->
   addBufferToMixForListeningNodeWithBuffer E threshold bufferToAdd listeningNodeBuffer m
   = {| _clientSamples :=
          fold_left (stereoStep bufferToAdd unattenuated) frameOffsets (_clientSamples m);
        _sumMixes := _sumMixes m |})
  /\ (isStereo bufferToAdd = true ->
      forall p,
        spatialize E threshold bufferToAdd (addr listeningNodeBuffer)
                   (getPosition listeningNodeBuffer)
                   (getOrientation listeningNodeBuffer) = Some p ->
        _clientSamples
          (addBufferToMixForListeningNodeWithBuffer E threshold bufferToAdd
                                                    listeningNodeBuffer m)
        = accumulate bufferToAdd (noSpatialization p) (_clientSamples m)
        /\ accumulate bufferToAdd (noSpatialization p) (_clientSamples m)
           = fold_left (stereoStep bufferToAdd p) frameOffsets (_clientSamples m))
  /\ (forall zone,
        addr bufferToAdd <> addr listeningNodeBuffer ->
        belowAudibility threshold (getNextOutputTrailingLoudness bufferToAdd)
                        (vsub (getPosition bufferToAdd) (getPosition listeningNodeBuffer))
        = false ->
        getListenerUnattenuatedZone bufferToAdd = Some zone ->
        AABox_contains E zone (getPosition listeningNodeBuffer) = true ->
        spatialize E threshold bufferToAdd (addr listeningNodeBuffer)
                   (getPosition listeningNodeBuffer)
                   (getOrientation listeningNodeBuffer) = Some unattenuated
        /\ _clientSamples
             (addBufferToMixForListeningNodeWithBuffer E threshold bufferToAdd
                                                       listeningNodeBuffer m)
           = fold_left (stereoStep bufferToAdd unattenuated) frameOffsets
                       (_clientSamples m)).
Proof.
  split; [|split].
  - intros Hself. unfold addBufferToMixForListeningNodeWithBuffer, spatialize.
    apply Nat.eqb_eq in Hself. rewrite Hself.
    unfold accumulate. cbn [shouldAttenuate unattenuated]. by rewrite andb_false_r.
  - intros Hstereo p Hp. unfold addBufferToMixForListeningNodeWithBuffer.
    rewrite Hp. cbn [_clientSamples]. rewrite !accumulate_stereo by done.
    split; apply fold_left_ext; intros; by rewrite stereoStep_noSpatialization.
  - intros zone Hother Hheard Hzone Hinside.
    apply Nat.eqb_neq in Hother.
    assert (Hp : spatialize E threshold bufferToAdd (addr listeningNodeBuffer)
                   (getPosition listeningNodeBuffer)
                   (getOrientation listeningNodeBuffer) = Some unattenuated).
    { unfold spatialize. by rewrite Hother, Hheard, Hzone, Hinside. }
    split; [exact Hp|].
    unfold addBufferToMixForListeningNodeWithBuffer. rewrite Hp.
    cbn [_clientSamples]. unfold accumulate.
    cbn [shouldAttenuate unattenuated]. by rewrite andb_false_r.
Qed.

(** A listener hears its own buffer at full gain, and a stereo injector at
    the gain of its attenuation ratio. *)
Lemma loopback_and_stereo_bypass_witness :
  take 4 (_clientSamples
            (addBufferToMixForListeningNodeWithBuffer
               Reference.external Scenario.defaultThreshold
               Scenario.listener Scenario.listener Scenario.silence))
  = [1000; 1000; 1000; 1000]
  /\ take 4 (_clientSamples
               (addBufferToMixForListeningNodeWithBuffer
                  Reference.external Scenario.defaultThreshold
                  Scenario.stereoInjector Scenario.insideListener Scenario.silence))
     = [500; 500; 500; 500].
Proof.
  pose proof (loopback_and_stereo_bypass
                Reference.external Scenario.defaultThreshold
                Scenario.listener Scenario.listener Scenario.silence) as [Hself _].
  pose proof (loopback_and_stereo_bypass
                Reference.external Scenario.defaultThreshold
                Scenario.stereoInjector Scenario.insideListener Scenario.silence)
    as [_ [Hstereo _]].
  split.
  - rewrite (Hself eq_refl). vm_compute. reflexivity.
  - destruct (Hstereo eq_refl
                (Build_MixParams F32.zero F32.half 0 F32.one true) eq_refl) as [-> _].
    vm_compute. reflexivity.
Defined.

(** C3 as stated fails: a stereo spherical injector of attenuation ratio
    0.5 that passes the gate is accumulated at half gain, whatever libm and
    glm compute, and not at the gain 1 of the bypass. *)
Lemma stereo_source_is_attenuated :
  isStereo Scenario.stereoInjector = true
  /\ forall E : External,
       spatialize E Scenario.defaultThreshold Scenario.stereoInjector
                  (addr Scenario.insideListener) (getPosition Scenario.insideListener)
                  (getOrientation Scenario.insideListener)
       = Some (Build_MixParams F32.zero F32.half 0 F32.one true)
       /\ take 4 (_clientSamples
                    (addBufferToMixForListeningNodeWithBuffer
                       E Scenario.defaultThreshold
                       Scenario.stereoInjector Scenario.insideListener Scenario.silence))
          = [500; 500; 500; 500]
       /\ take 4 (accumulate Scenario.stereoInjector unattenuated
                             (_clientSamples Scenario.silence))
          = [1000; 1000; 1000; 1000]
       /\ _clientSamples
            (addBufferToMixForListeningNodeWithBuffer
               E Scenario.defaultThreshold
               Scenario.stereoInjector Scenario.insideListener Scenario.silence)
          <> accumulate Scenario.stereoInjector unattenuated
                        (_clientSamples Scenario.silence).
Proof.
  split; [reflexivity|]. intros E.
  assert (Hp : spatialize E Scenario.defaultThreshold Scenario.stereoInjector
                  (addr Scenario.insideListener) (getPosition Scenario.insideListener)
                  (getOrientation Scenario.insideListener)
               = Some (Build_MixParams F32.zero F32.half 0 F32.one true))
    by (vm_compute; reflexivity).
  assert (Hhalf : take 4 (_clientSamples
                    (addBufferToMixForListeningNodeWithBuffer
                       E Scenario.defaultThreshold
                       Scenario.stereoInjector Scenario.insideListener Scenario.silence))
                  = [500; 500; 500; 500]).
  { unfold addBufferToMixForListeningNodeWithBuffer. rewrite Hp.
    vm_compute. reflexivity. }
  split; [exact Hp|]. split; [exact Hhalf|]. split; [vm_compute; reflexivity|].
  intros Heq. apply (f_equal (take 4)) in Heq. rewrite Hhalf in Heq.
  vm_compute in Heq. discriminate.
Qed.

(** ** Off-axis attenuation *)

Lemma eq_zero_not_gt (r : float) : F32.eq r F32.zero = true -> F32.gt r F32.zero = false.
Proof. intros H. destruct r as [[]|[]| |[] m e]; try discriminate H; reflexivity. Qed.

(** The attenuation of a point source: its base attenuation, times the
    off-axis coefficient, times the distance coefficient. *)
Lemma attenuation_of_point_source E b lo rel :
  pointSource b = true ->
  attenuationCoefficient (attenuateAndSpatialize E b lo rel)
  = F32.mul (F32.mul (baseAttenuation b)
                     (offAxisCoefficient (angleOfDelivery E (getOrientation b) rel)))
            (distanceCoefficient E (glm_dot rel rel)).
Proof.
  unfold pointSource, baseAttenuation, attenuateAndSpatialize.
  destruct (getType b); [intros _; reflexivity|].
  intros Hr. rewrite Hr, (eq_zero_not_gt _ Hr). reflexivity.
Qed.

(** C4, as the code has it.  For a point source (a microphone, or an
    injector of radius 0) that is attenuated, the attenuation is multiplied
    by MAX_OFF_AXIS + ((1 - MAX_OFF_AXIS) / 2) * (theta / (pi/2)) with
    MAX_OFF_AXIS = 0.2, where theta is the angle [glm::angle] returns
    between (0, 0, -1) and the vector from the listener to the source turned
    by the inverse of the source's orientation.  The coefficient is 0.2 at
    theta = 0, 0.6 at theta = pi/2 and 1 at theta = pi. *)
Theorem off_axis_attenuation (E : External) (bufferToAdd : PositionalAudioRingBuffer)
    (listenerOrientation : quat) (relativePosition : vec3) :
  pointSource bufferToAdd = true ->
  let theta := angleOfDelivery E (getOrientation bufferToAdd) relativePosition in
  attenuationCoefficient
    (attenuateAndSpatialize E bufferToAdd listenerOrientation relativePosition)
  = F32.mul (F32.mul (baseAttenuation bufferToAdd) (offAxisCoefficient theta))
            (distanceCoefficient E (glm_dot relativePosition relativePosition))
  /\ offAxisCoefficient theta
     = F32.add (F32.lit 2 10)
               (F32.mul (F32.div (F32.sub F32.one (F32.lit 2 10)) F32.two)
                        (F32.div theta PI_OVER_TWO))
  /\ offAxisCoefficient F32.zero = F32.lit 2 10
  /\ offAxisCoefficient PI_OVER_TWO = F32.lit 6 10
  /\ offAxisCoefficient PI = F32.one.
Proof.
  intros Hpoint theta. split; [by apply attenuation_of_point_source|].
  split; [reflexivity|].
  split; [|split]; vm_compute; reflexivity.
Qed.

(** A listener one unit behind a microphone that faces -z: the angle of
    delivery is 0 and the source is heard at 0.2 of its level. *)
Lemma off_axis_attenuation_witness :
  angleOfDelivery Reference.external Scenario.identity
                  (vsub Scenario.origin Scenario.behind) = F32.zero
  /\ attenuationCoefficient
       (attenuateAndSpatialize Reference.external
          (Scenario.microphone 6 Scenario.origin F32.one 1000)
          Scenario.identity (vsub Scenario.origin Scenario.behind))
     = F32.lit 2 10.
Proof.
  split; [vm_compute; reflexivity|].
  destruct (off_axis_attenuation Reference.external
              (Scenario.microphone 6 Scenario.origin F32.one 1000)
              Scenario.identity (vsub Scenario.origin Scenario.behind) eq_refl)
    as [-> _].
  vm_compute. reflexivity.
Defined.

(** C4 as stated fails: at theta = 0 the coefficient is 0.2, not 0.6, and
    at theta = pi/2 it is 0.6, not 1. *)
Lemma off_axis_is_not_0_6_at_zero :
  F32.eq (offAxisCoefficient F32.zero) (F32.lit 6 10) = false
  /\ F32.eq (offAxisCoefficient PI_OVER_TWO) F32.one = false.
Proof. split; vm_compute; reflexivity. Qed.

(** ** A source at the listener's place *)








(** ** The samples before the next output *)

(** X13.  When the next output starts the array, or lies at least the
    delay past its start, the delayed samples are the ones before it in
    circular order. *)
Lemma delay_window_when_aligned b p i :
  0 < numSamplesDelay p <= getSampleCapacity b ->
  0 <= nextOutput b < getSampleCapacity b ->
  nextOutput b = 0 \/ numSamplesDelay p <= nextOutput b ->
  0 <= i < numSamplesDelay p ->
  deref b (delayNextOutputStart b p) i = precedingSample b (numSamplesDelay p) i.
Proof.
  intros Hn Hp Haligned Hi. unfold deref, precedingSample, delayNextOutputStart.
  f_equal. destruct (Z.ltb_spec (nextOutput b - numSamplesDelay p) 0) as [Hlt|Hge].
  - assert (nextOutput b = 0) as -> by lia.
    replace (0 - numSamplesDelay p + i)
      with (getSampleCapacity b - numSamplesDelay p + i + -1 * getSampleCapacity b) by lia.
    rewrite Z.mod_add by lia. rewrite Z.mod_small; lia.
  - rewrite Z.mod_small; lia.
Qed.

(** When the next output lies between them, the last delayed sample is
    read at the end of the array, and the sample before the next output is
    another one. *)
Lemma partial_wrap_misses b p :
  0 < nextOutput b < numSamplesDelay p ->
  numSamplesDelay p <= getSampleCapacity b ->
  delayNextOutputStart b p + (numSamplesDelay p - 1) = getSampleCapacity b - 1
  /\ (nextOutput b - numSamplesDelay p + (numSamplesDelay p - 1)) mod getSampleCapacity b
     = nextOutput b - 1
  /\ getSampleCapacity b - 1 <> nextOutput b - 1.
Proof.
  intros Hp Hn. unfold delayNextOutputStart.
  destruct (Z.ltb_spec (nextOutput b - numSamplesDelay p) 0); [|lia].
  split; [lia|]. split; [|lia].
  replace (nextOutput b - numSamplesDelay p + (numSamplesDelay p - 1))
    with (nextOutput b - 1) by lia.
  apply Z.mod_small. lia.
Qed.

(** The loop of lines 260-281 runs until its condition fails: the fuel it
    is given is enough. *)
Lemma delayQuads_exits b p fuel a i :
  numSamplesDelay p - i <= Z.of_nat fuel ->
  numSamplesDelay p <= snd (delayQuads b p fuel a i) + 3.
Proof.
  revert a i. induction fuel as [|fuel IH]; intros a i Hfuel; cbn [delayQuads].
  - cbn [snd]. lia.
  - destruct (Z.ltb_spec (i + 3) (numSamplesDelay p)); [|cbn [snd]; lia].
    apply IH. lia.
Qed.

(** Lines 253-256 wrap the whole window or none of it.  At a read
    position that is not frame-aligned, which the mixer does not reach,
    fewer samples past the start of the array than the delay: in a ring of
    eight samples 10..17 with the next output at offset 1, a delay of two
    takes the samples at offsets 6 and 7 (16 and 17); the two samples before
    offset 1 in circular order are those at offsets 7 and 0 (17 and 10). *)
Theorem partial_wrap_reads_other_samples :
  delayNextOutputStart Scenario.smallRing Scenario.delayOfTwo = 6
  /\ List.map (deref Scenario.smallRing
                     (delayNextOutputStart Scenario.smallRing Scenario.delayOfTwo))
              [0; 1] = [16; 17]
  /\ List.map (precedingSample Scenario.smallRing 2) [0; 1] = [17; 10]
  /\ take 4 (addDelayedSamples Scenario.smallRing Scenario.delayOfTwo
                               (_clientSamples Scenario.silence))
     = [16; 0; 17; 0].
Proof. repeat split. Qed.

(** ** Loopback and the listener's own source *)

Lemma varyBuffer_addr g b : addr (varyBuffer g b) = addr b.
Proof. unfold varyBuffer. by destruct (shouldLoopbackForNode b). Qed.

Lemma varyBuffer_pose g b :
  getPosition (varyBuffer g b) = getPosition b
  /\ getOrientation (varyBuffer g b) = getOrientation b.
Proof. unfold varyBuffer. by destruct (shouldLoopbackForNode b). Qed.

Lemma varyBuffer_isMicrophone g b : isMicrophone (varyBuffer g b) = isMicrophone b.
Proof. unfold varyBuffer. by destruct (shouldLoopbackForNode b). Qed.

Lemma varyBuffer_loopback g b :
  shouldLoopbackForNode b = true -> varyBuffer g b = b.
Proof. unfold varyBuffer. by intros ->. Qed.

Lemma varySelf_uuid node g n : uuid (varySelf node g n) = uuid n.
Proof. unfold varySelf. by destruct (Nat.eqb _ _). Qed.

Lemma varySelf_other node g n :
  Nat.eqb (uuid n) (uuid node) = false -> varySelf node g n = n.
Proof. unfold varySelf. by intros ->. Qed.

Lemma varySelf_own node g n :
  Nat.eqb (uuid n) (uuid node) = true ->
  getLinkedData (varySelf node g n)
  = match getLinkedData n with
    | Some data =>
        Some (Build_AudioMixerClientData (List.map (varyBuffer g) (getRingBuffers data)))
    | None => None
    end.
Proof. unfold varySelf. by intros ->. Qed.

Lemma find_varyBuffer g l :
  List.find isMicrophone (List.map (varyBuffer g) l)
  = option_map (varyBuffer g) (List.find isMicrophone l).
Proof.
  induction l as [|b l IH]; simpl; [done|].
  rewrite varyBuffer_isMicrophone. by destruct (isMicrophone b).
Qed.

Section Loopback.

Variable E : External.
Variable threshold : float.

(** Of the listener's buffer the mix reads the identity and the pose, not
    the samples. *)
Lemma addBuffer_listener_samples g b l m :
  addBufferToMixForListeningNodeWithBuffer E threshold b (varyBuffer g l) m
  = addBufferToMixForListeningNodeWithBuffer E threshold b l m.
Proof.
  unfold addBufferToMixForListeningNodeWithBuffer.
  destruct (varyBuffer_pose g l) as [-> ->]. by rewrite varyBuffer_addr.
Qed.

Lemma eligible_uuid node node' other other' b :
  uuid node = uuid node' -> uuid other = uuid other' ->
  eligible node other b = eligible node' other' b.
Proof. unfold eligible. by intros -> ->. Qed.

Lemma eligible_varyBuffer node other g b :
  eligible node other (varyBuffer g b) = eligible node other b.
Proof.
  unfold eligible, varyBuffer.
  destruct (shouldLoopbackForNode b) eqn:Hloop;
    cbn [withSamples shouldLoopbackForNode willBeAddedToMix
         getNextOutputTrailingLoudness];
    by rewrite Hloop.
Qed.

Lemma eligible_own_loops_back node other b :
  uuid other = uuid node -> eligible node other b = true ->
  shouldLoopbackForNode b = true.
Proof.
  unfold eligible. intros ->. rewrite Nat.eqb_refl. simpl.
  by intros [[? _]%andb_prop _]%andb_prop.
Qed.

(** The buffers of one node, mixed for the listener [node]. *)
Lemma mixBuffers_varySelf node node' other other' g nrb bs m :
  uuid node' = uuid node -> uuid other' = uuid other ->
  uuid other = uuid node ->
  fold_left
    (fun m b =>
       if eligible node' other' b
       then addBufferToMixForListeningNodeWithBuffer E threshold b (varyBuffer g nrb) m
       else m)
    (List.map (varyBuffer g) bs) m
  = fold_left
      (fun m b =>
         if eligible node other b
         then addBufferToMixForListeningNodeWithBuffer E threshold b nrb m
         else m)
      bs m.
Proof.
  intros Hnode Hother Hsame. revert m.
  induction bs as [|b bs IH]; intros m; simpl; [done|].
  rewrite IH. f_equal.
  rewrite (eligible_uuid node' node other' other) by done.
  rewrite eligible_varyBuffer.
  destruct (eligible node other b) eqn:Hb; [|done].
  rewrite addBuffer_listener_samples.
  by rewrite varyBuffer_loopback by eauto using eligible_own_loops_back.
Qed.

Lemma mixNode_varySelf node g nrb m other :
  mixNode E threshold (varySelf node g node) (varyBuffer g nrb) m (varySelf node g other)
  = mixNode E threshold node nrb m other.
Proof.
  destruct (Nat.eqb (uuid other) (uuid node)) eqn:Hsame.
  - unfold mixNode. rewrite (varySelf_own node g other Hsame).
    apply Nat.eqb_eq in Hsame.
    destruct (getLinkedData other) as [data|]; [|done].
    cbn [getRingBuffers].
    apply mixBuffers_varySelf; [apply varySelf_uuid | apply varySelf_uuid | done].
  - rewrite (varySelf_other node g other Hsame). unfold mixNode.
    destruct (getLinkedData other) as [data|]; [|done].
    apply fold_left_ext. intros m' b.
    rewrite (eligible_uuid (varySelf node g node) node other other)
      by (try apply varySelf_uuid; done).
    by rewrite addBuffer_listener_samples.
Qed.

(** C7. The mix of a listener does not depend on the samples of its own
    sources that do not loop back: in a second run where the ring buffers of
    those sources hold any other samples, all else equal, the listener's
    mix is the same.  A source of the listener's node is mixed into it only
    when [shouldLoopbackForNode] is true. *)
Theorem own_samples_do_not_interfere (nodeHash : list Node) (node : Node) (m : Mix)
    (other : PositionalAudioRingBuffer -> list Z) :
  prepareMixForListeningNode E threshold (List.map (varySelf node other) nodeHash)
                             (varySelf node other node) m
  = prepareMixForListeningNode E threshold nodeHash node m.
Proof.
  unfold prepareMixForListeningNode.
  rewrite (varySelf_own node other node (Nat.eqb_refl _)).
  destruct (getLinkedData node) as [data|]; [|done].
  unfold getAvatarAudioRingBuffer. cbn [getRingBuffers].
  rewrite find_varyBuffer.
  destruct (List.find isMicrophone (getRingBuffers data)) as [nrb|]; [|done].
  cbn [option_map]. f_equal.
  generalize ({| _clientSamples := zeroClientSamples (_clientSamples m);
                 _sumMixes := _sumMixes m |}).
  induction nodeHash as [|n rest IH]; intros m0; simpl; [done|].
  by rewrite IH, mixNode_varySelf.
Qed.

End Loopback.

(** With loopback off, a listener alone with its own microphone hears
    silence; an injector of its own that loops back is mixed. *)
Lemma loopback_disabled_is_silence :
  option_map (outputBlock)
    (prepareMixForListeningNode Reference.external Scenario.defaultThreshold
       [Scenario.agent 0 [Scenario.listener]] (Scenario.agent 0 [Scenario.listener])
       Scenario.silence)
  = Some (replicate 480 0)
  /\ option_map (fun m => take 2 (outputBlock m))
       (prepareMixForListeningNode Reference.external Scenario.defaultThreshold
          [Scenario.agent 0 [Scenario.insideListener; Scenario.stereoInjector]]
          (Scenario.agent 0 [Scenario.insideListener; Scenario.stereoInjector])
          Scenario.silence)
     = Some [500; 500].
Proof. split; vm_compute; reflexivity. Qed.

(** ** The throttle *)

(** The four ways through lines 559-587: not evaluated, raised, lowered,
    evaluated and kept. *)
Ltac throttle_branches t :=
  unfold throttleFrame; cbv zeta;
  destruct (TRAILING_AVERAGE_FRAMES <=? framesSinceCutoffEvent t);
  [ destruct (F32.le _ STRUGGLE_TRIGGER_SLEEP_PERCENTAGE_THRESHOLD);
    [ | destruct (F32.ge _ BACK_OFF_TRIGGER_SLEEP_PERCENTAGE_THRESHOLD && _) ]
  | ].

(** An adjustment restarts the count of frames. *)
Lemma throttleFrame_adjusted t u :
  snd (throttleFrame t u) = true -> framesSinceCutoffEvent (fst (throttleFrame t u)) = 0.
Proof. throttle_branches t; first [reflexivity | discriminate]. Qed.

(** Before the hundredth frame after an adjustment nothing is evaluated. *)
Lemma throttleFrame_debounced t u :
  0 <= framesSinceCutoffEvent t < TRAILING_AVERAGE_FRAMES ->
  snd (throttleFrame t u) = false
  /\ framesSinceCutoffEvent (fst (throttleFrame t u)) = framesSinceCutoffEvent t + 1
  /\ _performanceThrottlingRatio (fst (throttleFrame t u)) = _performanceThrottlingRatio t
  /\ _minAudibilityThreshold (fst (throttleFrame t u)) = _minAudibilityThreshold t.
Proof.
  unfold throttleFrame, TRAILING_AVERAGE_FRAMES. intros H.
  destruct (Z.leb_spec 100 (framesSinceCutoffEvent t)); [lia|]. simpl.
  rewrite wrap32_small by (unfold INT32_MIN, INT32_MAX; lia). done.
Qed.

(** From a count [c] of frames, the next [100 - c] frames adjust nothing. *)
Lemma throttleRun_debounced sleeps t k :
  0 <= framesSinceCutoffEvent t ->
  (Z.of_nat k < TRAILING_AVERAGE_FRAMES - framesSinceCutoffEvent t) ->
  snd (throttleRun t sleeps) !! k <> Some true.
Proof.
  revert t k. induction sleeps as [|u rest IH]; intros t k Hc Hk; simpl; [done|].
  pose proof (throttleFrame_debounced t u) as Hd.
  destruct (throttleFrame t u) as [t' changed] eqn:Hstep. simpl in Hd.
  specialize (IH t'). destruct (throttleRun t' rest) as [t'' trace].
  cbn [fst snd] in *.
  destruct Hd as (-> & Hframes & _); [lia|].
  destruct k as [|k]; [done|].
  change ((false :: trace) !! S k) with (trace !! k).
  apply IH; lia.
Qed.

(** Two adjustments are more than a hundred frames apart. *)
Lemma adjustments_apart sleeps t i j :
  (i < j)%nat ->
  snd (throttleRun t sleeps) !! i = Some true ->
  snd (throttleRun t sleeps) !! j = Some true ->
  (100 < j - i)%nat.
Proof.
  revert t i j. induction sleeps as [|u rest IH]; intros t i j Hij; simpl; [done|].
  pose proof (throttleFrame_adjusted t u) as Ha.
  destruct (throttleFrame t u) as [t' changed] eqn:Hstep. simpl in Ha.
  pose proof (throttleRun_debounced rest t') as Hq.
  specialize (IH t'). destruct (throttleRun t' rest) as [t'' trace].
  cbn [fst snd] in *.
  destruct i as [|i], j as [|j]; try lia.
  - change ((changed :: trace) !! S j) with (trace !! j).
    intros [= ->] Hj. specialize (Ha eq_refl).
    destruct (decide (j < 100)%nat) as [Hlt|]; [|lia].
    exfalso. apply (Hq j); [lia | unfold TRAILING_AVERAGE_FRAMES; lia | done].
  - change ((changed :: trace) !! S i) with (trace !! i).
    change ((changed :: trace) !! S j) with (trace !! j).
    intros Hi Hj. specialize (IH i j ltac:(lia) Hi Hj). lia.
Qed.

Lemma throttleFrame_trailing t u :
  _trailingSleepRatio (fst (throttleFrame t u)) = trailingAfter t u.
Proof. unfold trailingAfter. throttle_branches t; reflexivity. Qed.

(** The throttling ratio a frame leaves, by the branch it takes. *)
Lemma throttleFrame_ratio t u :
  let t' := fst (throttleFrame t u) in
  _performanceThrottlingRatio t'
  = if TRAILING_AVERAGE_FRAMES <=? framesSinceCutoffEvent t then
      if F32.le (_trailingSleepRatio t') STRUGGLE_TRIGGER_SLEEP_PERCENTAGE_THRESHOLD
      then raiseRatio (_performanceThrottlingRatio t)
      else if F32.ge (_trailingSleepRatio t') BACK_OFF_TRIGGER_SLEEP_PERCENTAGE_THRESHOLD
              && F32.ne (_performanceThrottlingRatio t) F32.zero
           then lowerRatio (_performanceThrottlingRatio t)
           else _performanceThrottlingRatio t
    else _performanceThrottlingRatio t.
Proof.
  cbv zeta. rewrite throttleFrame_trailing. unfold trailingAfter.
  throttle_branches t; reflexivity.
Qed.

(** C8. At a frame where at least TRAILING_AVERAGE_FRAMES = 100 frames were
    counted since the last adjustment, a trailing sleep ratio of at most
    0.10 raises the throttling ratio to old + 0.5 * (1 - old); otherwise a
    trailing sleep ratio of at least 0.20 with a nonzero ratio lowers it to
    old - 0.02, floored at 0; otherwise, and at every other frame, the ratio
    is unchanged.  In every run of the loop two adjustments are at least 100
    frames apart. *)
Theorem throttle_state_machine (t : Throttle) (usecToSleep : Z) (sleeps : list Z) :
  let t' := fst (throttleFrame t usecToSleep) in
  let old := _performanceThrottlingRatio t in
  let trailing := _trailingSleepRatio t' in
  (TRAILING_AVERAGE_FRAMES <= framesSinceCutoffEvent t ->
   F32.le trailing (F32.lit 10 100) = true ->
   _performanceThrottlingRatio t'
   = F32.add old (F32.mul F32.half (F32.sub F32.one old)))
  /\ (TRAILING_AVERAGE_FRAMES <= framesSinceCutoffEvent t ->
      F32.le trailing (F32.lit 10 100) = false ->
      F32.ge trailing (F32.lit 20 100) = true -> F32.ne old F32.zero = true ->
      _performanceThrottlingRatio t'
      = (if F32.lt (F32.sub old (F32.lit 2 100)) F32.zero then F32.zero
         else F32.sub old (F32.lit 2 100)))
  /\ (TRAILING_AVERAGE_FRAMES <= framesSinceCutoffEvent t ->
      F32.le trailing (F32.lit 10 100) = false ->
      F32.ge trailing (F32.lit 20 100) && F32.ne old F32.zero = false ->
      _performanceThrottlingRatio t' = old)
  /\ (framesSinceCutoffEvent t < TRAILING_AVERAGE_FRAMES ->
      _performanceThrottlingRatio t' = old)
  /\ (forall i j : nat,
        (i < j)%nat ->
        snd (throttleRun t sleeps) !! i = Some true ->
        snd (throttleRun t sleeps) !! j = Some true ->
        (100 <= j - i)%nat).
Proof.
  intros t' old trailing.
  pose proof (throttleFrame_ratio t usecToSleep) as Hratio. cbv zeta in Hratio.
  fold t' in Hratio. fold trailing in Hratio. fold old in Hratio.
  change STRUGGLE_TRIGGER_SLEEP_PERCENTAGE_THRESHOLD with (F32.lit 10 100) in Hratio.
  change BACK_OFF_TRIGGER_SLEEP_PERCENTAGE_THRESHOLD with (F32.lit 20 100) in Hratio.
  split; [|split; [|split; [|split]]].
  - intros Hframes%Z.leb_le Hlow. by rewrite Hratio, Hframes, Hlow.
  - intros Hframes%Z.leb_le Hlow Hhigh Hnonzero.
    by rewrite Hratio, Hframes, Hlow, Hhigh, Hnonzero.
  - intros Hframes%Z.leb_le Hlow Hkeep. by rewrite Hratio, Hframes, Hlow, Hkeep.
  - intros Hframes%Z.leb_gt. by rewrite Hratio, Hframes.
  - intros i j Hij Hi Hj. pose proof (adjustments_apart sleeps t i j Hij Hi Hj). lia.
Qed.

(** A mixer that slept a twentieth of its frames raises the ratio from 0
    to 0.5, and from there adjusts nothing for a hundred frames. *)
Lemma throttle_state_machine_witness :
  _performanceThrottlingRatio (fst (throttleFrame strugglingThrottle 0)) = F32.half
  /\ snd (throttleRun strugglingThrottle (replicate 102 0)) !! 0%nat = Some true
  /\ snd (throttleRun strugglingThrottle (replicate 102 0)) !! 101%nat = Some true
  /\ (100 <= 101 - 0)%nat.
Proof.
  pose proof (throttle_state_machine strugglingThrottle 0 (replicate 102 0))
    as (Hraise & _ & _ & _ & Hapart).
  split; [|split; [|split]].
  - rewrite Hraise; [reflexivity | vm_compute; discriminate | reflexivity].
  - vm_compute. reflexivity.
  - vm_compute. reflexivity.
  - apply (Hapart 0%nat 101%nat); [lia | vm_compute; reflexivity ..].
Defined.


(** ** The audibility threshold *)

Lemma throttleFrame_threshold t u :
  _minAudibilityThreshold t = thresholdFor (_performanceThrottlingRatio t) ->
  _minAudibilityThreshold (fst (throttleFrame t u))
  = thresholdFor (_performanceThrottlingRatio (fst (throttleFrame t u))).
Proof. intros Hinv. throttle_branches t; first [reflexivity | exact Hinv]. Qed.

Lemma throttleFrame_adjusted_threshold t u :
  snd (throttleFrame t u) = true ->
  _minAudibilityThreshold (fst (throttleFrame t u))
  = thresholdFor (_performanceThrottlingRatio (fst (throttleFrame t u))).
Proof. throttle_branches t; first [reflexivity | discriminate]. Qed.

Lemma throttleRun_threshold sleeps t :
  _minAudibilityThreshold t = thresholdFor (_performanceThrottlingRatio t) ->
  _minAudibilityThreshold (fst (throttleRun t sleeps))
  = thresholdFor (_performanceThrottlingRatio (fst (throttleRun t sleeps))).
Proof.
  revert t. induction sleeps as [|u rest IH]; intros t Hinv; simpl; [exact Hinv|].
  pose proof (throttleFrame_threshold t u Hinv) as Hstep.
  destruct (throttleFrame t u) as [t' changed]. specialize (IH t' Hstep).
  by destruct (throttleRun t' rest).
Qed.

(** C9. In every state the loop reaches from the constructor's, the
    audibility threshold is LOUDNESS_TO_DISTANCE_RATIO / (2 * (1 - ratio))
    for the throttling ratio of that state, with LOUDNESS_TO_DISTANCE_RATIO
    the [float] 0.00001; at startup the ratio is 0 and the threshold the
    [float] 0.000005; and the frame of an adjustment leaves the threshold
    computed from the new ratio. *)
Theorem threshold_follows_ratio (sleeps : list Z) (t : Throttle) (usecToSleep : Z) :
  let reached := fst (throttleRun initialThrottle sleeps) in
  _minAudibilityThreshold reached
  = F32.div (F32.lit 1 100000)
            (F32.mul F32.two (F32.sub F32.one (_performanceThrottlingRatio reached)))
  /\ _performanceThrottlingRatio initialThrottle = F32.zero
  /\ _minAudibilityThreshold initialThrottle = F32.lit 5 1000000
  /\ (snd (throttleFrame t usecToSleep) = true ->
      _minAudibilityThreshold (fst (throttleFrame t usecToSleep))
      = F32.div (F32.lit 1 100000)
                (F32.mul F32.two
                   (F32.sub F32.one
                      (_performanceThrottlingRatio (fst (throttleFrame t usecToSleep)))))).
Proof.
  intros reached. split; [|split; [|split]].
  - apply (throttleRun_threshold sleeps initialThrottle). reflexivity.
  - reflexivity.
  - vm_compute. reflexivity.
  - apply throttleFrame_adjusted_threshold.
Qed.

(** After the first adjustment of a struggling mixer the ratio is 0.5 and
    the threshold the [float] 0.00001. *)
Lemma threshold_follows_ratio_witness :
  _minAudibilityThreshold (fst (throttleFrame strugglingThrottle 0)) = F32.lit 1 100000.
Proof.
  destruct (threshold_follows_ratio [] strugglingThrottle 0) as (_ & _ & _ & Hadjusted).
  rewrite Hadjusted; vm_compute; reflexivity.
Defined.

(** ** The throttling ratio under sustained load *)

(** Twenty-five raises take the ratio from 0 to the [float] 1: the
    twenty-fifth rounds 1 - 2^-25 to even.  There the threshold is the
    quotient by zero, plus infinity, and further raises stay at 1. *)
Lemma raiseRatio_saturates :
  Nat.iter 24 raiseRatio F32.zero = S754_finite false 16777215 (-24)
  /\ Nat.iter 25 raiseRatio F32.zero = F32.one
  /\ raiseRatio F32.one = F32.one
  /\ F32.mul F32.two (F32.sub F32.one F32.one) = F32.zero
  /\ thresholdFor F32.one = F32.pinf.
Proof. repeat split; vm_compute; reflexivity. Qed.

Lemma throttleFrame_overrun (t : Throttle) (usecToSleep : Z) :
  usecToSleep <= 0 -> throttleFrame t usecToSleep = throttleFrame t 0.
Proof.
  intros Hu. unfold throttleFrame.
  destruct (Z.ltb_spec usecToSleep 0) as [Hneg|Hpos]; [reflexivity|].
  by replace usecToSleep with 0 by lia.
Qed.

Lemma throttleRun_overrun (t : Throttle) (sleeps : list Z) :
  Forall (fun usecToSleep => usecToSleep <= 0) sleeps ->
  throttleRun t sleeps = throttleRun t (replicate (length sleeps) 0).
Proof.
  intros Hsleeps. revert t.
  induction Hsleeps as [|u rest Hu _ IH]; intros t; [reflexivity|].
  cbn [throttleRun length replicate]. rewrite (throttleFrame_overrun t u Hu).
  destruct (throttleFrame t 0) as [t' changed]. by rewrite IH.
Qed.

(** C10 fails on the code.  The first frame of [run] has the
    [usecToSleep] of line 527, BUFFER_SEND_INTERVAL_USECS.  When no later
    frame leaves time to sleep (every later [usecToSleep] is 0, or below 0,
    which line 549 makes 0), the loop adjusts at frame 230 (counting from
    0) and then every 101 frames.  After 2654 frames the ratio is
    1 - 2^-24, still below 1; the adjustment of the next frame, the 25th,
    makes it the [float] 1, outside [0, 1): the divisor 2 * (1 - ratio) is
    zero and the audibility threshold is plus infinity, below which every
    source falls. *)
Theorem throttling_ratio_reaches_one :
  let before :=
    fst (throttleRun initialThrottle (BUFFER_SEND_INTERVAL_USECS :: replicate 2653 0)) in
  let reached :=
    fst (throttleRun initialThrottle (BUFFER_SEND_INTERVAL_USECS :: replicate 2654 0)) in
  (_performanceThrottlingRatio before = S754_finite false 16777215 (-24)
   /\ F32.lt (_performanceThrottlingRatio before) F32.one = true)
  /\ _performanceThrottlingRatio reached = F32.one
  /\ F32.lt (_performanceThrottlingRatio reached) F32.one = false
  /\ F32.mul F32.two (F32.sub F32.one (_performanceThrottlingRatio reached)) = F32.zero
  /\ _minAudibilityThreshold reached = F32.pinf
  /\ length (filter (fun changed => changed = true)
                    (snd (throttleRun initialThrottle
                            (BUFFER_SEND_INTERVAL_USECS :: replicate 2654 0)))) = 25%nat
  /\ forall sleeps,
       length sleeps = 2654%nat ->
       Forall (fun usecToSleep => usecToSleep <= 0) sleeps ->
       throttleRun initialThrottle (BUFFER_SEND_INTERVAL_USECS :: sleeps)
       = throttleRun initialThrottle (BUFFER_SEND_INTERVAL_USECS :: replicate 2654 0).
Proof.
  split; [vm_compute; by split|].
  split; [vm_compute; reflexivity|].
  split; [vm_compute; reflexivity|].
  split; [vm_compute; reflexivity|].
  split; [vm_compute; reflexivity|].
  split; [vm_compute; reflexivity|].
  intros sleeps Hlen Hsleeps. cbn [throttleRun].
  destruct (throttleFrame initialThrottle BUFFER_SEND_INTERVAL_USECS) as [t changed].
  by rewrite (throttleRun_overrun t sleeps Hsleeps), Hlen.
Qed.

(** * Further properties of the mix *)

(** ** Reading after writing *)

Lemma length_wr a i v : length (wr a i v) = length a.
Proof. unfold wr. destruct (i <? 0); [done|]. apply length_insert. Qed.

Lemma rd_wr a i v j :
  rd (wr a i v) j
  = if (j =? i) && (0 <=? i) && (i <? Z.of_nat (length a)) then v else rd a j.
Proof.
  unfold rd, wr.
  destruct (Z.eqb_spec j i) as [->|Hne]; cbn [andb].
  - destruct (Z.ltb_spec i 0) as [Hneg|Hpos].
    + destruct (Z.leb_spec 0 i); [lia|done].
    + destruct (Z.leb_spec 0 i); [|lia]. cbn [andb].
      destruct (Z.ltb_spec i (Z.of_nat (length a))) as [Hin|Hout].
      * rewrite list_lookup_insert_eq by lia. done.
      * rewrite list_insert_ge by lia. done.
  - destruct (Z.ltb_spec j 0); [done|].
    destruct (Z.ltb_spec i 0); [done|].
    rewrite list_lookup_insert_ne by lia. done.
Qed.

(** A write inside the array. *)
Lemma rd_wr_in a i v j :
  0 <= i < Z.of_nat (length a) ->
  rd (wr a i v) j = if j =? i then v else rd a j.
Proof.
  intros Hi. rewrite rd_wr.
  destruct (Z.leb_spec 0 i); [|lia].
  destruct (Z.ltb_spec i (Z.of_nat (length a))); [|lia].
  by rewrite !andb_true_r.
Qed.

(** ** The loop of the branch without spatialization, sample by sample *)

Section StereoBranch.

Variable b : PositionalAudioRingBuffer.
Variable p : MixParams.

Lemma length_stereoStep a s : length (stereoStep b p a s) = length a.
Proof. unfold stereoStep. by rewrite !length_wr. Qed.

Lemma length_stereoLoop l a : length (fold_left (stereoStep b p) l a) = length a.
Proof.
  revert a. induction l as [|s l IH]; intros a; [done|].
  cbn [fold_left]. by rewrite IH, length_stereoStep.
Qed.

Lemma stereoStep_rd a q j :
  0 <= q -> 4 * q + 3 < Z.of_nat (length a) ->
  rd (stereoStep b p a (4 * q)) j
  = if (4 * q <=? j) && (j <? 4 * q + 4) then mixedSample b p (rd a j) j else rd a j.
Proof.
  intros Hq Hlen. unfold stereoStep.
  assert (Hdiv : forall k, 0 <= k < 4 ->
            4 * q / (if isStereo b then 1 else 2) + k / (if isStereo b then 1 else 2)
            = (4 * q + k) / (if isStereo b then 1 else 2)).
  { intros k Hk. destruct (isStereo b); Z.div_mod_to_equations; lia. }
  rewrite (Hdiv 0), (Hdiv 1), (Hdiv 2), (Hdiv 3) by lia.
  rewrite !wrap16_id by apply glm_clamp_int16.
  rewrite !rd_wr_in by (rewrite ?length_wr; lia).
  unfold mixedSample.
  repeat match goal with
         | |- context [Z.eqb ?x ?y] => destruct (Z.eqb_spec x y); try lia
         end;
  repeat match goal with
         | |- context [Z.leb ?x ?y] => destruct (Z.leb_spec x y); try lia
         | |- context [Z.ltb ?x ?y] => destruct (Z.ltb_spec x y); try lia
         end;
  cbn [andb]; subst; reflexivity.
Qed.

Lemma stereoLoop_rd n a j :
  4 * Z.of_nat n <= Z.of_nat (length a) ->
  rd (fold_left (stereoStep b p) (List.map (fun k => 4 * Z.of_nat k) (List.seq 0 n)) a) j
  = if (0 <=? j) && (j <? 4 * Z.of_nat n) then mixedSample b p (rd a j) j else rd a j.
Proof.
  induction n as [|n IH]; intros Hlen.
  - cbn [List.seq List.map fold_left].
    destruct (Z.leb_spec 0 j); [|done].
    destruct (Z.ltb_spec j (4 * Z.of_nat 0)); [lia|done].
  - rewrite seq_S, List.map_app, fold_left_app. cbn [List.map fold_left Nat.add].
    rewrite stereoStep_rd by (rewrite ?length_stereoLoop; lia).
    rewrite IH by lia.
    destruct (Z.leb_spec (4 * Z.of_nat n) j).
    + destruct (Z.ltb_spec j (4 * Z.of_nat n + 4)); cbn [andb].
      * destruct (Z.leb_spec 0 j); [|lia].
        destruct (Z.ltb_spec j (4 * Z.of_nat n)); [lia|].
        destruct (Z.ltb_spec j (4 * Z.of_nat (S n))); [|lia]. done.
      * destruct (Z.leb_spec 0 j); [|lia].
        destruct (Z.ltb_spec j (4 * Z.of_nat n)); [lia|].
        destruct (Z.ltb_spec j (4 * Z.of_nat (S n))); [lia|]. done.
    + cbn [andb].
      destruct (Z.leb_spec 0 j); [|done].
      destruct (Z.ltb_spec j (4 * Z.of_nat n)); [|lia].
      destruct (Z.ltb_spec j (4 * Z.of_nat (S n))); [|lia]. done.
Qed.

End StereoBranch.

(** X1.  A source mixed without spatialization (a stereo source, or any
    source the listener hears unattenuated: its own loopback, or from inside
    the source's unattenuated zone) adds to every sample [j] of the
    480-sample block the source sample [j] (stereo) or [j / 2] (mono, so
    each sample goes to both channels) times the attenuation, clamped to
    the 16-bit range; nothing after the block is written and the array
    keeps its length. *)
Theorem unspatialized_source_sample_by_sample
    (b : PositionalAudioRingBuffer) (p : MixParams) (a : list Z) (j : Z) :
  negb (isStereo b) && shouldAttenuate p = false ->
  NETWORK_BUFFER_LENGTH_SAMPLES_STEREO <= Z.of_nat (length a) ->
  length (accumulate b p a) = length a
  /\ rd (accumulate b p a) j
     = if (0 <=? j) && (j <? NETWORK_BUFFER_LENGTH_SAMPLES_STEREO)
       then mixedSample b p (rd a j) j else rd a j.
Proof.
  intros Hbranch Hlen. unfold accumulate. rewrite Hbranch.
  split; [apply length_stereoLoop|].
  unfold frameOffsets.
  change (Z.to_nat (NETWORK_BUFFER_LENGTH_SAMPLES_STEREO / 4)) with 120%nat.
  rewrite stereoLoop_rd by (unfold NETWORK_BUFFER_LENGTH_SAMPLES_STEREO in Hlen; lia).
  reflexivity.
Qed.

(** ** The spatialized branch, sample by sample *)

Ltac split_tests :=
  repeat match goal with
         | |- context [Z.eqb ?x ?y] => destruct (Z.eqb_spec x y)
         | |- context [Z.leb ?x ?y] => destruct (Z.leb_spec x y)
         | |- context [Z.ltb ?x ?y] => destruct (Z.ltb_spec x y)
         end.

Section MonoBranch.

Variable b : PositionalAudioRingBuffer.
Variable p : MixParams.

Lemma channel_offsets :
  (delayedChannelOffset p = 0 /\ goodChannelOffset p = 1)
  \/ (delayedChannelOffset p = 1 /\ goodChannelOffset p = 0).
Proof.
  unfold goodChannelOffset, delayedChannelOffset.
  destruct (F32.gt _ _); cbn; auto.
Qed.

Lemma length_monoStep a s : length (monoStep b p a s) = length a.
Proof. unfold monoStep. cbn zeta. by rewrite !length_wr. Qed.

Lemma length_monoLoop l a : length (fold_left (monoStep b p) l a) = length a.
Proof.
  revert a. induction l as [|s l IH]; intros a; [done|].
  cbn [fold_left]. by rewrite IH, length_monoStep.
Qed.

Lemma monoStep_rd a q j :
  0 <= q -> 0 <= numSamplesDelay p ->
  4 * q + 2 * numSamplesDelay p + 3 < Z.of_nat (length a) ->
  rd (monoStep b p a (4 * q)) j
  = if (j mod 2 =? goodChannelOffset p) && (4 * q <=? j) && (j <? 4 * q + 4) then
      sat16 (rd a j + correctSample b p (j / 2))
    else if (j mod 2 =? delayedChannelOffset p)
            && (4 * q + 2 * numSamplesDelay p <=? j)
            && (j <? 4 * q + 2 * numSamplesDelay p + 4) then
      sat16 (rd a j + scaled (correctSample b p (j / 2 - numSamplesDelay p))
                             (weakChannelAmplitudeRatio p))
    else rd a j.
Proof.
  intros Hq Hd Hlen. unfold monoStep, correctSample, SINGLE_STEREO_OFFSET.
  cbn [_mm_set_pi16 _mm_adds_pi16 w3 w2 w1 w0].
  set (d := numSamplesDelay p) in *.
  assert (H0 : 4 * q / 2 = 2 * q) by (Z.div_mod_to_equations; lia).
  rewrite H0.
  destruct channel_offsets as [[-> ->]|[-> ->]].
  - rewrite !rd_wr_in by (rewrite ?length_wr; lia).
    split_tests; cbn [andb]; try lia; subst;
      try reflexivity;
      try (exfalso; Z.div_mod_to_equations; lia);
      try (f_equal; f_equal; f_equal; try f_equal; f_equal;
           Z.div_mod_to_equations; lia).
  - rewrite !rd_wr_in by (rewrite ?length_wr; lia).
    split_tests; cbn [andb]; try lia; subst;
      try reflexivity;
      try (exfalso; Z.div_mod_to_equations; lia);
      try (f_equal; f_equal; f_equal; try f_equal; f_equal;
           Z.div_mod_to_equations; lia).
Qed.

Lemma monoLoop_rd n a j :
  0 <= numSamplesDelay p ->
  4 * Z.of_nat n + 2 * numSamplesDelay p <= Z.of_nat (length a) ->
  rd (fold_left (monoStep b p) (List.map (fun k => 4 * Z.of_nat k) (List.seq 0 n)) a) j
  = monoLoopSample b p (Z.of_nat n) (rd a j) j.
Proof.
  intros Hd. induction n as [|n IH]; intros Hlen.
  - cbn [List.seq List.map fold_left]. unfold monoLoopSample.
    split_tests; cbn [andb]; try lia; reflexivity.
  - rewrite seq_S, List.map_app, fold_left_app. cbn [List.map fold_left Nat.add].
    rewrite monoStep_rd by (rewrite ?length_monoLoop; lia).
    rewrite IH by lia. unfold monoLoopSample.
    destruct channel_offsets as [[-> ->]|[-> ->]];
      destruct (Z.eqb_spec (j mod 2) 1); destruct (Z.eqb_spec (j mod 2) 0);
      try lia; cbn [andb];
      split_tests; cbn [andb]; try lia; reflexivity.
Qed.

Lemma length_delayGroup count a i : length (delayGroup b p count a i) = length a.
Proof.
  unfold delayGroup. cbn zeta.
  repeat match goal with
         | |- context [if ?c then _ else _] => destruct c
         end; by rewrite ?length_wr.
Qed.

Lemma delayGroup_rd count a i j :
  (count <= 4)%nat -> 0 <= i ->
  2 * i + 2 * Z.of_nat count <= Z.of_nat (length a) ->
  rd (delayGroup b p count a i) j
  = if (j mod 2 =? delayedChannelOffset p)
       && (i <=? j / 2) && (j / 2 <? i + Z.of_nat count)
    then sat16 (rd a j + delaySample b p (j / 2)) else rd a j.
Proof.
  intros Hcount Hi Hlen.
  unfold delayGroup, SINGLE_STEREO_OFFSET, DOUBLE_STEREO_OFFSET, TRIPLE_STEREO_OFFSET.
  cbn [_mm_set_pi16 _mm_adds_pi16 w3 w2 w1 w0].
  destruct count as [|[|[|[|[|count]]]]]; [| | | | |lia];
    cbn [Nat.ltb Nat.leb];
    (destruct channel_offsets as [[-> _]|[-> _]];
     rewrite ?rd_wr_in by (rewrite ?length_wr; lia);
     destruct (Z.eqb_spec (j mod 2) 1); destruct (Z.eqb_spec (j mod 2) 0);
     try lia; cbn [andb];
     split_tests; cbn [andb]; subst;
     try reflexivity;
     try (exfalso; Z.div_mod_to_equations; lia);
     try (f_equal; f_equal; f_equal; Z.div_mod_to_equations; lia)).
Qed.

Lemma delayQuads_rd fuel a i j :
  0 <= i -> 2 * numSamplesDelay p <= Z.of_nat (length a) ->
  length (fst (delayQuads b p fuel a i)) = length a
  /\ i <= snd (delayQuads b p fuel a i)
  /\ (snd (delayQuads b p fuel a i) = i
      \/ snd (delayQuads b p fuel a i) <= numSamplesDelay p)
  /\ rd (fst (delayQuads b p fuel a i)) j
     = if (j mod 2 =? delayedChannelOffset p)
          && (i <=? j / 2) && (j / 2 <? snd (delayQuads b p fuel a i))
       then sat16 (rd a j + delaySample b p (j / 2)) else rd a j.
Proof.
  intros Hi Hlen. revert a i Hi Hlen.
  induction fuel as [|fuel IH]; intros a i Hi Hlen; cbn [delayQuads].
  - cbn [fst snd]. split; [done|]. split; [lia|]. split; [by left|].
    split_tests; cbn [andb]; try lia; reflexivity.
  - destruct (Z.ltb_spec (i + 3) (numSamplesDelay p)) as [Hlt|Hge].
    + destruct (IH (delayGroup b p 4 a i) (i + 4)) as (IHlen & IHle & IHsnd & IHrd);
        [lia|by rewrite length_delayGroup|].
      rewrite length_delayGroup in IHlen.
      split; [done|]. split; [lia|]. split; [right; lia|].
      rewrite IHrd, delayGroup_rd by lia.
      change (Z.of_nat 4) with 4.
      destruct (Z.eqb_spec (j mod 2) (delayedChannelOffset p)); cbn [andb]; [|done].
      split_tests; cbn [andb]; try lia; reflexivity.
    + cbn [fst snd]. split; [done|]. split; [lia|]. split; [by left|].
      split_tests; cbn [andb]; try lia; reflexivity.
Qed.

Lemma length_addDelayedSamples a : length (addDelayedSamples b p a) = length a.
Proof.
  unfold addDelayedSamples.
  destruct (0 <? numSamplesDelay p); [|done].
  destruct (delayQuads b p (Z.to_nat (numSamplesDelay p)) a 0) as [a' i'] eqn:Hq.
  assert (Hlen : length a' = length a).
  { clear -Hq. revert a i' Hq. generalize 0.
    induction (Z.to_nat (numSamplesDelay p)) as [|fuel IH]; intros i a i' Hq;
      cbn [delayQuads] in Hq.
    - by inversion Hq.
    - destruct (i + 3 <? numSamplesDelay p).
      + apply IH in Hq. by rewrite length_delayGroup in Hq.
      + by inversion Hq. }
  repeat match goal with
         | |- context [if ?c then _ else _] => destruct c
         end; by rewrite ?length_delayGroup.
Qed.

Lemma addDelayedSamples_rd a j :
  2 * numSamplesDelay p <= Z.of_nat (length a) ->
  rd (addDelayedSamples b p a) j
  = if (j mod 2 =? delayedChannelOffset p)
       && (0 <=? j / 2) && (j / 2 <? numSamplesDelay p)
    then sat16 (rd a j + delaySample b p (j / 2)) else rd a j.
Proof.
  intros Hlen. unfold addDelayedSamples.
  destruct (Z.ltb_spec 0 (numSamplesDelay p)) as [Hpos|Hneg].
  2: { split_tests; cbn [andb]; try lia; reflexivity. }
  pose proof (delayQuads_rd (Z.to_nat (numSamplesDelay p)) a 0 j ltac:(lia) Hlen)
    as (Hl & Hle & Hsnd & Hrd).
  pose proof (delayQuads_exits b p (Z.to_nat (numSamplesDelay p)) a 0 ltac:(lia))
    as Hexit.
  destruct (delayQuads b p (Z.to_nat (numSamplesDelay p)) a 0) as [a' i'].
  cbn [fst snd] in *.
  destruct (Z.ltb_spec (i' + 2) (numSamplesDelay p));
    [|destruct (Z.ltb_spec (i' + 1) (numSamplesDelay p));
      [|destruct (Z.ltb_spec i' (numSamplesDelay p))]];
    rewrite ?delayGroup_rd by (cbn; lia); rewrite Hrd;
    destruct (Z.eqb_spec (j mod 2) (delayedChannelOffset p)); cbn [andb];
    try reflexivity;
    split_tests; cbn [andb]; try lia; reflexivity.
Qed.

End MonoBranch.

(** X2.  A mono source that is spatialized, with a delay [d >= 0] that fits
    the array, leaves at every index [j] of [_clientSamples]: on the channel
    away from the source (the delayed one) first the [d] samples before the
    frame and then the frame, shifted by [d] slots and scaled by the weak
    channel ratio after the attenuation; on the other channel the frame at
    the attenuation.  Each is added to what was there with 16-bit
    saturation, and the array keeps its length. *)
Theorem spatialized_source_sample_by_sample
    (b : PositionalAudioRingBuffer) (p : MixParams) (a : list Z) (j : Z) :
  negb (isStereo b) && shouldAttenuate p = true ->
  0 <= numSamplesDelay p ->
  NETWORK_BUFFER_LENGTH_SAMPLES_STEREO + 2 * numSamplesDelay p <= Z.of_nat (length a) ->
  0 <= j ->
  length (accumulate b p a) = length a
  /\ rd (accumulate b p a) j = spatializedSample b p (rd a j) j.
Proof.
  intros Hbranch Hd Hlen Hj. unfold accumulate. rewrite Hbranch.
  split; [by rewrite length_addDelayedSamples, length_monoLoop|].
  unfold NETWORK_BUFFER_LENGTH_SAMPLES_STEREO in Hlen.
  rewrite addDelayedSamples_rd by (rewrite length_monoLoop; lia).
  unfold frameOffsets.
  change (Z.to_nat (NETWORK_BUFFER_LENGTH_SAMPLES_STEREO / 4)) with 120%nat.
  rewrite monoLoop_rd by lia.
  unfold monoLoopSample, spatializedSample.
  change (NETWORK_BUFFER_LENGTH_SAMPLES_STEREO / 2) with 240.
  change NETWORK_BUFFER_LENGTH_SAMPLES_STEREO with 480.
  change (Z.of_nat 120) with 120.
  cbn zeta.
  destruct (channel_offsets p) as [[-> ->]|[-> ->]];
    destruct (Z.eqb_spec (j mod 2) 1); destruct (Z.eqb_spec (j mod 2) 0);
    try lia; cbn [andb];
    try (exfalso; Z.div_mod_to_equations; lia);
    split_tests; cbn [andb]; try reflexivity;
    exfalso; Z.div_mod_to_equations; lia.
Qed.

(** ** Every listener's mix starts from silence *)

Lemma sameBlock_wr a1 a2 i v1 v2 :
  sameBlock a1 a2 ->
  (i < NETWORK_BUFFER_LENGTH_SAMPLES_STEREO -> v1 = v2) ->
  sameBlock (wr a1 i v1) (wr a2 i v2).
Proof.
  intros [Hlen Hrd] Hv. split; [by rewrite !length_wr|].
  intros j Hj. rewrite !rd_wr, <- Hlen, (Hrd j Hj).
  destruct (Z.eqb_spec j i) as [->|]; cbn [andb]; [|done].
  by rewrite (Hv Hj).
Qed.

Lemma sameBlock_rd a1 a2 i c :
  sameBlock a1 a2 ->
  i < NETWORK_BUFFER_LENGTH_SAMPLES_STEREO -> sat16 (rd a1 i + c) = sat16 (rd a2 i + c).
Proof. intros [_ Hrd] Hi. by rewrite (Hrd i Hi). Qed.

Lemma sameBlock_updated a1 a2 i (f : Z -> Z) :
  sameBlock a1 a2 -> sameBlock (wr a1 i (f (rd a1 i))) (wr a2 i (f (rd a2 i))).
Proof.
  intros H. apply sameBlock_wr; [done|]. intros Hi. by rewrite (proj2 H i Hi).
Qed.

Section SameBlock.

Variable b : PositionalAudioRingBuffer.
Variable p : MixParams.

Lemma sameBlock_monoStep a1 a2 s :
  sameBlock a1 a2 -> sameBlock (monoStep b p a1 s) (monoStep b p a2 s).
Proof.
  intros H. unfold monoStep. cbn [_mm_set_pi16 _mm_adds_pi16 w3 w2 w1 w0].
  repeat apply sameBlock_wr; try assumption; intros Hi; by apply sameBlock_rd.
Qed.

Lemma sameBlock_stereoStep a1 a2 s :
  sameBlock a1 a2 -> sameBlock (stereoStep b p a1 s) (stereoStep b p a2 s).
Proof.
  intros H. unfold stereoStep.
  repeat match goal with
         | |- sameBlock (wr ?x ?i (wrap16 (glm_clamp (wrap32 (rd ?x ?i + ?c)) ?lo ?hi))) _ =>
             apply (sameBlock_updated x _ i
                      (fun old => wrap16 (glm_clamp (wrap32 (old + c)) lo hi)))
         end.
  exact H.
Qed.

Lemma sameBlock_delayGroup count a1 a2 i :
  sameBlock a1 a2 -> sameBlock (delayGroup b p count a1 i) (delayGroup b p count a2 i).
Proof.
  intros H. unfold delayGroup. cbn [_mm_set_pi16 _mm_adds_pi16 w3 w2 w1 w0].
  repeat match goal with
         | |- context [(?n <? count)%nat] => destruct (n <? count)%nat
         end;
    repeat apply sameBlock_wr; try assumption; intros Hi; by apply sameBlock_rd.
Qed.

Lemma sameBlock_delayQuads fuel a1 a2 i :
  sameBlock a1 a2 ->
  sameBlock (fst (delayQuads b p fuel a1 i)) (fst (delayQuads b p fuel a2 i))
  /\ snd (delayQuads b p fuel a1 i) = snd (delayQuads b p fuel a2 i).
Proof.
  revert a1 a2 i. induction fuel as [|fuel IH]; intros a1 a2 i H; cbn [delayQuads].
  - done.
  - destruct (i + 3 <? numSamplesDelay p); [|done].
    apply IH. by apply sameBlock_delayGroup.
Qed.

Lemma sameBlock_addDelayedSamples a1 a2 :
  sameBlock a1 a2 -> sameBlock (addDelayedSamples b p a1) (addDelayedSamples b p a2).
Proof.
  intros H. unfold addDelayedSamples.
  destruct (0 <? numSamplesDelay p); [|done].
  destruct (sameBlock_delayQuads (Z.to_nat (numSamplesDelay p)) a1 a2 0 H) as [Ha Hi].
  destruct (delayQuads b p (Z.to_nat (numSamplesDelay p)) a1 0) as [a1' i1].
  destruct (delayQuads b p (Z.to_nat (numSamplesDelay p)) a2 0) as [a2' i2].
  cbn [fst snd] in *. subst i2.
  repeat match goal with
         | |- context [if ?c then _ else _] => destruct c
         end; try by apply sameBlock_delayGroup. done.
Qed.

Lemma sameBlock_fold (step : list Z -> Z -> list Z) l a1 a2 :
  (forall x1 x2 s, sameBlock x1 x2 -> sameBlock (step x1 s) (step x2 s)) ->
  sameBlock a1 a2 -> sameBlock (fold_left step l a1) (fold_left step l a2).
Proof.
  intros Hstep. revert a1 a2. induction l as [|s l IH]; intros a1 a2 H; [done|].
  cbn [fold_left]. by apply IH, Hstep.
Qed.

Lemma sameBlock_accumulate a1 a2 :
  sameBlock a1 a2 -> sameBlock (accumulate b p a1) (accumulate b p a2).
Proof.
  intros H. unfold accumulate. destruct (negb (isStereo b) && shouldAttenuate p).
  - apply sameBlock_addDelayedSamples, sameBlock_fold; [|done].
    intros x1 x2 s. apply sameBlock_monoStep.
  - apply sameBlock_fold; [|done]. intros x1 x2 s. apply sameBlock_stereoStep.
Qed.

End SameBlock.

Lemma length_zeroClientSamples a : length (zeroClientSamples a) = length a.
Proof.
  unfold zeroClientSamples. rewrite length_app, length_replicate, length_drop. lia.
Qed.

Lemma rd_zeroClientSamples a j :
  j < NETWORK_BUFFER_LENGTH_SAMPLES_STEREO -> rd (zeroClientSamples a) j = 0.
Proof.
  intros Hj. unfold rd. destruct (Z.ltb_spec j 0) as [|Hpos]; [done|].
  unfold zeroClientSamples.
  destruct (decide (Z.to_nat j < length a)%nat) as [Hin|Hout].
  - rewrite lookup_app_l by (rewrite length_replicate; lia).
    rewrite lookup_replicate_2 by lia. done.
  - rewrite lookup_ge_None_2; [done|].
    rewrite length_app, length_replicate, length_drop. lia.
Qed.

Lemma sameBlock_take a1 a2 :
  sameBlock a1 a2 ->
  take (Z.to_nat NETWORK_BUFFER_LENGTH_SAMPLES_STEREO) a1
  = take (Z.to_nat NETWORK_BUFFER_LENGTH_SAMPLES_STEREO) a2.
Proof.
  intros [Hlen Hrd]. apply list_eq. intros i.
  destruct (decide (i < Z.to_nat NETWORK_BUFFER_LENGTH_SAMPLES_STEREO)%nat) as [Hi|Hi].
  - rewrite !lookup_take_lt by done.
    specialize (Hrd (Z.of_nat i) ltac:(lia)). unfold rd in Hrd.
    destruct (Z.ltb_spec (Z.of_nat i) 0); [lia|]. rewrite Nat2Z.id in Hrd.
    destruct (a1 !! i) as [x|] eqn:H1, (a2 !! i) as [y|] eqn:H2; cbn in Hrd.
    + by subst.
    + apply lookup_lt_Some in H1. apply lookup_ge_None in H2. lia.
    + apply lookup_lt_Some in H2. apply lookup_ge_None in H1. lia.
    + done.
  - rewrite !lookup_take_ge by lia. done.
Qed.

Section FreshStart.

Variable E : External.
Variable threshold : float.

Lemma sameBlock_addBuffer b l m1 m2 :
  sameBlock (_clientSamples m1) (_clientSamples m2) ->
  sameBlock (_clientSamples (addBufferToMixForListeningNodeWithBuffer E threshold b l m1))
            (_clientSamples (addBufferToMixForListeningNodeWithBuffer E threshold b l m2)).
Proof.
  intros H. unfold addBufferToMixForListeningNodeWithBuffer.
  destruct (spatialize _ _ _ _ _ _); [|done].
  cbn [_clientSamples]. by apply sameBlock_accumulate.
Qed.

Lemma sameBlock_mixNode node l m1 m2 other :
  sameBlock (_clientSamples m1) (_clientSamples m2) ->
  sameBlock (_clientSamples (mixNode E threshold node l m1 other))
            (_clientSamples (mixNode E threshold node l m2 other)).
Proof.
  unfold mixNode. destruct (getLinkedData other) as [data|]; [|done].
  revert m1 m2. induction (getRingBuffers data) as [|b bs IH]; intros m1 m2 H; [done|].
  cbn [fold_left]. apply IH.
  destruct (eligible node other b); [|done]. by apply sameBlock_addBuffer.
Qed.

(** X3.  The block sent to a listener does not depend on what an earlier
    mix left in [_clientSamples]: the block is cleared before the first
    source is added, and no sample of the block is computed from the slots
    that follow it. *)
Theorem mix_starts_from_silence (nodeHash : list Node) (node : Node) (m1 m2 : Mix) :
  length (_clientSamples m1) = length (_clientSamples m2) ->
  option_map outputBlock (prepareMixForListeningNode E threshold nodeHash node m1)
  = option_map outputBlock (prepareMixForListeningNode E threshold nodeHash node m2).
Proof.
  intros Hlen. unfold prepareMixForListeningNode.
  destruct (getLinkedData node) as [data|]; [|done].
  destruct (getAvatarAudioRingBuffer data) as [l|]; [|done].
  cbn [option_map]. f_equal. unfold outputBlock. apply sameBlock_take.
  assert (H0 : sameBlock (zeroClientSamples (_clientSamples m1))
                         (zeroClientSamples (_clientSamples m2))).
  { split; [by rewrite !length_zeroClientSamples|].
    intros j Hj. by rewrite !rd_zeroClientSamples. }
  set (z1 := {| _clientSamples := zeroClientSamples (_clientSamples m1);
                _sumMixes := _sumMixes m1 |}).
  set (z2 := {| _clientSamples := zeroClientSamples (_clientSamples m2);
                _sumMixes := _sumMixes m2 |}).
  change (sameBlock (_clientSamples z1) (_clientSamples z2)) in H0.
  clearbody z1 z2. revert z1 z2 H0.
  induction nodeHash as [|other rest IH]; intros z1 z2 H0; [done|].
  cbn [fold_left]. by apply IH, sameBlock_mixNode.
Qed.

End FreshStart.

(** ** Listeners without audible sources, and the packets of a frame *)

Lemma length_accumulate b p a : length (accumulate b p a) = length a.
Proof.
  unfold accumulate. destruct (negb (isStereo b) && shouldAttenuate p).
  - by rewrite length_addDelayedSamples, length_monoLoop.
  - apply length_stereoLoop.
Qed.

Section Frame.

Variable E : External.
Variable threshold : float.

Lemma length_addBuffer b l m :
  length (_clientSamples (addBufferToMixForListeningNodeWithBuffer E threshold b l m))
  = length (_clientSamples m).
Proof.
  unfold addBufferToMixForListeningNodeWithBuffer.
  destruct (spatialize _ _ _ _ _ _); [|done].
  cbn [_clientSamples]. apply length_accumulate.
Qed.

Lemma length_mixNode node l m other :
  length (_clientSamples (mixNode E threshold node l m other))
  = length (_clientSamples m).
Proof.
  unfold mixNode. destruct (getLinkedData other) as [data|]; [|done].
  revert m. induction (getRingBuffers data) as [|b bs IH]; intros m; [done|].
  cbn [fold_left]. rewrite IH.
  destruct (eligible node other b); [|done]. apply length_addBuffer.
Qed.

Lemma length_prepareMix nodeHash node m m' :
  prepareMixForListeningNode E threshold nodeHash node m = Some m' ->
  length (_clientSamples m') = length (_clientSamples m).
Proof.
  unfold prepareMixForListeningNode.
  destruct (getLinkedData node) as [data|]; [|done].
  destruct (getAvatarAudioRingBuffer data) as [l|]; [|done].
  intros [= <-].
  rewrite <- (length_zeroClientSamples (_clientSamples m)).
  change (zeroClientSamples (_clientSamples m))
    with (_clientSamples {| _clientSamples := zeroClientSamples (_clientSamples m);
                            _sumMixes := _sumMixes m |}) at 2.
  generalize {| _clientSamples := zeroClientSamples (_clientSamples m);
                _sumMixes := _sumMixes m |}.
  induction nodeHash as [|other rest IH]; intros z; [done|].
  cbn [fold_left]. by rewrite IH, length_mixNode.
Qed.

(** X4.  A listener for whom no ring buffer of the registry is eligible
    (each is the listener's own without loopback, or will not be added to
    the mix, or has no trailing loudness above zero) is sent silence: the
    block is all zeros, the slots after it are as they were, and
    [_sumMixes] does not move. *)
Theorem no_eligible_source_is_silence
    (nodeHash : list Node) (node : Node) (m m' : Mix) :
  (forall other data b,
      In other nodeHash -> getLinkedData other = Some data ->
      In b (getRingBuffers data) -> eligible node other b = false) ->
  prepareMixForListeningNode E threshold nodeHash node m = Some m' ->
  m' = {| _clientSamples := zeroClientSamples (_clientSamples m);
          _sumMixes := _sumMixes m |}
  /\ Forall (fun sample => sample = 0) (outputBlock m').
Proof.
  intros Hnone. unfold prepareMixForListeningNode.
  destruct (getLinkedData node) as [data|]; [|done].
  destruct (getAvatarAudioRingBuffer data) as [l|]; [|done].
  intros [= <-].
  assert (Hfold : forall z,
            fold_left (mixNode E threshold node l) nodeHash z = z).
  { induction nodeHash as [|other rest IH]; intros z; [done|].
    cbn [fold_left].
    assert (Hother : mixNode E threshold node l z other = z).
    { unfold mixNode. destruct (getLinkedData other) as [d|] eqn:Hd; [|done].
      assert (Hb : forall b, In b (getRingBuffers d) -> eligible node other b = false).
      { intros b Hb. apply (Hnone other d b); [by left|done|done]. }
      clear Hd. revert z Hb.
      induction (getRingBuffers d) as [|b bs IHb]; intros z Hb; [done|].
      cbn [fold_left]. rewrite (Hb b) by (by left).
      apply IHb. intros b' Hb'. apply Hb. by right. }
    rewrite Hother. apply IH.
    intros o d b' Ho. apply Hnone. by right. }
  rewrite Hfold. split; [done|].
  unfold outputBlock, zeroClientSamples. cbn [_clientSamples].
  apply Forall_lookup. intros i x Hi.
  apply lookup_take_Some in Hi as [Hi Hlt].
  destruct (decide (i < Nat.min (Z.to_nat NETWORK_BUFFER_LENGTH_SAMPLES_STEREO)
                                (length (_clientSamples m)))%nat) as [Hin|Hout].
  - rewrite lookup_app_l in Hi by (by rewrite length_replicate).
    by apply lookup_replicate in Hi as [-> _].
  - rewrite lookup_app_r in Hi by (rewrite length_replicate; lia).
    rewrite length_replicate, lookup_drop in Hi.
    apply lookup_lt_Some in Hi. lia.
Qed.

(** X5.  In a frame every listener (an agent with an active socket and an
    avatar ring buffer) is sent one block, in the order of the node hash,
    and no other node is sent any; with the 520 slots of [_clientSamples],
    or any number from 480 on, every block holds 480 samples. *)
Theorem one_block_per_listener (nodeHash listeners : list Node) (m : Mix) :
  NETWORK_BUFFER_LENGTH_SAMPLES_STEREO <= Z.of_nat (length (_clientSamples m)) ->
  List.map fst (snd (mixListeners E threshold nodeHash listeners m))
  = List.map uuid (List.filter isListener listeners)
  /\ Forall (fun packet =>
               Z.of_nat (length (snd packet)) = NETWORK_BUFFER_LENGTH_SAMPLES_STEREO)
            (snd (mixListeners E threshold nodeHash listeners m)).
Proof.
  revert m. induction listeners as [|node rest IH]; intros m Hlen;
    cbn [mixListeners List.filter].
  - split; [done|constructor].
  - destruct (isListener node) eqn:Hl; [|by apply IH].
    destruct (prepareMix_listener E threshold nodeHash node m Hl) as [m' Hm'].
    rewrite Hm'.
    pose proof (length_prepareMix nodeHash node m m' Hm') as Hlen'.
    destruct (IH m' ltac:(lia)) as [IHids IHlen].
    destruct (mixListeners E threshold nodeHash rest m') as [m'' packets].
    cbn [snd fst List.map] in *. split; [by rewrite IHids|].
    constructor; [|done].
    cbn [snd]. unfold outputBlock. rewrite length_take.
    unfold NETWORK_BUFFER_LENGTH_SAMPLES_STEREO in *. lia.
Qed.

End Frame.

(** ** Sources add up where nothing clips *)

Lemma sat16_id x : is_int16 x -> sat16 x = x.
Proof.
  unfold is_int16, sat16. intros [Hlo Hhi].
  destruct (Z.ltb_spec x INT16_MIN); [lia|].
  destruct (Z.ltb_spec INT16_MAX x); [lia|done].
Qed.

Lemma clamp_id x : is_int16 x -> glm_clamp (wrap32 x) MIN_SAMPLE_VALUE MAX_SAMPLE_VALUE = x.
Proof.
  unfold is_int16, INT16_MIN, INT16_MAX. intros Hx.
  rewrite wrap32_small by (unfold INT32_MIN, INT32_MAX; lia).
  unfold glm_clamp, MIN_SAMPLE_VALUE, MAX_SAMPLE_VALUE, INT16_MIN, INT16_MAX. lia.
Qed.

(** One source: where the sum stays a 16-bit value, the slot holds the sum. *)
Lemma accumulate_adds b p a j :
  fitsClientSamples p a -> 0 <= j ->
  is_int16 (rd a j + contribution b p j) ->
  rd (accumulate b p a) j = rd a j + contribution b p j.
Proof.
  intros [Hd Hlen] Hj. unfold accumulate, contribution.
  unfold NETWORK_BUFFER_LENGTH_SAMPLES_STEREO in Hlen.
  destruct (negb (isStereo b) && shouldAttenuate p).
  - rewrite addDelayedSamples_rd by (rewrite length_monoLoop; lia).
    unfold frameOffsets.
    change (Z.to_nat (NETWORK_BUFFER_LENGTH_SAMPLES_STEREO / 4)) with 120%nat.
    rewrite monoLoop_rd by lia.
    unfold monoLoopSample.
    change (NETWORK_BUFFER_LENGTH_SAMPLES_STEREO / 2) with 240.
    change NETWORK_BUFFER_LENGTH_SAMPLES_STEREO with 480.
    change (Z.of_nat 120) with 120.
    cbn zeta.
    destruct (channel_offsets p) as [[-> ->]|[-> ->]];
      destruct (Z.eqb_spec (j mod 2) 1); destruct (Z.eqb_spec (j mod 2) 0);
      try lia; cbn [andb];
      try (exfalso; Z.div_mod_to_equations; lia);
      split_tests; cbn [andb]; intros Hsum;
      rewrite ?sat16_id by done; try reflexivity; try lia;
      exfalso; Z.div_mod_to_equations; lia.
  - unfold frameOffsets.
    change (Z.to_nat (NETWORK_BUFFER_LENGTH_SAMPLES_STEREO / 4)) with 120%nat.
    rewrite stereoLoop_rd by lia.
    change NETWORK_BUFFER_LENGTH_SAMPLES_STEREO with 480.
    change (4 * Z.of_nat 120) with 480.
    destruct (Z.leb_spec 0 j); [|lia]. cbn [andb].
    destruct (Z.ltb_spec j 480); intros Hsum; [|lia].
    unfold mixedSample. by rewrite clamp_id.
Qed.

(** X14.  Where nothing clips, two sources add up: if the old sample of a
    slot plus either contribution and plus both are 16-bit values, the slot
    holds the old sample plus both contributions after the two sources were
    mixed, in either order; the order of the node hash matters only where a
    sum leaves the 16-bit range. *)
Theorem sources_add_up_without_clipping
    (b1 b2 : PositionalAudioRingBuffer) (p1 p2 : MixParams) (a : list Z) (j : Z) :
  fitsClientSamples p1 a -> fitsClientSamples p2 a -> 0 <= j ->
  is_int16 (rd a j + contribution b1 p1 j) ->
  is_int16 (rd a j + contribution b2 p2 j) ->
  is_int16 (rd a j + contribution b1 p1 j + contribution b2 p2 j) ->
  rd (accumulate b2 p2 (accumulate b1 p1 a)) j
  = rd a j + contribution b1 p1 j + contribution b2 p2 j
  /\ rd (accumulate b1 p1 (accumulate b2 p2 a)) j
     = rd a j + contribution b1 p1 j + contribution b2 p2 j.
Proof.
  intros Hfit1 Hfit2 Hj H1 H2 H12.
  assert (Hfit : forall b p p' x, fitsClientSamples p' x ->
                   fitsClientSamples p' (accumulate b p x)).
  { intros b p p' x [Hd Hlen]. split; [done|]. by rewrite length_accumulate. }
  split.
  - rewrite accumulate_adds; [|by apply Hfit|done|].
    + by rewrite accumulate_adds.
    + by rewrite accumulate_adds.
  - rewrite accumulate_adds; [|by apply Hfit|done|].
    + rewrite accumulate_adds by done. lia.
    + rewrite accumulate_adds by done.
      replace (rd a j + contribution b2 p2 j + contribution b1 p1 j)
        with (rd a j + contribution b1 p1 j + contribution b2 p2 j) by lia.
      done.
Qed.

(** ** Bounds of the spatializer *)

Lemma delay_of_unit_sine (sinRatio : float) :
  unitGain sinRatio ->
  0 <= cvttss2si (F32.mul (F32.of_int SAMPLE_PHASE_DELAY_AT_90) sinRatio)
    <= SAMPLE_PHASE_DELAY_AT_90.
Proof.
  intros Hsin. unfold SAMPLE_PHASE_DELAY_AT_90.
  pose proof (of_int_atMost 20 ltac:(lia)) as Hof.
  change (20 <? 0) with false in Hof. change (Z.abs 20) with 20 in Hof.
  pose proof (mul_atMost false 20 _ sinRatio ltac:(lia) Hof Hsin) as Hmul.
  apply cvttss2si_atMost in Hmul; [|lia].
  unfold F32.mul, F32.of_int. lia.
Qed.

(** ** Rounding a difference below 1 *)

Lemma binary_normalize_atMost K m e X :
  0 <= K -> 0 <= e + K -> 0 <= X < 2 ^ 24 ->
  Z.abs m * 2 ^ (e + K) <= X * 2 ^ K ->
  atMost (m <? 0) X (binary_normalize F32.prec F32.emax m e false).
Proof.
  intros HK He HX Hle.
  assert (Hle' : Z.abs m * 2 ^ (e + (K + 149)) <= X * 2 ^ (K + 149)).
  { replace (e + (K + 149)) with (e + K + 149) by lia.
    rewrite (Z.pow_add_r 2 (e + K) 149), (Z.pow_add_r 2 K 149) by lia.
    rewrite !Z.mul_assoc. apply Z.mul_le_mono_nonneg_r; [|done].
    apply Z.pow_nonneg. lia. }
  destruct m as [|p|p]; cbn [binary_normalize]; [done| |].
  all: change (Z.pos p <? 0) with false; change (Z.neg p <? 0) with true.
  all: cbn [Z.abs] in Hle'.
  all: unfold binary_round, shl_align.
  all: set (e' := fexp F32.prec F32.emax (Z.pos (digits2_pos p) + e)).
  all: assert (He' : -149 <= e') by (unfold e', fexp, emin, F32.prec, F32.emax; lia).
  all: destruct (e' - e) as [|d|d] eqn:Hd.
  all: try (apply (binary_round_aux_atMost (K + 149)); lia).
  all: apply (binary_round_aux_atMost (K + 149)); try lia.
  all: rewrite Pos_iter_xO.
  all: rewrite <- Z.mul_assoc, <- Z.pow_add_r by lia.
  all: replace (Z.pos d + (e' + (K + 149))) with (e + (K + 149)) by lia; lia.
Qed.

Lemma shl_align_value m e e' :
  e' <= e -> Z.pos (fst (shl_align m e e')) = Z.pos m * 2 ^ (e - e').
Proof.
  intros Hle. unfold shl_align. destruct (e' - e) as [|d|d] eqn:Hd; cbn [fst].
  - replace (e - e') with 0 by lia. lia.
  - lia.
  - rewrite Pos_iter_xO. f_equal. f_equal. lia.
Qed.

(** [1 - x] for [x] between 0 and 1 is between 0 and 1. *)
Lemma one_minus_unitGain x : unitGain x -> unitGain (F32.sub (F32.of_int 1) x).
Proof.
  unfold unitGain. intros Hx.
  change (F32.of_int 1) with (S754_finite false 8388608 (-23)).
  destruct x as [s| | |s m e]; try done.
  - cbn. split; [done|]. exists 23. cbn. lia.
  - destruct Hx as (-> & K & HK & He & Hm).
    unfold F32.sub, SFsub. cbv zeta. cbn [cond_Zopp].
    set (ez := Z.min (-23) e).
    rewrite !shl_align_value by lia.
    set (D := 8388608 * 2 ^ (-23 - ez) - Z.pos m * 2 ^ (e - ez)).
    assert (Hpow : forall a b, 0 <= a -> 0 <= b -> 2 ^ a * 2 ^ b = 2 ^ (a + b)).
    { intros a b Ha Hb. by rewrite Z.pow_add_r. }
    assert (HD : D * 2 ^ (ez + (K + 23)) = 2 ^ (K + 23) - Z.pos m * 2 ^ (e + K) * 2 ^ 23).
    { unfold D. rewrite Z.mul_sub_distr_r.
      rewrite <- !Z.mul_assoc, !Hpow by lia.
      replace (-23 - ez + (ez + (K + 23))) with K by lia.
      replace (e - ez + (ez + (K + 23))) with (e + K + 23) by lia.
      change 8388608 with (2 ^ 23). rewrite Hpow by lia.
      f_equal; f_equal; lia. }
    assert (H23 : 0 < 2 ^ 23) by lia.
    assert (Hez : 0 < 2 ^ (ez + (K + 23))) by (apply Z.pow_pos_nonneg; lia).
    assert (Hrange : 0 <= D * 2 ^ (ez + (K + 23)) <= 1 * 2 ^ (K + 23)).
    { rewrite HD. rewrite (Z.pow_add_r 2 K 23) by lia. nia. }
    assert (HD0 : 0 <= D) by nia.
    replace false with (D <? 0) at 1 by (apply Z.ltb_ge; lia).
    apply (binary_normalize_atMost (K + 23)); lia.
Qed.

Lemma unitGain_one : unitGain F32.one.
Proof.
  change F32.one with (S754_finite false 8388608 (-23)).
  split; [done|]. exists 23. change (-23 + 23) with 0. lia.
Qed.

Lemma weak_ratio_of_unit_sine (sinRatio : float) :
  unitGain sinRatio ->
  unitGain (F32.sub (F32.of_int 1) (F32.mul PHASE_AMPLITUDE_RATIO_AT_90 sinRatio)).
Proof.
  intros Hsin. apply one_minus_unitGain, unitGain_mul; [|done].
  change PHASE_AMPLITUDE_RATIO_AT_90 with (S754_finite false 8388608 (-24)).
  split; [done|]. exists 24. change (-24 + 24) with 0. lia.
Qed.

(** X6.  Whenever the sine of the bearing is a number of magnitude at most
    1, the inter-aural delay of a source is between 0 and
    SAMPLE_PHASE_DELAY_AT_90 samples, so that the frame shifted by the delay
    still fits the slots of [_clientSamples], and the weak-channel ratio is
    a gain between 0 and 1. *)
Theorem spatial_cues_are_bounded
    (E : External) (threshold : float) (b : PositionalAudioRingBuffer)
    (listenerAddr : nat) (listenerPosition : vec3) (listenerOrientation : quat)
    (p : MixParams) :
  spatialize E threshold b listenerAddr listenerPosition listenerOrientation = Some p ->
  unitGain (F32.fabsf (sinf E (bearingRelativeAngleToSource p))) ->
  0 <= numSamplesDelay p <= SAMPLE_PHASE_DELAY_AT_90
  /\ NETWORK_BUFFER_LENGTH_SAMPLES_STEREO + 2 * numSamplesDelay p
     <= CLIENT_SAMPLES_LENGTH
  /\ unitGain (weakChannelAmplitudeRatio p).
Proof.
  intros Hp Hsin.
  assert (Hcues : 0 <= numSamplesDelay p <= SAMPLE_PHASE_DELAY_AT_90
                  /\ unitGain (weakChannelAmplitudeRatio p)).
  { revert Hp Hsin. unfold spatialize.
    destruct (Nat.eqb _ _);
      [intros [= <-] _; split; [by vm_compute|apply unitGain_one]|].
    destruct (belowAudibility _ _ _); [done|].
    match goal with |- context [if ?c then _ else _] => destruct c end;
      [|intros [= <-] _; split; [by vm_compute|apply unitGain_one]].
    unfold attenuateAndSpatialize.
    destruct (getType b);
      (destruct (F32.eq _ _ || F32.gt _ _);
       [destruct (F32.gt _ F32.zero)|];
       intros [= <-];
       cbn [numSamplesDelay bearingRelativeAngleToSource weakChannelAmplitudeRatio];
       intros Hsin;
       [split; [by apply delay_of_unit_sine|by apply weak_ratio_of_unit_sine]..
       |split; [by vm_compute|apply unitGain_one]]). }
  destruct Hcues as [Hdelay Hweak].
  split; [done|]. split; [|done].
  unfold CLIENT_SAMPLES_LENGTH, NETWORK_BUFFER_LENGTH_SAMPLES_STEREO,
    SAMPLE_PHASE_DELAY_AT_90 in *. lia.
Qed.

Lemma lt_le (x y : float) : F32.lt x y = true -> F32.le x y = true.
Proof.
  unfold F32.lt, F32.le, SFltb, SFleb.
  destruct (SFcompare x y) as [[]|]; done.
Qed.

(** X7.  Whatever [logf] and [powf] return, the distance coefficient is at
    most 1, so that distance never amplifies a source; where the power is
    not below 1, a NaN included, the coefficient is exactly 1. *)
Theorem distance_never_amplifies (E : External) (distanceSquareToSource : float) :
  F32.le (distanceCoefficient E distanceSquareToSource) F32.one = true
  /\ (F32.lt (rawDistanceCoefficient E distanceSquareToSource) F32.one = false ->
      distanceCoefficient E distanceSquareToSource = F32.one).
Proof.
  unfold distanceCoefficient, F32.std_min.
  destruct (F32.lt (rawDistanceCoefficient E distanceSquareToSource) F32.one) eqn:Hlt.
  - split; [by apply lt_le|done].
  - split; [reflexivity|done].
Qed.

(** X8.  The distance the audibility gate divides the loudness by is never
    below EPSILON and never a zero, wherever source and listener are. *)
Theorem gate_never_divides_by_zero (relativePosition : vec3) :
  F32.lt (distanceBetween relativePosition) EPSILON = false
  /\ F32.eq (distanceBetween relativePosition) F32.zero = false.
Proof.
  unfold distanceBetween. cbv zeta.
  destruct (F32.lt (glm_length relativePosition) EPSILON) eqn:Hlt.
  - split; vm_compute; reflexivity.
  - split; [done|].
    destruct (glm_length relativePosition) as [s| | |s m e]; try done.
    all: by destruct s.
Qed.

(** * Packets from the network *)

Lemma handleDatagram_calls nodeHash d call :
  In call (handleDatagram nodeHash d)
  <-> packetVersionAndHashMatch d = true
      /\ match call with
         | findNodeAndUpdateWithDataFromPacket packet =>
             packet = d
             /\ packetTypeForPacket d <> PacketTypeMuteEnvironment
             /\ packetTypeForPacket d <> PacketTypeOther
         | writeDatagram packetType packet destination =>
             packet = d
             /\ packetType = PacketTypeMuteEnvironment
             /\ packetTypeForPacket d = PacketTypeMuteEnvironment
             /\ sendingNodeForPacket d <> Some destination
             /\ exists node,
                  In node nodeHash /\ uuid node = destination
                  /\ nodeType node = Agent /\ getActiveSocket node = true
                  /\ is_Some (getLinkedData node)
         | processNodeData sender packet =>
             packet = d /\ sender = senderSockAddr d
             /\ packetTypeForPacket d = PacketTypeOther
         end.
Proof.
  unfold handleDatagram. split.
  - destruct (packetVersionAndHashMatch d); [|intros []].
    intros Hin. split; [done|].
    destruct (packetTypeForPacket d) eqn:Htype;
      try (destruct Hin as [<-|[]]; done).
    apply in_map_iff in Hin as (node & <- & Hnode).
    apply filter_In in Hnode as [Hnode Hhears].
    unfold hearsMuteEnvironment in Hhears.
    apply andb_prop in Hhears as [Hhears Hsender].
    apply andb_prop in Hhears as [Hhears Hdata].
    apply andb_prop in Hhears as [Hagent Hsocket].
    apply negb_true_iff, bool_decide_eq_false in Hsender.
    apply bool_decide_eq_true in Hdata.
    split; [done|]. split; [done|]. split; [done|]. split; [done|].
    exists node. destruct (nodeType node); done.
  - intros [-> Hcall]. destruct call as [packet|packetType packet destination|sender packet].
    + destruct Hcall as (-> & Hmute & Hother).
      destruct (packetTypeForPacket d); try done; by left.
    + destruct Hcall as (-> & -> & -> & Hsender & node & Hnode & <- & Hagent & Hsocket & Hdata).
      apply in_map_iff. exists node. split; [done|].
      apply filter_In. split; [done|].
      unfold hearsMuteEnvironment. rewrite Hagent, Hsocket. cbn [andb].
      apply andb_true_intro. split.
      * by apply bool_decide_eq_true.
      * by apply negb_true_iff, bool_decide_eq_false.
    + destruct Hcall as (-> & -> & ->). by left.
Qed.

(** X9.  The calls [readPendingDatagrams] makes are exactly these, for the
    datagrams received whose version and hash match: an audio packet
    (microphone with or without echo, injected audio, silent frame) updates
    its node; a mute-environment packet is written to every agent of the
    node hash with an active socket and linked data that is not its
    sender, and to no other node; any other packet goes to
    [processNodeData] with the address it came from.  A datagram whose
    version or hash does not match causes no call. *)
Theorem datagrams_are_dispatched_by_type
    (nodeHash : list Node) (datagrams : list Datagram) (call : NodeListCall) :
  In call (readPendingDatagrams nodeHash datagrams)
  <-> exists d,
        In d datagrams /\ packetVersionAndHashMatch d = true
        /\ match call with
           | findNodeAndUpdateWithDataFromPacket packet =>
               packet = d
               /\ packetTypeForPacket d <> PacketTypeMuteEnvironment
               /\ packetTypeForPacket d <> PacketTypeOther
           | writeDatagram packetType packet destination =>
               packet = d
               /\ packetType = PacketTypeMuteEnvironment
               /\ packetTypeForPacket d = PacketTypeMuteEnvironment
               /\ sendingNodeForPacket d <> Some destination
               /\ exists node,
                    In node nodeHash /\ uuid node = destination
                    /\ nodeType node = Agent /\ getActiveSocket node = true
                    /\ is_Some (getLinkedData node)
           | processNodeData sender packet =>
               packet = d /\ sender = senderSockAddr d
               /\ packetTypeForPacket d = PacketTypeOther
           end.
Proof.
  unfold readPendingDatagrams. split.
  - intros Hin. apply in_concat in Hin as (calls & Hcalls & Hcall).
    apply in_map_iff in Hcalls as (d & <- & Hd).
    exists d. split; [done|]. by apply handleDatagram_calls.
  - intros (d & Hd & Hmatch & Hcall).
    apply in_concat. exists (handleDatagram nodeHash d).
    split; [apply in_map_iff; by exists d|].
    by apply handleDatagram_calls.
Qed.

(** * The statistics of the jitter buffers *)

Section JitterStatsProperties.

Variable uuidToString : nat -> string.
Variable getJitterBufferStatsString : AudioMixerClientData -> string.

Let property := jitterStatsProperty uuidToString.
Let step := statsStep uuidToString getJitterBufferStatsString.
Let statsLoopOk := statsLoopOk uuidToString getJitterBufferStatsString.

Lemma statsLoopOk_step nodeHash st node :
  In node nodeHash -> statsLoopOk nodeHash st -> statsLoopOk nodeHash (step st node).
Proof.
  intros Hnode (Hfalse & Htrue & Hsize & Hsent & Hfrom).
  unfold step, statsStep.
  set (st1 := match getLinkedData node with Some _ => _ | None => st end).
  assert (H1 : statsLoopOk nodeHash st1).
  { unfold st1. destruct (getLinkedData node) as [clientData|] eqn:Hdata;
      [|by repeat split].
    cbn zeta. split; [done|].
    split; [intros _; apply insert_non_empty|].
    split; [intros H; by destruct (insert_non_empty _ _ _ H)|].
    split; [done|].
    cbn [statsObject2 sentStats]. intros object k v [->|Hin] Hk.
    - apply lookup_insert_Some in Hk as [[<- <-]|[_ Hk]].
      + by exists node, clientData.
      + apply (Hfrom (statsObject2 st) k v); [by left|done].
    - apply (Hfrom object k v); [by right|done]. }
  clearbody st1. destruct H1 as (Hfalse1 & Htrue1 & Hsize1 & Hsent1 & Hfrom1).
  destruct (Z.ltb_spec TOO_BIG_FOR_MTU (sizeOfStats st1)) as [Hbig|Hsmall];
    [|by repeat split].
  split; [done|]. split; [done|]. split; [done|].
  cbn [statsObject2 sentStats]. split.
  - apply Forall_app. split; [done|]. constructor; [|constructor].
    intros Hempty. apply Hsize1 in Hempty. unfold TOO_BIG_FOR_MTU in Hbig. lia.
  - intros object k v [->|Hin] Hk; [by rewrite lookup_empty in Hk|].
    apply in_app_or in Hin as [Hin|[<-|[]]].
    + apply (Hfrom1 object k v); [by right|done].
    + apply (Hfrom1 (statsObject2 st1) k v); [by left|done].
Qed.

Lemma statsLoopOk_fold nodeHash nodes st :
  (forall node, In node nodes -> In node nodeHash) ->
  statsLoopOk nodeHash st -> statsLoopOk nodeHash (fold_left step nodes st).
Proof.
  revert st. induction nodes as [|node nodes IH]; intros st Hin Hst; [done|].
  cbn [fold_left]. apply IH; [intros n Hn; apply Hin; by right|].
  apply statsLoopOk_step; [apply Hin; by left|done].
Qed.

(** X10.  No empty object is sent to the domain server, and every property
    of an object sent is the jitter statistics of a node of the hash that
    has client data, under the name of its uuid. *)
Theorem jitter_stats_objects_are_sound (nodeHash : list Node) :
  Forall (fun object => object <> ∅)
         (sendJitterStats uuidToString getJitterBufferStatsString nodeHash)
  /\ forall object k v,
       In object (sendJitterStats uuidToString getJitterBufferStatsString nodeHash) ->
       object !! k = Some v ->
       exists node clientData,
         In node nodeHash /\ getLinkedData node = Some clientData
         /\ k = jitterStatsProperty uuidToString node
         /\ v = getJitterBufferStatsString clientData.
Proof.
  assert (Hok : statsLoopOk nodeHash (fold_left step nodeHash statsLoopStart)).
  { apply statsLoopOk_fold; [done|]. repeat split; try done.
    intros object k v [->|[]] Hk. cbn [statsLoopStart statsObject2] in Hk.
    by rewrite lookup_empty in Hk. }
  destruct Hok as (Hfalse & Htrue & Hsize & Hsent & Hfrom).
  unfold sendJitterStats. fold step.
  destruct (somethingToSend (fold_left step nodeHash statsLoopStart)) eqn:Hsend.
  - split.
    + apply Forall_app. split; [done|]. constructor; [by apply Htrue|constructor].
    + intros object k v Hin Hk. apply in_app_or in Hin as [Hin|[<-|[]]].
      * apply (Hfrom object k v); [by right|done].
      * eapply Hfrom; [by left|done].
  - split; [done|]. intros object k v Hin Hk.
    apply (Hfrom object k v); [by right|done].
Qed.

End JitterStatsProperties.

Lemma jitterStatsProperties_app uuidToString l1 l2 :
  jitterStatsProperties uuidToString (l1 ++ l2)
  = jitterStatsProperties uuidToString l1 ++ jitterStatsProperties uuidToString l2.
Proof. unfold jitterStatsProperties. by rewrite List.filter_app, List.map_app. Qed.

Section JitterStatsComplete.

Variable uuidToString : nat -> string.
Variable getJitterBufferStatsString : AudioMixerClientData -> string.

Let property := jitterStatsProperty uuidToString.
Let properties := jitterStatsProperties uuidToString.
Let step := statsStep uuidToString getJitterBufferStatsString.
Let complete := statsLoopComplete uuidToString getJitterBufferStatsString.

Lemma complete_flush nodes st :
  complete nodes st ->
  complete nodes {| statsObject2 := ∅; somethingToSend := false; sizeOfStats := 0;
                    sentStats := sentStats st ++ [statsObject2 st] |}.
Proof.
  intros (Hcur & Hsent & Hall). split; [|split]; cbn [statsObject2 sentStats].
  - intros k [v Hk]. by rewrite lookup_empty in Hk.
  - intros j object k Hj Hk.
    assert (Hwhere : forall i o, (sentStats st ++ [statsObject2 st]) !! i = Some o ->
              sentStats st !! i = Some o
              \/ (i = length (sentStats st) /\ o = statsObject2 st)).
    { intros i o Hi. apply lookup_app_Some in Hi as [Hi|[Hlen Hi]]; [by left|].
      right. destruct (i - length (sentStats st))%nat as [|n] eqn:Hn; [|done].
      cbn in Hi. injection Hi as <-. split; [lia|done]. }
    apply Hwhere in Hj as [Hj|[-> ->]].
    + destruct (Hsent j object k Hj Hk) as (Hin & Hnone & Huniq).
      split; [done|]. split; [apply lookup_empty|].
      intros j' object' Hj' Hk'. apply Hwhere in Hj' as [Hj'|[-> ->]].
      * by apply (Huniq j' object').
      * rewrite Hnone in Hk'. by destruct Hk'.
    + split; [by apply Hcur|]. split; [apply lookup_empty|].
      intros j' object' Hj' Hk'. apply Hwhere in Hj' as [Hj'|[-> ->]]; [|done].
      destruct (Hsent j' object' k Hj' Hk') as (_ & Hnone & _).
      rewrite Hnone in Hk. by destruct Hk.
  - intros node clientData Hnode Hdata. right.
    destruct (Hall node clientData Hnode Hdata) as [Hk|(j & object & Hj & Hk)].
    + exists (length (sentStats st)), (statsObject2 st). split; [|done].
      rewrite lookup_app_r by lia. by rewrite Nat.sub_diag.
    + exists j, object. split; [|done]. by apply lookup_app_l_Some.
Qed.

Lemma complete_step nodes st node :
  NoDup (properties (nodes ++ [node])) ->
  complete nodes st -> complete (nodes ++ [node]) (step st node).
Proof.
  intros Hnodup Hst. unfold step, statsStep.
  set (st1 := match getLinkedData node with Some _ => _ | None => st end).
  assert (H1 : complete (nodes ++ [node]) st1).
  { unfold properties in Hnodup. rewrite jitterStatsProperties_app in Hnodup.
    destruct Hst as (Hcur & Hsent & Hall).
    unfold st1, complete, statsLoopComplete.
    rewrite jitterStatsProperties_app.
    destruct (getLinkedData node) as [clientData|] eqn:Hdata.
    - assert (Hnew : ~ In (property node) (jitterStatsProperties uuidToString nodes)).
      { apply NoDup_app in Hnodup as (_ & Hdisjoint & _).
        intros Hin. apply (Hdisjoint (property node)).
        - by apply list_elem_of_In.
        - apply list_elem_of_In. unfold jitterStatsProperties.
          cbn [List.filter]. rewrite Hdata. by left. }
      cbn [statsObject2 sentStats]. split; [|split].
      + intros k Hk. apply in_or_app.
        destruct (decide (k = property node)) as [->|Hne].
        * right. unfold jitterStatsProperties. cbn [List.filter]. rewrite Hdata.
          by left.
        * left. apply Hcur. by rewrite lookup_insert_ne in Hk.
      + intros j object k Hj Hk.
        destruct (Hsent j object k Hj Hk) as (Hin & Hnone & Huniq).
        split; [apply in_or_app; by left|]. split; [|done].
        rewrite lookup_insert_ne; [done|]. by intros <-.
      + intros n d Hn Hd. apply in_app_or in Hn as [Hn|[<-|[]]].
        * destruct (Hall n d Hn Hd) as [Hk|Hk]; [|by right].
          left. rewrite lookup_insert_ne; [done|].
          intros Heq. apply Hnew, Hcur. unfold property. rewrite Heq.
          by eexists.
        * left. rewrite Hd in Hdata. injection Hdata as <-.
          apply lookup_insert_eq.
    - split; [|split].
      + intros k Hk. apply in_or_app. left. by apply Hcur.
      + intros j object k Hj Hk.
        destruct (Hsent j object k Hj Hk) as (Hin & Hnone & Huniq).
        split; [apply in_or_app; by left|done].
      + intros n d Hn Hd. apply in_app_or in Hn as [Hn|[<-|[]]].
        * by apply Hall.
        * by rewrite Hd in Hdata. }
  clearbody st1.
  destruct (TOO_BIG_FOR_MTU <? sizeOfStats st1); [|done].
  by apply complete_flush.
Qed.

Lemma complete_fold rest nodes st :
  NoDup (properties (nodes ++ rest)) ->
  complete nodes st -> complete (nodes ++ rest) (fold_left step rest st).
Proof.
  revert nodes st. induction rest as [|node rest IH]; intros nodes st Hnodup Hst.
  - by rewrite app_nil_r.
  - cbn [fold_left]. rewrite (cons_middle node nodes rest), app_assoc in Hnodup |- *.
    apply IH; [done|]. apply complete_step; [|done].
    unfold properties in *. rewrite jitterStatsProperties_app in Hnodup.
    by apply NoDup_app in Hnodup as (? & _ & _).
Qed.

(** X11.  When no two nodes with client data have the same property (their
    uuids are the keys of the node hash), the jitter statistics of every
    such node are sent, in exactly one of the objects. *)
Theorem every_client_is_in_one_object
    (nodeHash : list Node) (node : Node) (clientData : AudioMixerClientData) :
  NoDup (jitterStatsProperties uuidToString nodeHash) ->
  In node nodeHash -> getLinkedData node = Some clientData ->
  exists j object,
    sendJitterStats uuidToString getJitterBufferStatsString nodeHash !! j = Some object
    /\ object !! jitterStatsProperty uuidToString node
       = Some (getJitterBufferStatsString clientData)
    /\ forall j' object',
         sendJitterStats uuidToString getJitterBufferStatsString nodeHash !! j'
         = Some object' ->
         is_Some (object' !! jitterStatsProperty uuidToString node) -> j' = j.
Proof.
  intros Hnodup Hnode Hdata.
  assert (Hok : statsLoopOk uuidToString getJitterBufferStatsString nodeHash
                  (fold_left step nodeHash statsLoopStart)).
  { apply statsLoopOk_fold; [done|]. repeat split; try done.
    intros object k v [->|[]] Hk. cbn [statsLoopStart statsObject2] in Hk.
    by rewrite lookup_empty in Hk. }
  destruct Hok as (Hfalse & _).
  assert (Hcomplete : complete nodeHash (fold_left step nodeHash statsLoopStart)).
  { apply (complete_fold nodeHash [] statsLoopStart); [done|].
    split; [|split].
    - intros k [v Hk]. cbn [statsLoopStart statsObject2] in Hk.
      by rewrite lookup_empty in Hk.
    - intros j object k Hj. by cbn in Hj.
    - intros n d []. }
  apply complete_flush in Hcomplete.
  unfold sendJitterStats. fold step.
  set (st := fold_left step nodeHash statsLoopStart) in *.
  destruct Hcomplete as (_ & Hsent & Hall). cbn [statsObject2 sentStats] in *.
  destruct (Hall node clientData Hnode Hdata) as [Hk|(j & object & Hj & Hk)];
    [by rewrite lookup_empty in Hk|].
  assert (Hlast : somethingToSend st = false -> statsObject2 st !! property node = None).
  { intros Hsend. rewrite (Hfalse Hsend). apply lookup_empty. }
  destruct (Hsent j object (property node) Hj ltac:(by eexists)) as (_ & _ & Huniq).
  destruct (somethingToSend st) eqn:Hsend.
  - exists j, object. split; [done|]. split; [done|]. apply Huniq.
  - specialize (Hlast eq_refl).
    apply lookup_app_Some in Hj as [Hj|[Hlen Hj]].
    + exists j, object. split; [done|]. split; [done|].
      intros j' object' Hj' Hk'. apply (Huniq j' object'); [|done].
      by apply lookup_app_l_Some.
    + destruct (j - length (sentStats st))%nat; [|done].
      cbn in Hj. injection Hj as <-. fold property in Hk.
      rewrite Hlast in Hk. done.
Qed.

End JitterStatsComplete.

(** * The audio stream statistics of a frame *)

Lemma clockFrom_tail start now rest :
  clockFrom start (now :: rest) -> clockFrom now rest /\ clockFrom start rest.
Proof.
  intros (Hstart & Hrange & Hmono).
  assert (Hnow : start <= now < 2 ^ 64) by (apply (Hrange 0%nat); done).
  split; (split; [lia|split]).
  - intros k t Hk. split.
    + apply (Hmono 0%nat (S k) now t); [lia|done|done].
    + apply (Hrange (S k) t Hk).
  - intros k k' t t' Hle Hk Hk'. apply (Hmono (S k) (S k') t t'); [lia|done|done].
  - intros k t Hk. apply (Hrange (S k) t Hk).
  - intros k k' t t' Hle Hk Hk'. apply (Hmono (S k) (S k') t t'); [lia|done|done].
Qed.

Lemma audioStreamStats_since_start start nows j t :
  clockFrom start nows ->
  audioStreamStatsRun start nows !! j = Some true -> nows !! j = Some t ->
  USECS_PER_SECOND < t - start.
Proof.
  revert start j. induction nows as [|now rest IH]; intros start j Hclock Hj Ht; [done|].
  destruct (clockFrom_tail start now rest Hclock) as [Hnow Hrest].
  destruct Hclock as (Hstart & Hrange & _).
  assert (Hn : start <= now < 2 ^ 64) by (apply (Hrange 0%nat); done).
  cbn [audioStreamStatsRun] in Hj. unfold audioStreamStatsFrame in Hj.
  unfold TOO_LONG_SINCE_LAST_SEND_AUDIO_STREAM_STATS, wrap64u in Hj.
  rewrite Z.mod_small in Hj by lia.
  destruct (Z.ltb_spec (1 * USECS_PER_SECOND) (now - start)) as [Hlong|Hshort].
  - destruct j as [|j].
    + injection Ht as <-. lia.
    + change ((true :: audioStreamStatsRun now rest) !! S j)
        with (audioStreamStatsRun now rest !! j) in Hj.
      change ((now :: rest) !! S j) with (rest !! j) in Ht.
      specialize (IH now j Hnow Hj Ht). unfold USECS_PER_SECOND in *. lia.
  - destruct j as [|j]; [done|].
    change ((false :: audioStreamStatsRun start rest) !! S j)
      with (audioStreamStatsRun start rest !! j) in Hj.
    change ((now :: rest) !! S j) with (rest !! j) in Ht.
    apply (IH start j Hrest Hj Ht).
Qed.

(** X15.  With a clock that does not go back, the audio stream statistics
    are sent in frames more than a second apart, and the first of them more
    than a second after the mixer was constructed. *)
Theorem audio_stream_stats_once_per_second
    (start : Z) (nows : list Z) (i j : nat) (ti tj : Z) :
  clockFrom start nows -> (i < j)%nat ->
  audioStreamStatsRun start nows !! i = Some true -> nows !! i = Some ti ->
  audioStreamStatsRun start nows !! j = Some true -> nows !! j = Some tj ->
  USECS_PER_SECOND < ti - start /\ USECS_PER_SECOND < tj - ti.
Proof.
  intros Hclock Hij Hi Hti Hj Htj.
  split; [by apply (audioStreamStats_since_start start nows i ti)|].
  revert start i j Hclock Hij Hi Hti Hj Htj.
  induction nows as [|now rest IH]; intros start i j Hclock Hij Hi Hti Hj Htj; [done|].
  destruct (clockFrom_tail start now rest Hclock) as [Hnow Hrest].
  destruct j as [|j]; [lia|].
  change ((now :: rest) !! S j) with (rest !! j) in Htj.
  cbn [audioStreamStatsRun] in Hi, Hj.
  destruct (audioStreamStatsFrame start now) as [last send] eqn:Hframe.
  change ((send :: audioStreamStatsRun last rest) !! S j)
    with (audioStreamStatsRun last rest !! j) in Hj.
  assert (Hlast : clockFrom last rest).
  { unfold audioStreamStatsFrame in Hframe.
    destruct (_ <? _); injection Hframe as <- <-; done. }
  destruct i as [|i].
  - injection Hti as <-. injection Hi as ->.
    unfold audioStreamStatsFrame in Hframe.
    destruct (_ <? _); [|done]. injection Hframe as <-.
    by apply (audioStreamStats_since_start now rest j tj).
  - change ((send :: audioStreamStatsRun last rest) !! S i)
      with (audioStreamStatsRun last rest !! i) in Hi.
    change ((now :: rest) !! S i) with (rest !! i) in Hti.
    apply (IH last i j); [done|lia|done..].
Qed.

(** * The delayed samples of a frame-aligned buffer *)

(** C5.  For a mono source mixed with a delay of n > 0 samples from a ring
    buffer whose read position is frame-aligned, the n samples added to the
    first n slots of the delayed channel are the n samples immediately
    before the next output in circular order, scaled by the attenuation
    times the weak-channel ratio: they are read n samples before the next
    output, or from the last n samples of the array when the next output is
    fewer than n samples from its start. *)
Theorem delayed_samples_precede_the_frame
    (b : PositionalAudioRingBuffer) (p : MixParams) (a : list Z) (i : Z) :
  negb (isStereo b) && shouldAttenuate p = true ->
  frameAligned b ->
  0 < numSamplesDelay p <= SAMPLE_PHASE_DELAY_AT_90 ->
  CLIENT_SAMPLES_LENGTH <= Z.of_nat (length a) ->
  0 <= i < numSamplesDelay p ->
  delayNextOutputStart b p
  = (if nextOutput b <? numSamplesDelay p
     then getSampleCapacity b - numSamplesDelay p
     else nextOutput b - numSamplesDelay p)
  /\ deref b (delayNextOutputStart b p) i = precedingSample b (numSamplesDelay p) i
  /\ rd (accumulate b p a) (2 * i + delayedChannelOffset p)
     = sat16 (rd a (2 * i + delayedChannelOffset p)
              + scaled (precedingSample b (numSamplesDelay p) i)
                       (F32.mul (attenuationCoefficient p)
                                (weakChannelAmplitudeRatio p))).
Proof.
  intros Hbranch (Hpos & Hframe & Hcap) Hd Hlen Hi.
  unfold NETWORK_BUFFER_LENGTH_SAMPLES_PER_CHANNEL, CLIENT_SAMPLES_LENGTH,
    NETWORK_BUFFER_LENGTH_SAMPLES_STEREO, SAMPLE_PHASE_DELAY_AT_90 in *.
  change (480 / 2) with 240 in *.
  assert (Haligned : nextOutput b = 0 \/ 240 <= nextOutput b).
  { Z.div_mod_to_equations. lia. }
  assert (Hstart : delayNextOutputStart b p
                   = (if nextOutput b <? numSamplesDelay p
                      then getSampleCapacity b - numSamplesDelay p
                      else nextOutput b - numSamplesDelay p)).
  { unfold delayNextOutputStart. cbv zeta.
    destruct (Z.ltb_spec (nextOutput b - numSamplesDelay p) 0);
      destruct (Z.ltb_spec (nextOutput b) (numSamplesDelay p)); lia. }
  assert (Hread : deref b (delayNextOutputStart b p) i
                  = precedingSample b (numSamplesDelay p) i).
  { rewrite Hstart. unfold deref, precedingSample. f_equal.
    destruct (Z.ltb_spec (nextOutput b) (numSamplesDelay p)) as [Hlt|Hge].
    - assert (nextOutput b = 0) as -> by lia.
      replace (0 - numSamplesDelay p + i)
        with (getSampleCapacity b - numSamplesDelay p + i + -1 * getSampleCapacity b)
        by lia.
      rewrite Z.mod_add by lia. rewrite Z.mod_small; lia.
    - rewrite Z.mod_small; lia. }
  split; [exact Hstart|]. split; [exact Hread|].
  unfold accumulate. rewrite Hbranch.
  rewrite addDelayedSamples_rd by (rewrite length_monoLoop; lia).
  unfold frameOffsets.
  change (Z.to_nat (NETWORK_BUFFER_LENGTH_SAMPLES_STEREO / 4)) with 120%nat.
  rewrite monoLoop_rd by lia.
  unfold monoLoopSample. change (Z.of_nat 120) with 120. cbv zeta.
  unfold delaySample, attenuationAndWeakChannelRatio. rewrite <- Hread.
  assert (Hhalf : (2 * i + delayedChannelOffset p) / 2 = i).
  { destruct (channel_offsets p) as [[-> _]|[-> _]]; Z.div_mod_to_equations; lia. }
  rewrite Hhalf.
  destruct (channel_offsets p) as [[Ho Hg]|[Ho Hg]]; rewrite Ho, Hg;
    repeat match goal with
           | |- context [Z.eqb ?x ?y] =>
               destruct (Z.eqb_spec x y); try (exfalso; Z.div_mod_to_equations; lia)
           end;
    cbn [andb];
    repeat match goal with
           | |- context [Z.leb ?x ?y] => destruct (Z.leb_spec x y); try lia
           | |- context [Z.ltb ?x ?y] => destruct (Z.ltb_spec x y); try lia
           end;
    cbn [andb]; reflexivity.
Qed.

(** * Saturation *)

Lemma sat16_spec x : sat16 x = Z.max (-32768) (Z.min 32767 x).
Proof.
  unfold sat16, INT16_MIN, INT16_MAX.
  destruct (Z.ltb_spec x (-32768)); [lia|].
  destruct (Z.ltb_spec 32767 x); lia.
Qed.

Lemma is_int16_contribution b p j :
  negb (isStereo b) && shouldAttenuate p = true -> is_int16 (contribution b p j).
Proof.
  intros Hbranch. unfold contribution. rewrite Hbranch. cbv zeta.
  assert (H0 : is_int16 0) by (unfold is_int16, INT16_MIN, INT16_MAX; lia).
  repeat match goal with
         | |- context [if ?c then _ else _] => destruct c
         end;
    try exact H0; apply wrap16_int16.
Qed.

(** The spatialized branch: the slot holds the saturated sum. *)
Lemma accumulate_saturates b p a j :
  negb (isStereo b) && shouldAttenuate p = true ->
  fitsClientSamples p a -> 0 <= j -> is_int16 (rd a j) ->
  rd (accumulate b p a) j = sat16 (rd a j + contribution b p j).
Proof.
  intros Hbranch [Hd Hlen] Hj Hold. unfold accumulate, contribution.
  rewrite Hbranch.
  unfold NETWORK_BUFFER_LENGTH_SAMPLES_STEREO in Hlen.
  rewrite addDelayedSamples_rd by (rewrite length_monoLoop; lia).
  unfold frameOffsets.
  change (Z.to_nat (NETWORK_BUFFER_LENGTH_SAMPLES_STEREO / 4)) with 120%nat.
  rewrite monoLoop_rd by lia.
  unfold monoLoopSample, correctSample.
  change (NETWORK_BUFFER_LENGTH_SAMPLES_STEREO / 2) with 240.
  change NETWORK_BUFFER_LENGTH_SAMPLES_STEREO with 480.
  change (Z.of_nat 120) with 120.
  cbn zeta.
  assert (Hsame : sat16 (rd a j + 0) = rd a j)
    by (rewrite Z.add_0_r; by apply sat16_id).
  destruct (channel_offsets p) as [[-> ->]|[-> ->]];
    destruct (Z.eqb_spec (j mod 2) 1); destruct (Z.eqb_spec (j mod 2) 0);
    try lia; cbn [andb];
    try (exfalso; Z.div_mod_to_equations; lia);
    split_tests; cbn [andb];
    rewrite ?Hsame; try reflexivity;
    exfalso; Z.div_mod_to_equations; lia.
Qed.

Section Saturation.

Variable E : External.
Variable threshold : float.

Lemma listener_has_block nodeHash listeners m node :
  In node listeners -> isListener node = true ->
  exists m0 m',
    prepareMixForListeningNode E threshold nodeHash node m0 = Some m'
    /\ In (uuid node, outputBlock m')
          (snd (mixListeners E threshold nodeHash listeners m)).
Proof.
  revert m. induction listeners as [|first rest IH]; intros m Hin Hl; [done|].
  cbn [mixListeners].
  destruct (isListener first) eqn:Hfirst.
  - destruct (prepareMix_listener E threshold nodeHash first m Hfirst) as [m' Hm'].
    rewrite Hm'.
    destruct Hin as [->|Hin].
    + exists m, m'. split; [done|].
      destruct (mixListeners E threshold nodeHash rest m') as [m'' packets].
      by left.
    + destruct (IH m' Hin Hl) as (m0 & m1 & Hm1 & Hblock).
      exists m0, m1. split; [done|].
      destruct (mixListeners E threshold nodeHash rest m') as [m'' packets].
      by right.
  - destruct Hin as [->|Hin]; [by rewrite Hl in Hfirst|].
    by apply IH.
Qed.

(** C1.  In a frame, every listener is sent the block its mix left, and
    every sample of every block lies in [-32768, 32767].  The spatialized
    mono branch adds to each slot with signed 16-bit saturation: the slot
    holds the old sample plus what the source contributes, brought back to
    -32768 or 32767 when it leaves the range.  The other branch adds in 32
    bits and clamps: with an attenuation in [0, 1] and 16-bit samples the
    product converts exactly, the sum does not wrap, and the slot holds the
    sum clamped to the range. *)
Theorem accumulation_saturates_in_range (nodeHash listeners : list Node) (m : Mix) :
  (forall node,
      In node listeners -> isListener node = true ->
      exists m0 m',
        prepareMixForListeningNode E threshold nodeHash node m0 = Some m'
        /\ In (uuid node, outputBlock m')
              (snd (mixListeners E threshold nodeHash listeners m))
        /\ Forall is_int16 (outputBlock m'))
  /\ Forall (fun packet => Forall is_int16 (snd packet))
            (snd (mixListeners E threshold nodeHash listeners m))
  /\ (forall b p a j,
        negb (isStereo b) && shouldAttenuate p = true ->
        fitsClientSamples p a -> 0 <= j -> is_int16 (rd a j) ->
        is_int16 (contribution b p j)
        /\ rd (accumulate b p a) j
           = Z.max (-32768) (Z.min 32767 (rd a j + contribution b p j)))
  /\ (forall b p a j,
        negb (isStereo b) && shouldAttenuate p = false ->
        NETWORK_BUFFER_LENGTH_SAMPLES_STEREO <= Z.of_nat (length a) ->
        0 <= j < NETWORK_BUFFER_LENGTH_SAMPLES_STEREO ->
        is_int16 (rd a j) ->
        is_int16 (deref b (nextOutput b) (j / (if isStereo b then 1 else 2))) ->
        unitGain (if shouldAttenuate p then attenuationCoefficient p else F32.one) ->
        rd (accumulate b p a) j
        = Z.max (-32768)
                (Z.min 32767
                       (rd a j
                        + cvttss2si
                            (F32.mul
                               (F32.of_int
                                  (deref b (nextOutput b)
                                         (j / (if isStereo b then 1 else 2))))
                               (if shouldAttenuate p then attenuationCoefficient p
                                else F32.one))))).
Proof.
  split; [|split; [|split]].
  - intros node Hin Hl.
    destruct (listener_has_block nodeHash listeners m node Hin Hl)
      as (m0 & m' & Hm' & Hblock).
    exists m0, m'. split; [done|]. split; [done|].
    apply (prepareMix_blockOk E threshold nodeHash node m0 m' Hm').
  - apply mixed_samples_in_range.
  - intros b p a j Hbranch Hfit Hj Hold.
    split; [by apply is_int16_contribution|].
    rewrite <- sat16_spec. by apply accumulate_saturates.
  - intros b p a j Hbranch Hlen Hj Hold Hsample Hgain.
    unfold accumulate. rewrite Hbranch. unfold frameOffsets.
    change (Z.to_nat (NETWORK_BUFFER_LENGTH_SAMPLES_STEREO / 4)) with 120%nat.
    unfold NETWORK_BUFFER_LENGTH_SAMPLES_STEREO in *.
    rewrite stereoLoop_rd by lia.
    change (4 * Z.of_nat 120) with 480.
    destruct (Z.leb_spec 0 j); [|lia].
    destruct (Z.ltb_spec j 480); [|lia]. cbn [andb].
    unfold mixedSample.
    destruct (scaled_exact _ _ Hsample Hgain) as (_ & Hint & _).
    unfold is_int16, INT16_MIN, INT16_MAX in Hold, Hint.
    rewrite wrap32_small by (unfold INT32_MIN, INT32_MAX; lia).
    unfold glm_clamp, MIN_SAMPLE_VALUE, MAX_SAMPLE_VALUE, INT16_MIN, INT16_MAX. lia.
Qed.

End Saturation.

(** * The properties on the scenarios *)

(** A stereo injector heard unattenuated: sample 7 of the block is the
    source's sample 7, and slot 480 is not written. *)
Lemma unspatialized_source_sample_by_sample_witness :
  rd (accumulate Scenario.stereoInjector unattenuated
                 (_clientSamples Scenario.silence)) 7 = 1000
  /\ rd (accumulate Scenario.stereoInjector unattenuated
                    (_clientSamples Scenario.silence)) 480 = 0.
Proof.
  split.
  - destruct (unspatialized_source_sample_by_sample
                Scenario.stereoInjector unattenuated
                (_clientSamples Scenario.silence) 7) as [_ ->];
      [reflexivity | vm_compute; discriminate | vm_compute; reflexivity].
  - destruct (unspatialized_source_sample_by_sample
                Scenario.stereoInjector unattenuated
                (_clientSamples Scenario.silence) 480) as [_ ->];
      [reflexivity | vm_compute; discriminate | vm_compute; reflexivity].
Defined.

(** The ring of eight samples 10..17 read from offset 1 with a delay of
    two: the delayed (left) channel starts with the two samples the code
    takes for the ones before the frame and goes on with the frame, whose
    first sample the right channel starts with. *)
Lemma spatialized_source_sample_by_sample_witness :
  rd (accumulate Scenario.smallRing Scenario.delayOfTwo
                 (_clientSamples Scenario.silence)) 0 = 16
  /\ rd (accumulate Scenario.smallRing Scenario.delayOfTwo
                    (_clientSamples Scenario.silence)) 4 = 11
  /\ rd (accumulate Scenario.smallRing Scenario.delayOfTwo
                    (_clientSamples Scenario.silence)) 1 = 11.
Proof.
  split; [|split].
  - destruct (spatialized_source_sample_by_sample
                Scenario.smallRing Scenario.delayOfTwo
                (_clientSamples Scenario.silence) 0) as [_ ->];
      [reflexivity | vm_compute; discriminate | vm_compute; discriminate
      | lia | vm_compute; reflexivity].
  - destruct (spatialized_source_sample_by_sample
                Scenario.smallRing Scenario.delayOfTwo
                (_clientSamples Scenario.silence) 4) as [_ ->];
      [reflexivity | vm_compute; discriminate | vm_compute; discriminate
      | lia | vm_compute; reflexivity].
  - destruct (spatialized_source_sample_by_sample
                Scenario.smallRing Scenario.delayOfTwo
                (_clientSamples Scenario.silence) 1) as [_ ->];
      [reflexivity | vm_compute; discriminate | vm_compute; discriminate
      | lia | vm_compute; reflexivity].
Defined.

(** The listener of a stereo injector gets the same block after silence as
    after a mix that left 7 in every slot. *)
Lemma mix_starts_from_silence_witness :
  option_map outputBlock
    (prepareMixForListeningNode Reference.external Scenario.defaultThreshold
       [Scenario.agent 0 [Scenario.insideListener];
        Scenario.agent 1 [Scenario.stereoInjector]]
       (Scenario.agent 0 [Scenario.insideListener]) Scenario.silence)
  = option_map outputBlock
      (prepareMixForListeningNode Reference.external Scenario.defaultThreshold
         [Scenario.agent 0 [Scenario.insideListener];
          Scenario.agent 1 [Scenario.stereoInjector]]
         (Scenario.agent 0 [Scenario.insideListener])
         {| _clientSamples := replicate (Z.to_nat CLIENT_SAMPLES_LENGTH) 7;
            _sumMixes := 3 |}).
Proof. apply mix_starts_from_silence. vm_compute. reflexivity. Defined.

(** A listener alone in the registry, without loopback, is sent silence. *)
Lemma no_eligible_source_is_silence_witness :
  prepareMixForListeningNode Reference.external Scenario.defaultThreshold
    [Scenario.agent 0 [Scenario.listener]] (Scenario.agent 0 [Scenario.listener])
    Scenario.silence
  = Some Scenario.silence
  /\ Forall (fun sample => sample = 0) (outputBlock Scenario.silence).
Proof.
  split; [vm_compute; reflexivity|].
  apply (no_eligible_source_is_silence Reference.external Scenario.defaultThreshold
           [Scenario.agent 0 [Scenario.listener]] (Scenario.agent 0 [Scenario.listener])
           Scenario.silence Scenario.silence).
  - intros other data b [<-|[]] [= <-] [<-|[]]. reflexivity.
  - vm_compute. reflexivity.
Defined.

(** Two agents with microphones: each is sent one block of 480 samples. *)
Lemma one_block_per_listener_witness :
  List.map fst
    (snd (mixListeners Reference.external Scenario.defaultThreshold
            [Scenario.agent 0 [Scenario.listener]; Scenario.agent 1 [Scenario.farSource]]
            [Scenario.agent 0 [Scenario.listener]; Scenario.agent 1 [Scenario.farSource]]
            Scenario.silence))
  = [0%nat; 1%nat]
  /\ Forall (fun packet =>
               Z.of_nat (length (snd packet)) = NETWORK_BUFFER_LENGTH_SAMPLES_STEREO)
       (snd (mixListeners Reference.external Scenario.defaultThreshold
               [Scenario.agent 0 [Scenario.listener]; Scenario.agent 1 [Scenario.farSource]]
               [Scenario.agent 0 [Scenario.listener]; Scenario.agent 1 [Scenario.farSource]]
               Scenario.silence)).
Proof.
  destruct (one_block_per_listener Reference.external Scenario.defaultThreshold
              [Scenario.agent 0 [Scenario.listener]; Scenario.agent 1 [Scenario.farSource]]
              [Scenario.agent 0 [Scenario.listener]; Scenario.agent 1 [Scenario.farSource]]
              Scenario.silence) as [Hids Hlen];
    [vm_compute; discriminate|].
  split; [|exact Hlen]. rewrite Hids. reflexivity.
Defined.

(** A microphone straight ahead of its listener: the sine of the bearing
    is 0, there is no delay and the weak channel is not scaled. *)
Lemma spatial_cues_are_bounded_witness :
  0 <= numSamplesDelay
         (attenuateAndSpatialize Reference.external
            (Scenario.microphone 6 Scenario.origin F32.one 1000)
            Scenario.identity (vsub Scenario.origin Scenario.behind))
    <= SAMPLE_PHASE_DELAY_AT_90
  /\ unitGain
       (weakChannelAmplitudeRatio
          (attenuateAndSpatialize Reference.external
             (Scenario.microphone 6 Scenario.origin F32.one 1000)
             Scenario.identity (vsub Scenario.origin Scenario.behind))).
Proof.
  assert (Hp : spatialize Reference.external Scenario.defaultThreshold
                 (Scenario.microphone 6 Scenario.origin F32.one 1000)
                 0 Scenario.behind Scenario.identity
               = Some (attenuateAndSpatialize Reference.external
                         (Scenario.microphone 6 Scenario.origin F32.one 1000)
                         Scenario.identity (vsub Scenario.origin Scenario.behind)))
    by (vm_compute; reflexivity).
  assert (Hsin : unitGain
                   (F32.fabsf
                      (sinf Reference.external
                         (bearingRelativeAngleToSource
                            (attenuateAndSpatialize Reference.external
                               (Scenario.microphone 6 Scenario.origin F32.one 1000)
                               Scenario.identity
                               (vsub Scenario.origin Scenario.behind))))))
    by (vm_compute; exact I).
  destruct (spatial_cues_are_bounded _ _ _ _ _ _ _ Hp Hsin) as (Hdelay & _ & Hweak).
  split; [exact Hdelay|exact Hweak].
Defined.

(** A sample of 1000 at the gains 0.2 and 0.5: every conversion is exact. *)
Lemma conversions_exact_under_unit_gains_witness :
  is_int16 (scaled 1000 (F32.lit 2 10))
  /\ is_int16 (scaled (scaled 1000 (F32.lit 2 10)) F32.half)
  /\ is_int16 (scaled 1000 (F32.mul (F32.lit 2 10) F32.half))
  /\ scaled 1000 (F32.lit 2 10)
     = cvttss2si (F32.mul (F32.of_int 1000) (F32.lit 2 10))
  /\ wrap32 (0 + cvttss2si (F32.mul (F32.of_int 1000) (F32.lit 2 10)))
     = 0 + cvttss2si (F32.mul (F32.of_int 1000) (F32.lit 2 10)).
Proof.
  apply conversions_exact_under_unit_gains.
  - vm_compute. split; discriminate.
  - vm_compute. split; discriminate.
  - apply unitGain_of_bounds; vm_compute; reflexivity.
  - apply unitGain_of_bounds; vm_compute; reflexivity.
Defined.

(** The ring of eight samples read from offset 1 with a delay of one: the
    delayed sample is the one at offset 0. *)
Lemma delay_window_when_aligned_witness :
  deref Scenario.smallRing
        (delayNextOutputStart Scenario.smallRing
           (Build_MixParams F32.zero F32.one 1 F32.one true)) 0
  = precedingSample Scenario.smallRing 1 0
  /\ precedingSample Scenario.smallRing 1 0 = 10.
Proof.
  split; [|vm_compute; reflexivity].
  apply (delay_window_when_aligned Scenario.smallRing
           (Build_MixParams F32.zero F32.one 1 F32.one true) 0);
    cbn; lia.
Defined.

(** A mute-environment packet of node 0 is written to node 1 and not back
    to node 0, and an audio packet updates its node. *)
Lemma datagrams_are_dispatched_by_type_witness :
  In (writeDatagram PacketTypeMuteEnvironment Traffic.muteFromFirst 1)
     (readPendingDatagrams Traffic.nodes [Traffic.muteFromFirst; Traffic.silentFrame])
  /\ ~ In (writeDatagram PacketTypeMuteEnvironment Traffic.muteFromFirst 0)
          (readPendingDatagrams Traffic.nodes [Traffic.muteFromFirst; Traffic.silentFrame])
  /\ In (findNodeAndUpdateWithDataFromPacket Traffic.silentFrame)
        (readPendingDatagrams Traffic.nodes [Traffic.muteFromFirst; Traffic.silentFrame]).
Proof.
  split; [|split].
  - apply (datagrams_are_dispatched_by_type
             Traffic.nodes [Traffic.muteFromFirst; Traffic.silentFrame]
             (writeDatagram PacketTypeMuteEnvironment Traffic.muteFromFirst 1)).
    exists Traffic.muteFromFirst. split; [by left|]. split; [reflexivity|].
    split; [reflexivity|]. split; [reflexivity|]. split; [reflexivity|].
    split; [discriminate|].
    exists (Scenario.agent 1 [Scenario.farSource]).
    split; [right; by left|]. split; [reflexivity|]. split; [reflexivity|].
    split; [reflexivity|]. by eexists.
  - intros Hin.
    apply (datagrams_are_dispatched_by_type
             Traffic.nodes [Traffic.muteFromFirst; Traffic.silentFrame]
             (writeDatagram PacketTypeMuteEnvironment Traffic.muteFromFirst 0)) in Hin.
    destruct Hin as (d & _ & _ & <- & _ & _ & Hsender & _). by apply Hsender.
  - apply (datagrams_are_dispatched_by_type
             Traffic.nodes [Traffic.muteFromFirst; Traffic.silentFrame]
             (findNodeAndUpdateWithDataFromPacket Traffic.silentFrame)).
    exists Traffic.silentFrame. split; [right; by left|]. split; [reflexivity|].
    split; [reflexivity|]. split; discriminate.
Defined.

(** Two agents with client data: the statistics of the second are in one
    object. *)
Lemma every_client_is_in_one_object_witness :
  exists j object,
    sendJitterStats Traffic.uuidToString Traffic.getJitterBufferStatsString
                    Traffic.nodes !! j = Some object
    /\ object !! jitterStatsProperty Traffic.uuidToString
                   (Scenario.agent 1 [Scenario.farSource])
       = Some (Traffic.getJitterBufferStatsString
                 (Build_AudioMixerClientData [Scenario.farSource]))
    /\ forall j' object',
         sendJitterStats Traffic.uuidToString Traffic.getJitterBufferStatsString
                         Traffic.nodes !! j' = Some object' ->
         is_Some (object' !! jitterStatsProperty Traffic.uuidToString
                               (Scenario.agent 1 [Scenario.farSource])) ->
         j' = j.
Proof.
  apply (every_client_is_in_one_object
           Traffic.uuidToString Traffic.getJitterBufferStatsString Traffic.nodes
           (Scenario.agent 1 [Scenario.farSource])
           (Build_AudioMixerClientData [Scenario.farSource])).
  - apply (bool_decide_unpack _). vm_compute. exact I.
  - right. left. reflexivity.
  - reflexivity.
Defined.

(** A stereo injector and the ring of eight samples mixed into silence:
    slot 0 holds 1000 + 16 in either order. *)
Lemma sources_add_up_without_clipping_witness :
  rd (accumulate Scenario.smallRing Scenario.delayOfTwo
        (accumulate Scenario.stereoInjector unattenuated
           (_clientSamples Scenario.silence))) 0 = 1016
  /\ rd (accumulate Scenario.stereoInjector unattenuated
           (accumulate Scenario.smallRing Scenario.delayOfTwo
              (_clientSamples Scenario.silence))) 0 = 1016.
Proof.
  assert (Hfit1 : fitsClientSamples unattenuated (_clientSamples Scenario.silence))
    by (split; vm_compute; discriminate).
  assert (Hfit2 : fitsClientSamples Scenario.delayOfTwo (_clientSamples Scenario.silence))
    by (split; vm_compute; discriminate).
  assert (Hc1 : contribution Scenario.stereoInjector unattenuated 0 = 1000)
    by (vm_compute; reflexivity).
  assert (Hc2 : contribution Scenario.smallRing Scenario.delayOfTwo 0 = 16)
    by (vm_compute; reflexivity).
  assert (Hold : rd (_clientSamples Scenario.silence) 0 = 0)
    by (vm_compute; reflexivity).
  destruct (sources_add_up_without_clipping
              Scenario.stereoInjector Scenario.smallRing
              unattenuated Scenario.delayOfTwo
              (_clientSamples Scenario.silence) 0 Hfit1 Hfit2) as [H12 H21].
  - lia.
  - rewrite Hold, Hc1. split; discriminate.
  - rewrite Hold, Hc2. split; discriminate.
  - rewrite Hold, Hc1, Hc2. split; discriminate.
  - rewrite H12, H21, Hold, Hc1, Hc2. split; reflexivity.
Defined.

(** Frames every 0.6 s from the start of the mixer: the statistics go out
    in the second and the fourth. *)
Lemma audio_stream_stats_once_per_second_witness :
  audioStreamStatsRun 0 [600000; 1200000; 1800000; 2400000]
  = [false; true; false; true]
  /\ USECS_PER_SECOND < 1200000 - 0 /\ USECS_PER_SECOND < 2400000 - 1200000.
Proof.
  assert (Hrun : audioStreamStatsRun 0 [600000; 1200000; 1800000; 2400000]
                 = [false; true; false; true]) by (vm_compute; reflexivity).
  split; [exact Hrun|].
  assert (Hclock : clockFrom 0 [600000; 1200000; 1800000; 2400000]).
  { split; [lia|split].
    - intros k t Hk. do 4 (destruct k as [|k]; [injection Hk as <-; lia|]). done.
    - intros k k' t t' Hle Hk Hk'.
      do 4 (destruct k as [|k];
            [injection Hk as <-;
             do 4 (destruct k' as [|k']; [injection Hk' as <-; lia|]); done|]).
      done. }
  apply (audio_stream_stats_once_per_second
           0 [600000; 1200000; 1800000; 2400000] 1 3 1200000 2400000 Hclock);
    [lia|by rewrite Hrun|done|by rewrite Hrun|done].
Defined.

(** The ramp read from the start of its array with a delay of two: the two
    delayed samples are the last two of the array, 2398 and 2399, and the
    second lands in slot 2 of the left channel. *)
Lemma delayed_samples_precede_the_frame_witness :
  delayNextOutputStart rampRing Scenario.delayOfTwo = 2398
  /\ deref rampRing (delayNextOutputStart rampRing Scenario.delayOfTwo) 1 = 2399
  /\ precedingSample rampRing 2 1 = 2399
  /\ rd (accumulate rampRing Scenario.delayOfTwo (_clientSamples Scenario.silence)) 2
     = 2399.
Proof.
  assert (Hframe : frameAligned rampRing).
  { split; [|split]; vm_compute; try split; try reflexivity; discriminate. }
  destruct (delayed_samples_precede_the_frame
              rampRing Scenario.delayOfTwo (_clientSamples Scenario.silence) 1
              eq_refl Hframe) as (Hstart & Hread & Hslot).
  - vm_compute. split; [reflexivity|discriminate].
  - vm_compute. discriminate.
  - vm_compute. split; [discriminate|reflexivity].
  - split; [rewrite Hstart; vm_compute; reflexivity|].
    split; [rewrite Hread; vm_compute; reflexivity|].
    split; [vm_compute; reflexivity|].
    assert (Hidx : 2 * 1 + delayedChannelOffset Scenario.delayOfTwo = 2)
      by reflexivity.
    rewrite Hidx in Hslot. rewrite Hslot. vm_compute. reflexivity.
Defined.
